(** * A shallow embedding of three Chromium //net components

    - [Store]: the bookkeeping of
      net/extras/sqlite/sqlite_persistent_shared_dictionary_store.cc
      (registration, per-site and global eviction, the readers, the
      deletions, the running total kept in the meta table);
    - [Writers]: the state machine of net/http/http_cache_writers.cc that
      shares one network read among the transactions writing a cache entry;
    - [Auth]: the registry of net/http/http_auth_handler_factory.cc that
      finds the factory of an authentication scheme, and the factory of
      the NTLM handler over SSPI.

    The SQL engine, the disk cache entry and the network transaction are
    collaborators: the tables are lists of rows, SQL statements are list
    functions, and every call that can fail takes its answer from an
    explicit environment record. *)

From Stdlib Require Import ZArith List Bool Lia String Permutation Sorted.
From stdpp Require Import base tactics option list gmap strings.

#[local] Open Scope Z_scope.

(* ===================================================================== *)
(** ** Fixed-width integers and base::CheckedNumeric *)
(* ===================================================================== *)

Module Numerics.

Definition kInt64Min : Z := - 2 ^ 63.
Definition kInt64Max : Z := 2 ^ 63 - 1.
Definition kUint64Max : Z := 2 ^ 64 - 1.

(** [static_cast<int64_t>(z)]: reduction modulo 2^64 into the signed range. *)
Definition static_cast_int64 (z : Z) : Z := (z + 2 ^ 63) mod 2 ^ 64 - 2 ^ 63.

(** [static_cast<uint64_t>(z)], also the conversion behind
    [size_t size = statement.ColumnInt64(i)]. *)
Definition static_cast_uint64 (z : Z) : Z := z mod 2 ^ 64.

Definition IsValueInRange_int64 (z : Z) : bool := (kInt64Min <=? z) && (z <=? kInt64Max).
Definition IsValueInRange_uint64 (z : Z) : bool := (0 <=? z) && (z <=? kUint64Max).

(** A [base::CheckedNumeric<T>] is its value while valid, [None] once an
    operation left the range of [T]; the operands are mathematical
    integers, whatever their C++ types. *)
Definition CheckedNumeric_int64 (z : Z) : option Z :=
  if IsValueInRange_int64 z then Some z else None.
Definition CheckedNumeric_uint64 (z : Z) : option Z :=
  if IsValueInRange_uint64 z then Some z else None.

End Numerics.

(* ===================================================================== *)
(** ** The shared dictionary store *)
(* ===================================================================== *)

Module Store.
Import Numerics.

(** [SQLitePersistentSharedDictionaryStore::Error], the values the file
    returns. *)
Inductive Error : Type :=
| kFailedToInitializeDatabase
| kInvalidSql
| kFailedToExecuteSql
| kFailedToBeginTransaction
| kFailedToCommitTransaction
| kInvalidTotalDictSize
| kFailedToGetTotalDictSize
| kFailedToSetTotalDictSize
| kTooBigDictionary.

(** The fatal assertions of the file: a failed one terminates the process. *)
Inductive Check : Type :=
| CHECK_NE_0_max_count_per_site
| CHECK_EQ_primary_keys_tokens
| CHECK_ValueOrDie
| CHECK_checked_cast_int64.

(** What a call produces: a value, a typed error ([base::unexpected]), or no
    return at all because a CHECK failed. *)
Inductive Outcome (A : Type) : Type :=
| Ok (a : A)
| Unexpected (e : Error)
| Crash (c : Check).
Arguments Ok {A} a.
Arguments Unexpected {A} e.
Arguments Crash {A} c.

#[export] Instance Outcome_bind : MBind Outcome := fun A B k m =>
  match m with
  | Ok a => k a
  | Unexpected e => Unexpected e
  | Crash c => Crash c
  end.

#[export] Instance Outcome_ret : MRet Outcome := fun A a => Ok a.

(** [if (!cond) return base::unexpected(e);] *)
Definition guard (cond : bool) (e : Error) : Outcome unit :=
  if cond then Ok tt else Unexpected e.

(** A [base::UnguessableToken] as its two serialized halves (uint64). *)
Abbreviation UnguessableToken := (Z * Z)%type.

(** Modelled from the spec: [base::UnguessableToken::Deserialize], which is
    not among the sources. For the spec a token is the 128-bit identifier
    that the two 64-bit integers of a row form; the all-zero pair is the
    null token, for which the function answers [absl::nullopt]. *)
Definition Deserialize (high low : Z) : option UnguessableToken :=
  if (high =? 0) && (low =? 0) then None else Some (high, low).

(** [ToUnguessableToken(int64_t token_high, int64_t token_low)] *)
Definition ToUnguessableToken (token_high token_low : Z) : option UnguessableToken :=
  Deserialize (static_cast_uint64 token_high) (static_cast_uint64 token_low).

(** One row of the table [dictionaries]; the INTEGER columns hold int64. *)
Record Row : Type := {
  id : Z;
  frame_origin : string;
  top_frame_site : string;
  host : string;
  match_ : string;
  url : string;
  res_time : Z;
  exp_time : Z;
  last_used_time : Z;
  size : Z;
  sha256 : string;
  token_high : Z;
  token_low : Z
}.

(** The database file: the table in rowid order, the AUTOINCREMENT counter
    of the table, and the meta value stored under [kTotalDictSizeKey]. *)
Record Database : Type := {
  dictionaries : list Row;
  sqlite_sequence : Z;
  total_dict_size : Z
}.

(** The backend: the database and the coalesced last-used-time updates that
    wait for the next commit ([std::map<int64_t, base::Time>]). *)
Record Backend : Type := {
  db : Database;
  pending_last_used_time_updates_ : gmap Z Z;
  num_pending_ : Z
}.

(** The statements of the file, each [kQuery] under the name of the
    function that holds it. *)
Inductive Query : Type :=
| CommitDictionaryLastUsedTimeUpdate_kQuery
| RegisterDictionaryImpl_kQuery
| SelectCandidatesForPerSiteEviction_kQuery
| GetDictionaryCountPerSite_kQuery
| GetDictionarySizePerSite_kQuery
| GetDictionariesImpl_kQuery
| GetAllDictionariesImpl_kQuery
| ClearAllDictionariesImpl_kQuery
| SelectMatchingDictionaries_kQuery
| SelectMatchingDictionariesWithUrlMatcher_kQuery
| DeleteExpiredDictionariesImpl_kQuery
| SelectEvictionCandidates_kQuery
| DeleteDictionaryByPrimaryKey_kQuery
| DeleteDictionaryByDiskCacheToken_kQuery
| GetAllDiskCacheKeyTokensImpl_kQuery
| GetTotalDictionaryCount_kQuery
| GetExistingDictionarySizeAndDiskCacheKeyToken_kQuery.

(** The answers of the collaborators during one call: whether the database
    initializes, each statement compiles ([IsSQLValid]) and runs ([Run]),
    the meta table reads and writes, and the transaction begins and
    commits. [Step] is the answer of the first [Step()] of a statement
    that has a row to return; it is asked for the look-up of
    [GetExistingDictionarySizeAndDiskCacheKeyToken], whose caller takes a
    failure for an absent row and goes on to write. The cursors that the
    file reads in a loop and its two COUNT statements step without an
    error; the SUM statement fails when the engine's sum overflows. *)
Record Env : Type := {
  InitializeDatabase : bool;
  IsSQLValid : Query -> bool;
  Run : Query -> bool;
  Step : Query -> bool;
  GetValue : bool;
  SetValue : bool;
  Begin : bool;
  Commit : bool
}.

(** [CreateV1Schema]: an empty table and a total of 0. *)
Definition CreateV1Schema : Database :=
  {| dictionaries := []; sqlite_sequence := 0; total_dict_size := 0 |}.

Definition set_dictionaries (rows : list Row) (d : Database) : Database :=
  {| dictionaries := rows;
     sqlite_sequence := sqlite_sequence d;
     total_dict_size := total_dict_size d |}.

Definition set_total_dict_size (v : Z) (d : Database) : Database :=
  {| dictionaries := dictionaries d;
     sqlite_sequence := sqlite_sequence d;
     total_dict_size := v |}.

Definition set_db (d : Database) (b : Backend) : Backend :=
  {| db := d;
     pending_last_used_time_updates_ := pending_last_used_time_updates_ b;
     num_pending_ := num_pending_ b |}.

(** *** SQL building blocks *)

(** [ORDER BY key]: a stable insertion sort, so rows with equal keys come in
    table order. *)
Fixpoint insert_by (key : Row -> Z) (x : Row) (l : list Row) : list Row :=
  match l with
  | [] => [x]
  | y :: l' => if key x <=? key y then x :: y :: l' else y :: insert_by key x l'
  end.

Definition order_by (key : Row -> Z) (l : list Row) : list Row :=
  foldr (insert_by key) [] l.

(** The sum of the size column and [COUNT(id)]. *)
Definition SUM_size (l : list Row) : Z := foldr (fun r acc => size r + acc) 0 l.
Definition COUNT (l : list Row) : Z := Z.of_nat (length l).

(** [SUM(size)] as the engine computes it over the rows it scans: the sum
    of the int64 values, or no value at all (the statement fails with
    "integer overflow") once a partial sum has left the int64 range. *)
Definition SUM_size_int64 (l : list Row) : option Z :=
  foldl (fun acc r => v ← acc; CheckedNumeric_int64 (v + size r)) (Some 0) l.

Definition has_site (site : string) (r : Row) : bool :=
  String.eqb (top_frame_site r) site.

Definition has_key (fo site h m : string) (r : Row) : bool :=
  String.eqb (frame_origin r) fo && String.eqb (top_frame_site r) site
  && String.eqb (host r) h && String.eqb (match_ r) m.

Definition has_token (t : UnguessableToken) (r : Row) : bool :=
  (token_high r =? static_cast_int64 (fst t)) && (token_low r =? static_cast_int64 (snd t)).

(** [DELETE FROM dictionaries WHERE p] *)
Definition delete_where (p : Row -> bool) (d : Database) : Database :=
  set_dictionaries (List.filter (fun r => negb (p r)) (dictionaries d)) d.

(** *** The arguments of a registration *)

(** A parsed [GURL]: its spec and the serialization of its
    [url::SchemeHostPort]. *)
Record GURL : Type := {
  spec : string;
  scheme_host_port : string
}.

(** [SharedDictionaryIsolationKey], each part as [Serialize()] prints it. *)
Record SharedDictionaryIsolationKey : Type := {
  key_frame_origin : string;
  key_top_frame_site : string
}.

(** [SharedDictionaryInfo]; [info_size] is a [size_t]. *)
Record SharedDictionaryInfo : Type := {
  info_url : GURL;
  info_response_time : Z;
  info_expiration : Z;
  info_match : string;
  info_last_used_time : Z;
  info_size : Z;
  info_hash : string;
  info_disk_cache_key_token : UnguessableToken
}.

Definition GetExpirationTime (info : SharedDictionaryInfo) : Z :=
  info_response_time info + info_expiration info.

(** [RegisterDictionaryResult] *)
Record RegisterDictionaryResult : Type := {
  primary_key_in_database_ : Z;
  replaced_disk_cache_key_token_ : option UnguessableToken;
  evicted_disk_cache_key_tokens_ : gset UnguessableToken;
  total_dictionary_size_ : Z;
  total_dictionary_count_ : Z
}.

(** *** Reading the totals *)

Definition GetTotalDictionarySizeImpl (env : Env) (d : Database) : Outcome Z :=
  _ ← guard (InitializeDatabase env) kFailedToInitializeDatabase;
  _ ← guard (GetValue env) kFailedToGetTotalDictSize;
  mret (static_cast_uint64 (total_dict_size d)).

Definition GetTotalDictionaryCount (env : Env) (d : Database) : Outcome Z :=
  _ ← guard (IsSQLValid env GetTotalDictionaryCount_kQuery) kInvalidSql;
  mret (COUNT (dictionaries d)).

Definition GetDictionaryCountPerSite (env : Env) (d : Database) (site : string)
  : Outcome Z :=
  _ ← guard (IsSQLValid env GetDictionaryCountPerSite_kQuery) kInvalidSql;
  mret (COUNT (List.filter (has_site site) (dictionaries d))).

(** [GetDictionarySizePerSite]: [size_per_site] is the uint64 made of the
    int64 that the statement returns, and stays 0 when [Step()] is false,
    as it is when the sum overflows. *)
Definition GetDictionarySizePerSite (env : Env) (d : Database) (site : string)
  : Outcome Z :=
  _ ← guard (IsSQLValid env GetDictionarySizePerSite_kQuery) kInvalidSql;
  mret (match SUM_size_int64 (List.filter (has_site site) (dictionaries d)) with
        | Some sum => static_cast_uint64 sum
        | None => 0
        end).

(** [UpdateTotalDictionarySizeInMetaTable]: the new total, and the database
    that stores it. [size_delta] is an int64 added to a
    [CheckedNumeric<uint64_t>]. *)
Definition UpdateTotalDictionarySizeInMetaTable (env : Env) (d : Database)
    (size_delta : Z) : Outcome (Z * Database) :=
  total ← GetTotalDictionarySizeImpl env d;
  match CheckedNumeric_uint64 (total + size_delta) with
  | None => Unexpected kInvalidTotalDictSize
  | Some total_dictionary_size_out =>
      _ ← guard (SetValue env) kFailedToSetTotalDictSize;
      mret (total_dictionary_size_out,
            set_total_dict_size (static_cast_int64 total_dictionary_size_out) d)
  end.

(** [GetExistingDictionarySizeAndDiskCacheKeyToken]: [None] is the C++
    [false], which the function also answers when its statement does not
    compile or its [Step()] fails; otherwise the size column and the token
    of the first match. *)
Definition GetExistingDictionarySizeAndDiskCacheKeyToken (env : Env) (d : Database)
    (isolation_key : SharedDictionaryIsolationKey) (host_ match__ : string)
  : option (Z * option UnguessableToken) :=
  if negb (IsSQLValid env GetExistingDictionarySizeAndDiskCacheKeyToken_kQuery)
  then None
  else if negb (Step env GetExistingDictionarySizeAndDiskCacheKeyToken_kQuery)
  then None
  else
  match order_by id (List.filter (has_key (key_frame_origin isolation_key)
                                     (key_top_frame_site isolation_key) host_ match__)
                                 (dictionaries d)) with
  | [] => None
  | r :: _ => Some (size r, ToUnguessableToken (token_high r) (token_low r))
  end.

(** [DeleteDictionaryByPrimaryKey] *)
Definition DeleteDictionaryByPrimaryKey (env : Env) (d : Database) (primary_key : Z)
  : Outcome Database :=
  _ ← guard (IsSQLValid env DeleteDictionaryByPrimaryKey_kQuery) kInvalidSql;
  _ ← guard (Run env DeleteDictionaryByPrimaryKey_kQuery) kFailedToExecuteSql;
  mret (delete_where (fun r => id r =? primary_key) d).

(** [for (int64_t primary_key : primary_keys) DeleteDictionaryByPrimaryKey(..)],
    leaving at the first error. *)
Fixpoint DeleteDictionariesByPrimaryKeys (env : Env) (d : Database)
    (primary_keys : list Z) : Outcome Database :=
  match primary_keys with
  | [] => mret d
  | primary_key :: rest =>
      d' ← DeleteDictionaryByPrimaryKey env d primary_key;
      DeleteDictionariesByPrimaryKeys env d' rest
  end.

(** *** Per-site eviction *)

(** The [while (statement.Step())] loop of
    [SelectCandidatesForPerSiteEviction]: [rows] are the rows the cursor
    has not returned yet; the accumulators are the two out-vectors and the
    checked sum, which [*total_size_of_candidates_out] copies after every
    addition. *)
Fixpoint PerSiteCandidatesLoop (rows : list Row)
    (to_be_removed_size to_be_removed_count : Z)
    (primary_keys_out : list Z) (tokens_out : list UnguessableToken)
    (total_size_of_candidates_out : Z)
  : Outcome (list Z * list UnguessableToken * Z) :=
  match rows with
  | [] => mret (primary_keys_out, tokens_out, total_size_of_candidates_out)
  | r :: rest =>
      match ToUnguessableToken (token_high r) (token_low r) with
      | None =>
          PerSiteCandidatesLoop rest to_be_removed_size to_be_removed_count
            primary_keys_out tokens_out total_size_of_candidates_out
      | Some disk_cache_key_token =>
          match CheckedNumeric_int64
                  (total_size_of_candidates_out + static_cast_uint64 (size r)) with
          | None => Unexpected kInvalidTotalDictSize
          | Some total =>
              let primary_keys := primary_keys_out ++ [id r] in
              let tokens := tokens_out ++ [disk_cache_key_token] in
              if (to_be_removed_size <=? total)
                 && (to_be_removed_count <=? Z.of_nat (length tokens))
              then mret (primary_keys, tokens, total)
              else PerSiteCandidatesLoop rest to_be_removed_size to_be_removed_count
                     primary_keys tokens total
          end
      end
  end.

Definition SelectCandidatesForPerSiteEviction (env : Env) (d : Database)
    (site : string) (max_size_per_site max_count_per_site : Z)
  : Outcome (list Z * list UnguessableToken * Z) :=
  size_per_site ← GetDictionarySizePerSite env d site;
  count_per_site ← GetDictionaryCountPerSite env d site;
  if ((max_size_per_site =? 0) || (size_per_site <=? max_size_per_site))
     && (count_per_site <=? max_count_per_site)
  then mret ([], [], 0)
  else
    let to_be_removed_count :=
      if max_count_per_site <? count_per_site
      then count_per_site - max_count_per_site else 0 in
    let to_be_removed_size :=
      if negb (max_size_per_site =? 0) && (max_size_per_site <? size_per_site)
      then static_cast_int64 (size_per_site - max_size_per_site) else 0 in
    _ ← guard (IsSQLValid env SelectCandidatesForPerSiteEviction_kQuery) kInvalidSql;
    PerSiteCandidatesLoop
      (order_by last_used_time (List.filter (has_site site) (dictionaries d)))
      to_be_removed_size to_be_removed_count [] [] 0.

(** [MaybeEvictDictionariesForPerSiteLimit]: the evicted tokens, the value
    left in [*total_dictionary_size_out] and the database. *)
Definition MaybeEvictDictionariesForPerSiteLimit (env : Env) (d : Database)
    (site : string) (max_size_per_site max_count_per_site : Z)
    (total_dictionary_size : Z)
  : Outcome (list UnguessableToken * Z * Database) :=
  '(primary_keys, evicted_disk_cache_key_tokens, total_candidate_dictionary_size) ←
    SelectCandidatesForPerSiteEviction env d site max_size_per_site max_count_per_site;
  if negb (length primary_keys =? length evicted_disk_cache_key_tokens)%nat
  then Crash CHECK_EQ_primary_keys_tokens
  else
    match primary_keys with
    | [] => mret (evicted_disk_cache_key_tokens, total_dictionary_size, d)
    | _ =>
        d1 ← DeleteDictionariesByPrimaryKeys env d primary_keys;
        '(total, d2) ← UpdateTotalDictionarySizeInMetaTable env d1
                          (- total_candidate_dictionary_size);
        mret (evicted_disk_cache_key_tokens, total, d2)
    end.

(** *** Global eviction *)

(** The loop of [SelectEvictionCandidates]; [checked_total_dictionary_size]
    is the [CheckedNumeric<uint64_t>] that starts at the stored total. *)
Fixpoint EvictionCandidatesLoop (rows : list Row)
    (cache_max_size size_low_watermark to_be_removed_count : Z)
    (primary_keys_out : list Z) (tokens_out : list UnguessableToken)
    (total_size_after_eviction_out : Z) (checked_total_dictionary_size : Z)
  : Outcome (list Z * list UnguessableToken * Z) :=
  match rows with
  | [] => mret (primary_keys_out, tokens_out, total_size_after_eviction_out)
  | r :: rest =>
      match ToUnguessableToken (token_high r) (token_low r) with
      | None =>
          EvictionCandidatesLoop rest cache_max_size size_low_watermark
            to_be_removed_count primary_keys_out tokens_out
            total_size_after_eviction_out checked_total_dictionary_size
      | Some disk_cache_key_token =>
          match CheckedNumeric_uint64
                  (checked_total_dictionary_size - static_cast_uint64 (size r)) with
          | None => Unexpected kInvalidTotalDictSize
          | Some total =>
              if negb (IsValueInRange_int64 total)
              then Crash CHECK_checked_cast_int64
              else
                let primary_keys := primary_keys_out ++ [id r] in
                let tokens := tokens_out ++ [disk_cache_key_token] in
                if ((cache_max_size =? 0) || (total <=? size_low_watermark))
                   && (to_be_removed_count <=? Z.of_nat (length tokens))
                then mret (primary_keys, tokens, total)
                else EvictionCandidatesLoop rest cache_max_size size_low_watermark
                       to_be_removed_count primary_keys tokens total total
          end
      end
  end.

Definition SelectEvictionCandidates (env : Env) (d : Database)
    (cache_max_size size_low_watermark cache_max_count count_low_watermark : Z)
  : Outcome (list Z * list UnguessableToken * Z) :=
  total_dictionary_size ← GetTotalDictionarySizeImpl env d;
  total_dictionary_count ← GetTotalDictionaryCount env d;
  if ((cache_max_size =? 0) || (total_dictionary_size <=? cache_max_size))
     && (total_dictionary_count <=? cache_max_count)
  then mret ([], [], 0)
  else
    let to_be_removed_count :=
      if count_low_watermark <? total_dictionary_count
      then total_dictionary_count - count_low_watermark else 0 in
    _ ← guard (IsSQLValid env SelectEvictionCandidates_kQuery) kInvalidSql;
    EvictionCandidatesLoop (order_by last_used_time (dictionaries d))
      cache_max_size size_low_watermark to_be_removed_count [] [] 0
      total_dictionary_size.

(** *** Committing the pending last-used-time updates *)

Definition set_last_used_time (t : Z) (r : Row) : Row :=
  {| id := id r; frame_origin := frame_origin r; top_frame_site := top_frame_site r;
     host := host r; match_ := match_ r; url := url r; res_time := res_time r;
     exp_time := exp_time r; last_used_time := t; size := size r;
     sha256 := sha256 r; token_high := token_high r; token_low := token_low r |}.

(** [UPDATE dictionaries SET last_used_time=? WHERE id=?] *)
Definition CommitDictionaryLastUsedTimeUpdate (env : Env) (d : Database)
    (primary_key_in_database last_used_time_ : Z) : Outcome Database :=
  _ ← guard (InitializeDatabase env) kFailedToInitializeDatabase;
  _ ← guard (IsSQLValid env CommitDictionaryLastUsedTimeUpdate_kQuery) kInvalidSql;
  _ ← guard (Run env CommitDictionaryLastUsedTimeUpdate_kQuery) kFailedToExecuteSql;
  mret (set_dictionaries
          (map (fun r => if id r =? primary_key_in_database
                         then set_last_used_time last_used_time_ r else r)
               (dictionaries d)) d).

Fixpoint CommitDictionaryLastUsedTimeUpdates (env : Env) (d : Database)
    (updates : list (Z * Z)) : Outcome Database :=
  match updates with
  | [] => mret d
  | (primary_key, time) :: rest =>
      d' ← CommitDictionaryLastUsedTimeUpdate env d primary_key time;
      CommitDictionaryLastUsedTimeUpdates env d' rest
  end.

(** [DoCommit]: the pending map is swapped out first, so it is empty
    afterwards whatever happens; the updates reach the database only when
    the transaction of [DoCommit] commits. The database is open ([db()] is
    not null). *)
Definition DoCommit (env : Env) (b : Backend) : Backend :=
  let pending_last_used_time_updates := pending_last_used_time_updates_ b in
  let b0 := {| db := db b; pending_last_used_time_updates_ := ∅; num_pending_ := 0 |} in
  if decide (pending_last_used_time_updates = ∅) then b0
  else if negb (Begin env) then b0
  else
    match CommitDictionaryLastUsedTimeUpdates env (db b)
            (map_to_list pending_last_used_time_updates) with
    | Ok d' => if Commit env then set_db d' b0 else b0
    | _ => b0
    end.

(** [UpdateDictionaryLastUsedTime], without the scheduling of [Commit]. *)
Definition UpdateDictionaryLastUsedTime (b : Backend)
    (primary_key_in_database last_used_time_ : Z) : Backend :=
  {| db := db b;
     pending_last_used_time_updates_ :=
       <[primary_key_in_database := last_used_time_]> (pending_last_used_time_updates_ b);
     num_pending_ := num_pending_ b + 1 |}.

(** *** RegisterDictionary *)

(** AUTOINCREMENT: one more than every rowid the table has used. *)
Definition next_rowid (d : Database) : Z :=
  1 + foldr (fun r acc => Z.max (id r) acc) (sqlite_sequence d) (dictionaries d).

Definition new_row (rowid : Z) (isolation_key : SharedDictionaryIsolationKey)
    (dictionary_info : SharedDictionaryInfo) : Row :=
  {| id := rowid;
     frame_origin := key_frame_origin isolation_key;
     top_frame_site := key_top_frame_site isolation_key;
     host := scheme_host_port (info_url dictionary_info);
     match_ := info_match dictionary_info;
     url := spec (info_url dictionary_info);
     res_time := info_response_time dictionary_info;
     exp_time := GetExpirationTime dictionary_info;
     last_used_time := info_last_used_time dictionary_info;
     size := static_cast_int64 (info_size dictionary_info);
     sha256 := info_hash dictionary_info;
     token_high := static_cast_int64 (fst (info_disk_cache_key_token dictionary_info));
     token_low := static_cast_int64 (snd (info_disk_cache_key_token dictionary_info)) |}.

(** [INSERT OR REPLACE INTO dictionaries(...)]: the row that holds the same
    (frame_origin, top_frame_site, host, match) is deleted by the unique
    index, and the new row gets a fresh rowid. *)
Definition InsertOrReplace (d : Database) (isolation_key : SharedDictionaryIsolationKey)
    (dictionary_info : SharedDictionaryInfo) : Database :=
  let rowid := next_rowid d in
  {| dictionaries :=
       List.filter (fun r => negb (has_key (key_frame_origin isolation_key)
                                      (key_top_frame_site isolation_key)
                                      (scheme_host_port (info_url dictionary_info))
                                      (info_match dictionary_info) r))
                   (dictionaries d)
       ++ [new_row rowid isolation_key dictionary_info];
     sqlite_sequence := rowid;
     total_dict_size := total_dict_size d |}.

(** Lines 468-476: [size_delta] starts as the new size and loses the size
    of the dictionary that the insertion replaces. Both are int64. *)
Definition size_delta (env : Env) (d : Database)
    (isolation_key : SharedDictionaryIsolationKey)
    (dictionary_info : SharedDictionaryInfo) : Z :=
  match GetExistingDictionarySizeAndDiskCacheKeyToken env d isolation_key
          (scheme_host_port (info_url dictionary_info)) (info_match dictionary_info) with
  | Some (size_of_removed_dict, _) =>
      static_cast_int64 (static_cast_int64 (info_size dictionary_info) - size_of_removed_dict)
  | None => static_cast_int64 (info_size dictionary_info)
  end.

Definition replaced_disk_cache_key_token (env : Env) (d : Database)
    (isolation_key : SharedDictionaryIsolationKey)
    (dictionary_info : SharedDictionaryInfo) : option UnguessableToken :=
  match GetExistingDictionarySizeAndDiskCacheKeyToken env d isolation_key
          (scheme_host_port (info_url dictionary_info)) (info_match dictionary_info) with
  | Some (_, token) => token
  | None => None
  end.

(** What [RegisterDictionaryImpl] does between [transaction.Begin()] and
    [transaction.Commit()]. *)
Definition RegisterDictionaryTransaction (env : Env) (d : Database)
    (isolation_key : SharedDictionaryIsolationKey)
    (dictionary_info : SharedDictionaryInfo)
    (max_size_per_site max_count_per_site : Z)
  : Outcome (RegisterDictionaryResult * Database) :=
  let delta := size_delta env d isolation_key dictionary_info in
  let replaced := replaced_disk_cache_key_token env d isolation_key dictionary_info in
  _ ← guard (IsSQLValid env RegisterDictionaryImpl_kQuery) kInvalidSql;
  _ ← guard (Run env RegisterDictionaryImpl_kQuery) kFailedToExecuteSql;
  let d1 := InsertOrReplace d isolation_key dictionary_info in
  let id_ := sqlite_sequence d1 in
  '(total_dictionary_size, d2) ← UpdateTotalDictionarySizeInMetaTable env d1 delta;
  '(evicted_disk_cache_key_tokens, total_dictionary_size', d3) ←
    MaybeEvictDictionariesForPerSiteLimit env d2 (key_top_frame_site isolation_key)
      max_size_per_site max_count_per_site total_dictionary_size;
  total_dictionary_count ← GetTotalDictionaryCount env d3;
  mret ({| primary_key_in_database_ := id_;
           replaced_disk_cache_key_token_ := replaced;
           evicted_disk_cache_key_tokens_ := list_to_set evicted_disk_cache_key_tokens;
           total_dictionary_size_ := total_dictionary_size';
           total_dictionary_count_ := total_dictionary_count |}, d3).

(** [RegisterDictionaryImpl]: the result and the backend the call leaves.
    An error or a crash inside the transaction rolls it back. *)
Definition RegisterDictionaryImpl (env : Env) (b : Backend)
    (isolation_key : SharedDictionaryIsolationKey)
    (dictionary_info : SharedDictionaryInfo)
    (max_size_per_site max_count_per_site : Z)
  : Outcome RegisterDictionaryResult * Backend :=
  if max_count_per_site =? 0 then (Crash CHECK_NE_0_max_count_per_site, b)
  else if negb (max_size_per_site =? 0) && (max_size_per_site <? info_size dictionary_info)
  then (Unexpected kTooBigDictionary, b)
  else if negb (InitializeDatabase env) then (Unexpected kFailedToInitializeDatabase, b)
  else
    let b1 := DoCommit env b in
    if negb (Begin env) then (Unexpected kFailedToBeginTransaction, b1)
    else
      match RegisterDictionaryTransaction env (db b1) isolation_key dictionary_info
              max_size_per_site max_count_per_site with
      | Ok (result, d') =>
          if Commit env then (Ok result, set_db d' b1)
          else (Unexpected kFailedToCommitTransaction, b1)
      | Unexpected e => (Unexpected e, b1)
      | Crash c => (Crash c, b1)
      end.

(** *** Clearing and expiring *)

(** [ClearAllDictionariesImpl] *)
Definition ClearAllDictionariesImpl (env : Env) (b : Backend) : Outcome unit * Backend :=
  if negb (InitializeDatabase env) then (Unexpected kFailedToInitializeDatabase, b)
  else if negb (Begin env) then (Unexpected kFailedToBeginTransaction, b)
  else if negb (IsSQLValid env ClearAllDictionariesImpl_kQuery)
  then (Unexpected kInvalidSql, b)
  else if negb (Run env ClearAllDictionariesImpl_kQuery)
  then (Unexpected kFailedToExecuteSql, b)
  else if negb (SetValue env) then (Unexpected kFailedToSetTotalDictSize, b)
  else if negb (Commit env) then (Unexpected kFailedToCommitTransaction, b)
  else (Ok tt, set_db (set_total_dict_size 0 (delete_where (fun _ => true) (db b))) b).

(** A [CheckedNumeric<int64_t>] that adds [size_t] sizes without looking at
    its validity in between. *)
Definition checked_sum_int64 (rows : list Row) : option Z :=
  foldl (fun acc r => v ← acc; CheckedNumeric_int64 (v + static_cast_uint64 (size r)))
        (Some 0) rows.

Definition valid_token (r : Row) : bool :=
  match ToUnguessableToken (token_high r) (token_low r) with
  | Some _ => true
  | None => false
  end.

Definition tokens_of (rows : list Row) : list UnguessableToken :=
  omap (fun r => ToUnguessableToken (token_high r) (token_low r)) rows.

(** [WHERE res_time>=? AND res_time<?], a null [end_time] standing for
    [base::Time::Max()]. *)
Definition in_time_range (start_time end_time : Z) (r : Row) : bool :=
  (start_time <=? res_time r)
  && (res_time r <? (if end_time =? 0 then kInt64Max else end_time)).

(** [SelectMatchingDictionaries] and
    [SelectMatchingDictionariesWithUrlMatcher]: the rows the loop keeps (it
    skips the rows the matcher refuses and those whose token does not
    deserialize), as keys, tokens and checked total. *)
Definition matched_rows (d : Database) (start_time end_time : Z)
    (url_matcher : option (string -> bool)) : list Row :=
  List.filter
    (fun r =>
       match url_matcher with
       | Some matches =>
           negb (negb (matches (frame_origin r)) && negb (matches (top_frame_site r))
                 && negb (matches (host r)))
       | None => true
       end && valid_token r)
    (order_by id (List.filter (in_time_range start_time end_time) (dictionaries d))).

Definition SelectMatchingDictionaries (env : Env) (d : Database)
    (start_time end_time : Z) (url_matcher : option (string -> bool))
  : Outcome (list Z * list UnguessableToken * Z) :=
  _ ← guard (IsSQLValid env match url_matcher with
                            | Some _ => SelectMatchingDictionariesWithUrlMatcher_kQuery
                            | None => SelectMatchingDictionaries_kQuery
                            end) kInvalidSql;
  let rows := matched_rows d start_time end_time url_matcher in
  match checked_sum_int64 rows with
  | None => Crash CHECK_ValueOrDie
  | Some total_size => mret (map id rows, tokens_of rows, total_size)
  end.

Definition ClearDictionariesTransaction (env : Env) (d : Database)
    (start_time end_time : Z) (url_matcher : option (string -> bool))
  : Outcome (list UnguessableToken * Database) :=
  '(primary_keys, tokens, total_size) ←
    SelectMatchingDictionaries env d start_time end_time url_matcher;
  d1 ← DeleteDictionariesByPrimaryKeys env d primary_keys;
  if total_size =? 0 then mret (tokens, d1)
  else
    '(_, d2) ← UpdateTotalDictionarySizeInMetaTable env d1 (- total_size);
    mret (tokens, d2).

(** [ClearDictionariesImpl]; the value of [transaction.Commit()] is not
    looked at. *)
Definition ClearDictionariesImpl (env : Env) (b : Backend)
    (start_time end_time : Z) (url_matcher : option (string -> bool))
  : Outcome (gset UnguessableToken) * Backend :=
  if negb (InitializeDatabase env) then (Unexpected kFailedToInitializeDatabase, b)
  else
    let b1 := DoCommit env b in
    if negb (Begin env) then (Unexpected kFailedToBeginTransaction, b1)
    else
      match ClearDictionariesTransaction env (db b1) start_time end_time url_matcher with
      | Ok (tokens, d') =>
          (Ok (list_to_set tokens), if Commit env then set_db d' b1 else b1)
      | Unexpected e => (Unexpected e, b1)
      | Crash c => (Crash c, b1)
      end.

(** [DELETE FROM dictionaries WHERE exp_time<=? RETURNING size, ...]: every
    returned size is added before the token is looked at. *)
Definition DeleteExpiredDictionariesTransaction (env : Env) (d : Database) (now : Z)
  : Outcome (list UnguessableToken * Database) :=
  _ ← guard (IsSQLValid env DeleteExpiredDictionariesImpl_kQuery) kInvalidSql;
  let expired := List.filter (fun r => exp_time r <=? now) (dictionaries d) in
  let d1 := delete_where (fun r => exp_time r <=? now) d in
  match checked_sum_int64 expired with
  | None => Crash CHECK_ValueOrDie
  | Some total_size =>
      if total_size =? 0 then mret (tokens_of expired, d1)
      else
        '(_, d2) ← UpdateTotalDictionarySizeInMetaTable env d1 (- total_size);
        mret (tokens_of expired, d2)
  end.

Definition DeleteExpiredDictionariesImpl (env : Env) (b : Backend) (now : Z)
  : Outcome (gset UnguessableToken) * Backend :=
  if negb (InitializeDatabase env) then (Unexpected kFailedToInitializeDatabase, b)
  else if negb (Begin env) then (Unexpected kFailedToBeginTransaction, b)
  else
    match DeleteExpiredDictionariesTransaction env (db b) now with
    | Ok (tokens, d') =>
        (Ok (list_to_set tokens), if Commit env then set_db d' b else b)
    | Unexpected e => (Unexpected e, b)
    | Crash c => (Crash c, b)
    end.

(** *** ProcessEviction *)

Definition ProcessEvictionTransaction (env : Env) (d : Database)
    (cache_max_size size_low_watermark cache_max_count count_low_watermark : Z)
  : Outcome (list UnguessableToken * option Database) :=
  '(primary_keys, tokens, total_size_after_eviction) ←
    SelectEvictionCandidates env d cache_max_size size_low_watermark
      cache_max_count count_low_watermark;
  if negb (length primary_keys =? length tokens)%nat
  then Crash CHECK_EQ_primary_keys_tokens
  else
    match primary_keys with
    | [] => mret ([], None)
    | _ =>
        d1 ← DeleteDictionariesByPrimaryKeys env d primary_keys;
        _ ← guard (SetValue env) kFailedToSetTotalDictSize;
        mret (tokens, Some (set_total_dict_size total_size_after_eviction d1))
    end.

(** [ProcessEvictionImpl]: with no victim the function returns before
    [Commit], which rolls the (unchanged) transaction back. *)
Definition ProcessEvictionImpl (env : Env) (b : Backend)
    (cache_max_size size_low_watermark cache_max_count count_low_watermark : Z)
  : Outcome (gset UnguessableToken) * Backend :=
  if negb (InitializeDatabase env) then (Unexpected kFailedToInitializeDatabase, b)
  else
    let b1 := DoCommit env b in
    if negb (Begin env) then (Unexpected kFailedToBeginTransaction, b1)
    else
      match ProcessEvictionTransaction env (db b1) cache_max_size size_low_watermark
              cache_max_count count_low_watermark with
      | Ok (tokens, Some d') =>
          (Ok (list_to_set tokens), if Commit env then set_db d' b1 else b1)
      | Ok (tokens, None) => (Ok (list_to_set tokens), b1)
      | Unexpected e => (Unexpected e, b1)
      | Crash c => (Crash c, b1)
      end.

(** *** Deleting by disk cache key token *)

(** [DeleteDictionaryByDiskCacheToken]: the deleted size (a
    [CheckedNumeric<uint64_t>] over the returned sizes) and the database. *)
Definition DeleteDictionaryByDiskCacheToken (env : Env) (d : Database)
    (disk_cache_key_token : UnguessableToken) : Outcome (Z * Database) :=
  _ ← guard (InitializeDatabase env) kFailedToInitializeDatabase;
  _ ← guard (IsSQLValid env DeleteDictionaryByDiskCacheToken_kQuery) kInvalidSql;
  let deleted := List.filter (has_token disk_cache_key_token) (dictionaries d) in
  match foldl (fun acc r => v ← acc; CheckedNumeric_uint64 (v + static_cast_uint64 (size r)))
              (Some 0) deleted with
  | None => Crash CHECK_ValueOrDie
  | Some checked_size => mret (checked_size, delete_where (has_token disk_cache_key_token) d)
  end.

(** The loop over the tokens, with its [CheckedNumeric<int64_t>]. *)
Fixpoint DeleteDictionariesByDiskCacheKeyTokensLoop (env : Env) (d : Database)
    (disk_cache_key_tokens : list UnguessableToken)
    (checked_total_dictionary_size : option Z) : Outcome (option Z * Database) :=
  match disk_cache_key_tokens with
  | [] => mret (checked_total_dictionary_size, d)
  | token :: rest =>
      '(result, d') ← DeleteDictionaryByDiskCacheToken env d token;
      DeleteDictionariesByDiskCacheKeyTokensLoop env d' rest
        (v ← checked_total_dictionary_size; CheckedNumeric_int64 (v + result))
  end.

Definition DeleteDictionariesByDiskCacheKeyTokensTransaction (env : Env) (d : Database)
    (disk_cache_key_tokens : gset UnguessableToken) : Outcome Database :=
  '(checked, d1) ← DeleteDictionariesByDiskCacheKeyTokensLoop env d
                     (elements disk_cache_key_tokens) (Some 0);
  match checked with
  | None => Crash CHECK_ValueOrDie
  | Some deleted_size =>
      if deleted_size =? 0 then mret d1
      else
        '(_, d2) ← UpdateTotalDictionarySizeInMetaTable env d1 (- deleted_size);
        mret d2
  end.

Definition DeleteDictionariesByDiskCacheKeyTokensImpl (env : Env) (b : Backend)
    (disk_cache_key_tokens : gset UnguessableToken) : Outcome unit * Backend :=
  if negb (InitializeDatabase env) then (Unexpected kFailedToInitializeDatabase, b)
  else if negb (Begin env) then (Unexpected kFailedToBeginTransaction, b)
  else
    match DeleteDictionariesByDiskCacheKeyTokensTransaction env (db b)
            disk_cache_key_tokens with
    | Ok d' =>
        if Commit env then (Ok tt, set_db d' b)
        else (Unexpected kFailedToCommitTransaction, b)
    | Unexpected e => (Unexpected e, b)
    | Crash c => (Crash c, b)
    end.

(** *** Reading the dictionaries *)







#[export] Instance SharedDictionaryIsolationKey_eq_dec :
  EqDecision SharedDictionaryIsolationKey.
Proof. solve_decision. Defined.

#[export] Instance SharedDictionaryIsolationKey_countable :
  Countable SharedDictionaryIsolationKey.
Proof.
  refine (inj_countable'
            (fun k => (key_frame_origin k, key_top_frame_site k))
            (fun p => {| key_frame_origin := fst p; key_top_frame_site := snd p |}) _).
  by intros [].
Defined.




(** *** Scheduling the commit *)

(** The tasks that [UpdateDictionaryLastUsedTime] posts to the background
    task runner: [Backend::Commit] after a delay, or at once. *)
Inductive PostedTask : Type :=
| PostDelayedTask_Commit (delay_ms : Z)
| PostBackgroundTask_Commit.

Definition kCommitIntervalMs : Z := 30 * 1000.
Definition kCommitAfterBatchSize : Z := 100.

(** [UpdateDictionaryLastUsedTime] with its scheduling: the backend, and
    the task it posts, if any. *)
Definition UpdateDictionaryLastUsedTimeAndSchedule (b : Backend)
    (primary_key_in_database last_used_time_ : Z) : Backend * list PostedTask :=
  let b := UpdateDictionaryLastUsedTime b primary_key_in_database last_used_time_ in
  let num_pending := num_pending_ b in
  (b,
   if num_pending =? 1 then [PostDelayedTask_Commit kCommitIntervalMs]
   else if kCommitAfterBatchSize <=? num_pending then [PostBackgroundTask_Commit]
   else []).

(** A run of updates with no commit in between: the backend, and the tasks
    posted, in order. *)
Definition UpdateDictionaryLastUsedTimes (b : Backend) (updates : list (Z * Z))
  : Backend * list PostedTask :=
  foldl (fun acc update =>
           let r := UpdateDictionaryLastUsedTimeAndSchedule acc.1 update.1 update.2 in
           (r.1, acc.2 ++ r.2))
        (b, []) updates.

(** *** Sequences of operations *)

(** The calls a client makes on the store, with their arguments. *)
Inductive Operation : Type :=
| OpRegisterDictionary (isolation_key : SharedDictionaryIsolationKey)
    (dictionary_info : SharedDictionaryInfo) (max_size_per_site max_count_per_site : Z)
| OpClearAllDictionaries
| OpClearDictionaries (start_time end_time : Z) (url_matcher : option (string -> bool))
| OpDeleteExpiredDictionaries (now : Z)
| OpProcessEviction (cache_max_size size_low_watermark cache_max_count count_low_watermark : Z)
| OpDeleteDictionariesByDiskCacheKeyTokens (disk_cache_key_tokens : gset UnguessableToken)
| OpUpdateDictionaryLastUsedTime (primary_key_in_database last_used_time_ : Z)
| OpCommit.

(** The backend after one call, under the collaborators' answers [env]. *)
Definition step (b : Backend) (call : Env * Operation) : Backend :=
  let env := fst call in
  match snd call with
  | OpRegisterDictionary isolation_key dictionary_info max_size max_count =>
      snd (RegisterDictionaryImpl env b isolation_key dictionary_info max_size max_count)
  | OpClearAllDictionaries => snd (ClearAllDictionariesImpl env b)
  | OpClearDictionaries start_time end_time url_matcher =>
      snd (ClearDictionariesImpl env b start_time end_time url_matcher)
  | OpDeleteExpiredDictionaries now => snd (DeleteExpiredDictionariesImpl env b now)
  | OpProcessEviction cache_max_size size_low_watermark cache_max_count count_low_watermark =>
      snd (ProcessEvictionImpl env b cache_max_size size_low_watermark
             cache_max_count count_low_watermark)
  | OpDeleteDictionariesByDiskCacheKeyTokens tokens =>
      snd (DeleteDictionariesByDiskCacheKeyTokensImpl env b tokens)
  | OpUpdateDictionaryLastUsedTime primary_key last_used_time_ =>
      UpdateDictionaryLastUsedTime b primary_key last_used_time_
  | OpCommit => DoCommit env b
  end.

Definition run (b : Backend) (calls : list (Env * Operation)) : Backend :=
  foldl step b calls.

(** A freshly created store. *)
Definition initial : Backend :=
  {| db := CreateV1Schema; pending_last_used_time_updates_ := ∅; num_pending_ := 0 |}.

(** [GetTotalDictionarySizeImpl] as a plain reading of the meta value: the
    persisted RunningTotal. *)
Definition RunningTotal (b : Backend) : Z := static_cast_uint64 (total_dict_size (db b)).

End Store.

(* ===================================================================== *)
(** ** The shared dictionary store: notions used to state its properties *)
(* ===================================================================== *)

Module StoreSpec.
Import Numerics Store.

(** *** Notions used to state the properties *)

(** The identity of a dictionary: the columns of the unique index. *)
Definition row_key (r : Row) : string * string * string * string :=
  (frame_origin r, top_frame_site r, host r, match_ r).

(** A table as the store keeps it: distinct rowids, one row per identity,
    sizes that are byte counts an int64 holds. *)
Record well_formed (rows : list Row) : Prop := {
  wf_ids : NoDup (map id rows);
  wf_keys : NoDup (map row_key rows);
  wf_sizes : Forall (fun r => 0 <= size r <= kInt64Max) rows
}.

Definition tokens_valid (rows : list Row) : Prop :=
  Forall (fun r => valid_token r = true) rows.

(** The persisted counter agrees with the table. *)
Definition consistent (d : Database) : Prop :=
  static_cast_uint64 (total_dict_size d) = SUM_size (dictionaries d).

(** The shortest prefix of [l] that has at least [lo] elements and
    satisfies [P], if there is one. *)
Fixpoint shortest_prefix (P : list Row -> bool) (lo : nat) (l : list Row)
  : option (list Row) :=
  if (lo =? 0)%nat && P [] then Some []
  else match l with
       | [] => None
       | r :: l' => cons r <$> shortest_prefix (fun v => P (r :: v)) (pred lo) l'
       end.

(** The trigger of the global eviction: both budgets are within limits. *)
Definition within_limits (cache_max_size cache_max_count total count : Z) : bool :=
  ((cache_max_size =? 0) || (total <=? cache_max_size)) && (count <=? cache_max_count).

(** The two conditions that end the global eviction, for the records
    [removed] taken out of a store of [total] bytes and [count] records. *)
Definition eviction_done (cache_max_size size_low_watermark count_low_watermark
    total count : Z) (removed : list Row) : bool :=
  ((cache_max_size =? 0) || (total - SUM_size removed <=? size_low_watermark))
  && (count - count_low_watermark <=? Z.of_nat (length removed)).



(** A row after the pending last-used-time updates have reached it. *)
Definition apply_pending (pending : gmap Z Z) (r : Row) : Row :=
  match pending !! id r with
  | Some t => set_last_used_time t r
  | None => r
  end.

(** Every collaborator of [DoCommit] succeeds. *)
Definition commit_succeeds (env : Env) : bool :=
  InitializeDatabase env && IsSQLValid env CommitDictionaryLastUsedTimeUpdate_kQuery
  && Run env CommitDictionaryLastUsedTimeUpdate_kQuery && Begin env && Commit env.


(** The look-up of [GetExistingDictionarySizeAndDiskCacheKeyToken] neither
    fails to compile nor to step, so that its answer says whether the table
    holds a dictionary with the same identity. *)
Definition lookup_succeeds (env : Env) : bool :=
  IsSQLValid env GetExistingDictionarySizeAndDiskCacheKeyToken_kQuery
  && Step env GetExistingDictionarySizeAndDiskCacheKeyToken_kQuery.

Definition not_selected (primary_keys : list Z) (r : Row) : bool :=
  negb (existsb (Z.eqb (id r)) primary_keys).

Definition SUM_usize (l : list Row) : Z :=
  foldr (fun r acc => static_cast_uint64 (size r) + acc) 0 l.

Definition valid_info (dictionary_info : SharedDictionaryInfo) : Prop :=
  0 <= info_size dictionary_info <= kInt64Max.

Definition retimes (f : Row -> Row) : Prop :=
  forall r, f r = set_last_used_time (last_used_time (f r)) r.

Definition store_invariant (d : Database) : Prop :=
  well_formed (dictionaries d) /\ consistent d.

(** What the invariant asks of a call: a registration registers a byte
    count that an int64 holds, and its look-up of the dictionary to replace
    succeeds. *)
Definition valid_call (call : Env * Operation) : Prop :=
  match snd call with
  | OpRegisterDictionary _ dictionary_info _ _ =>
      valid_info dictionary_info /\ lookup_succeeds (fst call) = true
  | _ => True
  end.

Definition is_Crash {A : Type} (o : Outcome A) : Prop :=
  match o with Crash _ => True | _ => False end.

(** The token of a registration deserializes: its halves are uint64 and
    not both zero. *)
Definition valid_info_token (dictionary_info : SharedDictionaryInfo) : Prop :=
  let t := info_disk_cache_key_token dictionary_info in
  0 <= fst t <= kUint64Max /\ 0 <= snd t <= kUint64Max /\ t <> (0, 0).


Definition same_identity (isolation_key : SharedDictionaryIsolationKey)
    (dictionary_info : SharedDictionaryInfo) : Row -> bool :=
  has_key (key_frame_origin isolation_key) (key_top_frame_site isolation_key)
    (scheme_host_port (info_url dictionary_info)) (info_match dictionary_info).

(** *** Sample stores *)

(** Collaborators that never fail. *)
Definition env_ok : Env :=
  {| InitializeDatabase := true; IsSQLValid := fun _ => true; Run := fun _ => true;
     Step := fun _ => true; GetValue := true; SetValue := true; Begin := true;
     Commit := true |}.


Definition sample_key : SharedDictionaryIsolationKey :=
  {| key_frame_origin := "https://origin.test";
     key_top_frame_site := "https://site.test" |}.

(** A dictionary of the host https://host.test with the given match
    pattern, size, last-used time and token. *)
Definition sample_info (match__ : string) (size_ last_used : Z) (token : Z)
  : SharedDictionaryInfo :=
  {| info_url := {| spec := "https://host.test/dict";
                    scheme_host_port := "https://host.test" |};
     info_response_time := 10;
     info_expiration := 1000;
     info_match := match__;
     info_last_used_time := last_used;
     info_size := size_;
     info_hash := "sha256";
     info_disk_cache_key_token := (token, token) |}.

(** Two dictionaries of one site, of 100 and 50 bytes, the first one used
    least recently. *)
Definition sample_store : Backend :=
  run initial
    [(env_ok, OpRegisterDictionary sample_key (sample_info "/a*" 100 1 7) 0 10);
     (env_ok, OpRegisterDictionary sample_key (sample_info "/b*" 50 2 8) 0 10)].



(** A dictionary of 60 bytes for the pattern /c*, with a hash of 32
    bytes. *)
Definition sample_dictionary : SharedDictionaryInfo :=
  {| info_url := {| spec := "https://host.test/dict";
                    scheme_host_port := "https://host.test" |};
     info_response_time := 10;
     info_expiration := 1000;
     info_match := "/c*";
     info_last_used_time := 3;
     info_size := 60;
     info_hash := "0123456789abcdef0123456789abcdef";
     info_disk_cache_key_token := (9, 9) |}.

End StoreSpec.

(* ===================================================================== *)
(** ** HttpCache::Writers *)
(* ===================================================================== *)

Module Writers.

(** Modelled from the spec: the net error codes of net/base/net_errors.h,
    which is not among the sources. For the spec a read answers a byte
    count, a pending indicator or an error code below zero; the file needs
    no more of these codes than that they are distinct numbers below
    zero, and [OK] zero. *)
Definition OK : Z := 0.
Definition ERR_IO_PENDING : Z := -1.
Definition ERR_FAILED : Z := -2.
Definition ERR_CACHE_WRITE_FAILURE : Z := -402.

(** [HttpCache::Writers::State] *)
Inductive State : Type :=
| UNSET
| NONE
| NETWORK_READ
| NETWORK_READ_COMPLETE
| CACHE_WRITE_DATA
| CACHE_WRITE_DATA_COMPLETE
| MARK_SINGLE_KEYED_CACHE_ENTRY_UNUSABLE
| MARK_SINGLE_KEYED_CACHE_ENTRY_UNUSABLE_COMPLETE.

#[export] Instance State_eq_dec : EqDecision State.
Proof. solve_decision. Defined.

(** [HttpCache::ParallelWritingPattern]; the file names the first two
    values only. *)
Inductive ParallelWritingPattern : Type :=
| PARALLEL_WRITING_NONE
| PARALLEL_WRITING_JOIN
| PARALLEL_WRITING_NOT_JOIN (reason : nat).

#[export] Instance ParallelWritingPattern_eq_dec : EqDecision ParallelWritingPattern.
Proof. solve_decision. Defined.

(** Objects the session only refers to are their addresses. *)
Abbreviation Transaction := positive.
Abbreviation IOBuffer := positive.
Abbreviation CompletionOnceCallback := positive.

(** What the session reads of [HttpResponseHeaders]. *)
Record HttpResponseHeaders : Type := {
  response_code : Z;
  GetContentLength : Z;
  HasHeaderValue_Accept_Ranges_none : bool;
  HasStrongValidators : bool;
  HasHeader_Content_Encoding : bool
}.

Record HttpResponseInfo : Type := {
  headers : option HttpResponseHeaders;
  single_keyed_cache_entry_unusable : bool
}.

(** [Writers::TransactionInfo]; [partial] tells whether the [PartialData]
    pointer is set. *)
Record TransactionInfo : Type := {
  partial : bool;
  truncated : bool;
  response_info : HttpResponseInfo
}.

(** [Writers::WaitingForRead] *)
Record WaitingForRead : Type := {
  read_buf : IOBuffer;
  read_buf_len : Z;
  write_len : Z;
  callback : CompletionOnceCallback
}.

(** A write of response data to the disk entry: through
    [disk_entry->WriteData(kResponseContentIndex, offset, ..., len)] or
    through [partial->CacheWrite(..., len)]. *)
Inductive ContentWrite : Type :=
| WriteData (offset : Z) (buf_len : Z)
| CacheWrite (buf_len : Z).

(** The calls into [HttpCache]. *)
Inductive CacheNotification : Type :=
| WritersDoomEntryRestartTransactions
| WritersDoneWritingToEntry (success : bool) (should_keep_entry : bool)
    (make_readers : gset Transaction).

(** The members of [HttpCache::Writers], then what the collaborators hold
    or have been told so far: the memory of the IO buffers, the tasks
    posted to run consumer callbacks, the callbacks run directly, the
    transactions told [WriterAboutToBeRemovedFromEntry], the writes of
    response data and of response info (with their [response_truncated]
    flag) to the disk entry, the calls into the cache and the reads asked
    of the network transaction. Lists grow at their end. *)
Record Writers : Type := {
  next_state_ : State;
  all_writers_ : gmap Transaction TransactionInfo;
  waiting_for_read_ : gmap Transaction WaitingForRead;
  active_transaction_ : option Transaction;
  read_buf_ : option IOBuffer;
  io_buf_len_ : Z;
  write_len_ : Z;
  network_read_only_ : bool;
  should_keep_entry_ : bool;
  is_exclusive_ : bool;
  partial_do_not_truncate_ : bool;
  parallel_writing_pattern_ : ParallelWritingPattern;
  network_transaction_ : bool;
  checksum_ : bool;
  callback_ : option CompletionOnceCallback;
  cache_callback_ : option (bool * bool * gset Transaction);
  response_info_truncation_ : HttpResponseInfo;
  buffers : gmap IOBuffer (list Z);
  posted_tasks : list (CompletionOnceCallback * Z);
  run_callbacks : list (CompletionOnceCallback * Z);
  removed_writers : list (Transaction * Z);
  content_writes : list ContentWrite;
  info_writes : list bool;
  cache_notifications : list CacheNotification;
  network_reads : list (IOBuffer * Z)
}.

Definition set_next_state_ (v : State) (w : Writers) : Writers :=
  {| next_state_ := v; all_writers_ := all_writers_ w;
     waiting_for_read_ := waiting_for_read_ w;
     active_transaction_ := active_transaction_ w; read_buf_ := read_buf_ w;
     io_buf_len_ := io_buf_len_ w; write_len_ := write_len_ w;
     network_read_only_ := network_read_only_ w;
     should_keep_entry_ := should_keep_entry_ w; is_exclusive_ := is_exclusive_ w;
     partial_do_not_truncate_ := partial_do_not_truncate_ w;
     parallel_writing_pattern_ := parallel_writing_pattern_ w;
     network_transaction_ := network_transaction_ w; checksum_ := checksum_ w;
     callback_ := callback_ w; cache_callback_ := cache_callback_ w;
     response_info_truncation_ := response_info_truncation_ w; buffers := buffers w;
     posted_tasks := posted_tasks w; run_callbacks := run_callbacks w;
     removed_writers := removed_writers w; content_writes := content_writes w;
     info_writes := info_writes w; cache_notifications := cache_notifications w;
     network_reads := network_reads w |}.

Definition set_all_writers_ (v : gmap Transaction TransactionInfo) (w : Writers) : Writers :=
  {| next_state_ := next_state_ w; all_writers_ := v;
     waiting_for_read_ := waiting_for_read_ w;
     active_transaction_ := active_transaction_ w; read_buf_ := read_buf_ w;
     io_buf_len_ := io_buf_len_ w; write_len_ := write_len_ w;
     network_read_only_ := network_read_only_ w;
     should_keep_entry_ := should_keep_entry_ w; is_exclusive_ := is_exclusive_ w;
     partial_do_not_truncate_ := partial_do_not_truncate_ w;
     parallel_writing_pattern_ := parallel_writing_pattern_ w;
     network_transaction_ := network_transaction_ w; checksum_ := checksum_ w;
     callback_ := callback_ w; cache_callback_ := cache_callback_ w;
     response_info_truncation_ := response_info_truncation_ w; buffers := buffers w;
     posted_tasks := posted_tasks w; run_callbacks := run_callbacks w;
     removed_writers := removed_writers w; content_writes := content_writes w;
     info_writes := info_writes w; cache_notifications := cache_notifications w;
     network_reads := network_reads w |}.

Definition set_waiting_for_read_ (v : gmap Transaction WaitingForRead) (w : Writers) : Writers :=
  {| next_state_ := next_state_ w; all_writers_ := all_writers_ w;
     waiting_for_read_ := v; active_transaction_ := active_transaction_ w;
     read_buf_ := read_buf_ w; io_buf_len_ := io_buf_len_ w;
     write_len_ := write_len_ w; network_read_only_ := network_read_only_ w;
     should_keep_entry_ := should_keep_entry_ w; is_exclusive_ := is_exclusive_ w;
     partial_do_not_truncate_ := partial_do_not_truncate_ w;
     parallel_writing_pattern_ := parallel_writing_pattern_ w;
     network_transaction_ := network_transaction_ w; checksum_ := checksum_ w;
     callback_ := callback_ w; cache_callback_ := cache_callback_ w;
     response_info_truncation_ := response_info_truncation_ w; buffers := buffers w;
     posted_tasks := posted_tasks w; run_callbacks := run_callbacks w;
     removed_writers := removed_writers w; content_writes := content_writes w;
     info_writes := info_writes w; cache_notifications := cache_notifications w;
     network_reads := network_reads w |}.

Definition set_active_transaction_ (v : option Transaction) (w : Writers) : Writers :=
  {| next_state_ := next_state_ w; all_writers_ := all_writers_ w;
     waiting_for_read_ := waiting_for_read_ w; active_transaction_ := v;
     read_buf_ := read_buf_ w; io_buf_len_ := io_buf_len_ w;
     write_len_ := write_len_ w; network_read_only_ := network_read_only_ w;
     should_keep_entry_ := should_keep_entry_ w; is_exclusive_ := is_exclusive_ w;
     partial_do_not_truncate_ := partial_do_not_truncate_ w;
     parallel_writing_pattern_ := parallel_writing_pattern_ w;
     network_transaction_ := network_transaction_ w; checksum_ := checksum_ w;
     callback_ := callback_ w; cache_callback_ := cache_callback_ w;
     response_info_truncation_ := response_info_truncation_ w; buffers := buffers w;
     posted_tasks := posted_tasks w; run_callbacks := run_callbacks w;
     removed_writers := removed_writers w; content_writes := content_writes w;
     info_writes := info_writes w; cache_notifications := cache_notifications w;
     network_reads := network_reads w |}.

Definition set_read_buf_ (v : option IOBuffer) (w : Writers) : Writers :=
  {| next_state_ := next_state_ w; all_writers_ := all_writers_ w;
     waiting_for_read_ := waiting_for_read_ w;
     active_transaction_ := active_transaction_ w; read_buf_ := v;
     io_buf_len_ := io_buf_len_ w; write_len_ := write_len_ w;
     network_read_only_ := network_read_only_ w;
     should_keep_entry_ := should_keep_entry_ w; is_exclusive_ := is_exclusive_ w;
     partial_do_not_truncate_ := partial_do_not_truncate_ w;
     parallel_writing_pattern_ := parallel_writing_pattern_ w;
     network_transaction_ := network_transaction_ w; checksum_ := checksum_ w;
     callback_ := callback_ w; cache_callback_ := cache_callback_ w;
     response_info_truncation_ := response_info_truncation_ w; buffers := buffers w;
     posted_tasks := posted_tasks w; run_callbacks := run_callbacks w;
     removed_writers := removed_writers w; content_writes := content_writes w;
     info_writes := info_writes w; cache_notifications := cache_notifications w;
     network_reads := network_reads w |}.

Definition set_io_buf_len_ (v : Z) (w : Writers) : Writers :=
  {| next_state_ := next_state_ w; all_writers_ := all_writers_ w;
     waiting_for_read_ := waiting_for_read_ w;
     active_transaction_ := active_transaction_ w; read_buf_ := read_buf_ w;
     io_buf_len_ := v; write_len_ := write_len_ w;
     network_read_only_ := network_read_only_ w;
     should_keep_entry_ := should_keep_entry_ w; is_exclusive_ := is_exclusive_ w;
     partial_do_not_truncate_ := partial_do_not_truncate_ w;
     parallel_writing_pattern_ := parallel_writing_pattern_ w;
     network_transaction_ := network_transaction_ w; checksum_ := checksum_ w;
     callback_ := callback_ w; cache_callback_ := cache_callback_ w;
     response_info_truncation_ := response_info_truncation_ w; buffers := buffers w;
     posted_tasks := posted_tasks w; run_callbacks := run_callbacks w;
     removed_writers := removed_writers w; content_writes := content_writes w;
     info_writes := info_writes w; cache_notifications := cache_notifications w;
     network_reads := network_reads w |}.

Definition set_write_len_ (v : Z) (w : Writers) : Writers :=
  {| next_state_ := next_state_ w; all_writers_ := all_writers_ w;
     waiting_for_read_ := waiting_for_read_ w;
     active_transaction_ := active_transaction_ w; read_buf_ := read_buf_ w;
     io_buf_len_ := io_buf_len_ w; write_len_ := v;
     network_read_only_ := network_read_only_ w;
     should_keep_entry_ := should_keep_entry_ w; is_exclusive_ := is_exclusive_ w;
     partial_do_not_truncate_ := partial_do_not_truncate_ w;
     parallel_writing_pattern_ := parallel_writing_pattern_ w;
     network_transaction_ := network_transaction_ w; checksum_ := checksum_ w;
     callback_ := callback_ w; cache_callback_ := cache_callback_ w;
     response_info_truncation_ := response_info_truncation_ w; buffers := buffers w;
     posted_tasks := posted_tasks w; run_callbacks := run_callbacks w;
     removed_writers := removed_writers w; content_writes := content_writes w;
     info_writes := info_writes w; cache_notifications := cache_notifications w;
     network_reads := network_reads w |}.

Definition set_network_read_only_ (v : bool) (w : Writers) : Writers :=
  {| next_state_ := next_state_ w; all_writers_ := all_writers_ w;
     waiting_for_read_ := waiting_for_read_ w;
     active_transaction_ := active_transaction_ w; read_buf_ := read_buf_ w;
     io_buf_len_ := io_buf_len_ w; write_len_ := write_len_ w; network_read_only_ := v;
     should_keep_entry_ := should_keep_entry_ w; is_exclusive_ := is_exclusive_ w;
     partial_do_not_truncate_ := partial_do_not_truncate_ w;
     parallel_writing_pattern_ := parallel_writing_pattern_ w;
     network_transaction_ := network_transaction_ w; checksum_ := checksum_ w;
     callback_ := callback_ w; cache_callback_ := cache_callback_ w;
     response_info_truncation_ := response_info_truncation_ w; buffers := buffers w;
     posted_tasks := posted_tasks w; run_callbacks := run_callbacks w;
     removed_writers := removed_writers w; content_writes := content_writes w;
     info_writes := info_writes w; cache_notifications := cache_notifications w;
     network_reads := network_reads w |}.

Definition set_should_keep_entry_ (v : bool) (w : Writers) : Writers :=
  {| next_state_ := next_state_ w; all_writers_ := all_writers_ w;
     waiting_for_read_ := waiting_for_read_ w;
     active_transaction_ := active_transaction_ w; read_buf_ := read_buf_ w;
     io_buf_len_ := io_buf_len_ w; write_len_ := write_len_ w;
     network_read_only_ := network_read_only_ w; should_keep_entry_ := v;
     is_exclusive_ := is_exclusive_ w;
     partial_do_not_truncate_ := partial_do_not_truncate_ w;
     parallel_writing_pattern_ := parallel_writing_pattern_ w;
     network_transaction_ := network_transaction_ w; checksum_ := checksum_ w;
     callback_ := callback_ w; cache_callback_ := cache_callback_ w;
     response_info_truncation_ := response_info_truncation_ w; buffers := buffers w;
     posted_tasks := posted_tasks w; run_callbacks := run_callbacks w;
     removed_writers := removed_writers w; content_writes := content_writes w;
     info_writes := info_writes w; cache_notifications := cache_notifications w;
     network_reads := network_reads w |}.

Definition set_is_exclusive_ (v : bool) (w : Writers) : Writers :=
  {| next_state_ := next_state_ w; all_writers_ := all_writers_ w;
     waiting_for_read_ := waiting_for_read_ w;
     active_transaction_ := active_transaction_ w; read_buf_ := read_buf_ w;
     io_buf_len_ := io_buf_len_ w; write_len_ := write_len_ w;
     network_read_only_ := network_read_only_ w;
     should_keep_entry_ := should_keep_entry_ w; is_exclusive_ := v;
     partial_do_not_truncate_ := partial_do_not_truncate_ w;
     parallel_writing_pattern_ := parallel_writing_pattern_ w;
     network_transaction_ := network_transaction_ w; checksum_ := checksum_ w;
     callback_ := callback_ w; cache_callback_ := cache_callback_ w;
     response_info_truncation_ := response_info_truncation_ w; buffers := buffers w;
     posted_tasks := posted_tasks w; run_callbacks := run_callbacks w;
     removed_writers := removed_writers w; content_writes := content_writes w;
     info_writes := info_writes w; cache_notifications := cache_notifications w;
     network_reads := network_reads w |}.

Definition set_partial_do_not_truncate_ (v : bool) (w : Writers) : Writers :=
  {| next_state_ := next_state_ w; all_writers_ := all_writers_ w;
     waiting_for_read_ := waiting_for_read_ w;
     active_transaction_ := active_transaction_ w; read_buf_ := read_buf_ w;
     io_buf_len_ := io_buf_len_ w; write_len_ := write_len_ w;
     network_read_only_ := network_read_only_ w;
     should_keep_entry_ := should_keep_entry_ w; is_exclusive_ := is_exclusive_ w;
     partial_do_not_truncate_ := v;
     parallel_writing_pattern_ := parallel_writing_pattern_ w;
     network_transaction_ := network_transaction_ w; checksum_ := checksum_ w;
     callback_ := callback_ w; cache_callback_ := cache_callback_ w;
     response_info_truncation_ := response_info_truncation_ w; buffers := buffers w;
     posted_tasks := posted_tasks w; run_callbacks := run_callbacks w;
     removed_writers := removed_writers w; content_writes := content_writes w;
     info_writes := info_writes w; cache_notifications := cache_notifications w;
     network_reads := network_reads w |}.

Definition set_parallel_writing_pattern_ (v : ParallelWritingPattern) (w : Writers) : Writers :=
  {| next_state_ := next_state_ w; all_writers_ := all_writers_ w;
     waiting_for_read_ := waiting_for_read_ w;
     active_transaction_ := active_transaction_ w; read_buf_ := read_buf_ w;
     io_buf_len_ := io_buf_len_ w; write_len_ := write_len_ w;
     network_read_only_ := network_read_only_ w;
     should_keep_entry_ := should_keep_entry_ w; is_exclusive_ := is_exclusive_ w;
     partial_do_not_truncate_ := partial_do_not_truncate_ w;
     parallel_writing_pattern_ := v; network_transaction_ := network_transaction_ w;
     checksum_ := checksum_ w; callback_ := callback_ w;
     cache_callback_ := cache_callback_ w;
     response_info_truncation_ := response_info_truncation_ w; buffers := buffers w;
     posted_tasks := posted_tasks w; run_callbacks := run_callbacks w;
     removed_writers := removed_writers w; content_writes := content_writes w;
     info_writes := info_writes w; cache_notifications := cache_notifications w;
     network_reads := network_reads w |}.

Definition set_network_transaction_ (v : bool) (w : Writers) : Writers :=
  {| next_state_ := next_state_ w; all_writers_ := all_writers_ w;
     waiting_for_read_ := waiting_for_read_ w;
     active_transaction_ := active_transaction_ w; read_buf_ := read_buf_ w;
     io_buf_len_ := io_buf_len_ w; write_len_ := write_len_ w;
     network_read_only_ := network_read_only_ w;
     should_keep_entry_ := should_keep_entry_ w; is_exclusive_ := is_exclusive_ w;
     partial_do_not_truncate_ := partial_do_not_truncate_ w;
     parallel_writing_pattern_ := parallel_writing_pattern_ w;
     network_transaction_ := v; checksum_ := checksum_ w; callback_ := callback_ w;
     cache_callback_ := cache_callback_ w;
     response_info_truncation_ := response_info_truncation_ w; buffers := buffers w;
     posted_tasks := posted_tasks w; run_callbacks := run_callbacks w;
     removed_writers := removed_writers w; content_writes := content_writes w;
     info_writes := info_writes w; cache_notifications := cache_notifications w;
     network_reads := network_reads w |}.

Definition set_checksum_ (v : bool) (w : Writers) : Writers :=
  {| next_state_ := next_state_ w; all_writers_ := all_writers_ w;
     waiting_for_read_ := waiting_for_read_ w;
     active_transaction_ := active_transaction_ w; read_buf_ := read_buf_ w;
     io_buf_len_ := io_buf_len_ w; write_len_ := write_len_ w;
     network_read_only_ := network_read_only_ w;
     should_keep_entry_ := should_keep_entry_ w; is_exclusive_ := is_exclusive_ w;
     partial_do_not_truncate_ := partial_do_not_truncate_ w;
     parallel_writing_pattern_ := parallel_writing_pattern_ w;
     network_transaction_ := network_transaction_ w; checksum_ := v;
     callback_ := callback_ w; cache_callback_ := cache_callback_ w;
     response_info_truncation_ := response_info_truncation_ w; buffers := buffers w;
     posted_tasks := posted_tasks w; run_callbacks := run_callbacks w;
     removed_writers := removed_writers w; content_writes := content_writes w;
     info_writes := info_writes w; cache_notifications := cache_notifications w;
     network_reads := network_reads w |}.

Definition set_callback_ (v : option CompletionOnceCallback) (w : Writers) : Writers :=
  {| next_state_ := next_state_ w; all_writers_ := all_writers_ w;
     waiting_for_read_ := waiting_for_read_ w;
     active_transaction_ := active_transaction_ w; read_buf_ := read_buf_ w;
     io_buf_len_ := io_buf_len_ w; write_len_ := write_len_ w;
     network_read_only_ := network_read_only_ w;
     should_keep_entry_ := should_keep_entry_ w; is_exclusive_ := is_exclusive_ w;
     partial_do_not_truncate_ := partial_do_not_truncate_ w;
     parallel_writing_pattern_ := parallel_writing_pattern_ w;
     network_transaction_ := network_transaction_ w; checksum_ := checksum_ w;
     callback_ := v; cache_callback_ := cache_callback_ w;
     response_info_truncation_ := response_info_truncation_ w; buffers := buffers w;
     posted_tasks := posted_tasks w; run_callbacks := run_callbacks w;
     removed_writers := removed_writers w; content_writes := content_writes w;
     info_writes := info_writes w; cache_notifications := cache_notifications w;
     network_reads := network_reads w |}.

Definition set_cache_callback_ (v : option (bool * bool * gset Transaction)) (w : Writers) : Writers :=
  {| next_state_ := next_state_ w; all_writers_ := all_writers_ w;
     waiting_for_read_ := waiting_for_read_ w;
     active_transaction_ := active_transaction_ w; read_buf_ := read_buf_ w;
     io_buf_len_ := io_buf_len_ w; write_len_ := write_len_ w;
     network_read_only_ := network_read_only_ w;
     should_keep_entry_ := should_keep_entry_ w; is_exclusive_ := is_exclusive_ w;
     partial_do_not_truncate_ := partial_do_not_truncate_ w;
     parallel_writing_pattern_ := parallel_writing_pattern_ w;
     network_transaction_ := network_transaction_ w; checksum_ := checksum_ w;
     callback_ := callback_ w; cache_callback_ := v;
     response_info_truncation_ := response_info_truncation_ w; buffers := buffers w;
     posted_tasks := posted_tasks w; run_callbacks := run_callbacks w;
     removed_writers := removed_writers w; content_writes := content_writes w;
     info_writes := info_writes w; cache_notifications := cache_notifications w;
     network_reads := network_reads w |}.

Definition set_response_info_truncation_ (v : HttpResponseInfo) (w : Writers) : Writers :=
  {| next_state_ := next_state_ w; all_writers_ := all_writers_ w;
     waiting_for_read_ := waiting_for_read_ w;
     active_transaction_ := active_transaction_ w; read_buf_ := read_buf_ w;
     io_buf_len_ := io_buf_len_ w; write_len_ := write_len_ w;
     network_read_only_ := network_read_only_ w;
     should_keep_entry_ := should_keep_entry_ w; is_exclusive_ := is_exclusive_ w;
     partial_do_not_truncate_ := partial_do_not_truncate_ w;
     parallel_writing_pattern_ := parallel_writing_pattern_ w;
     network_transaction_ := network_transaction_ w; checksum_ := checksum_ w;
     callback_ := callback_ w; cache_callback_ := cache_callback_ w;
     response_info_truncation_ := v; buffers := buffers w;
     posted_tasks := posted_tasks w; run_callbacks := run_callbacks w;
     removed_writers := removed_writers w; content_writes := content_writes w;
     info_writes := info_writes w; cache_notifications := cache_notifications w;
     network_reads := network_reads w |}.

Definition set_buffers (v : gmap IOBuffer (list Z)) (w : Writers) : Writers :=
  {| next_state_ := next_state_ w; all_writers_ := all_writers_ w;
     waiting_for_read_ := waiting_for_read_ w;
     active_transaction_ := active_transaction_ w; read_buf_ := read_buf_ w;
     io_buf_len_ := io_buf_len_ w; write_len_ := write_len_ w;
     network_read_only_ := network_read_only_ w;
     should_keep_entry_ := should_keep_entry_ w; is_exclusive_ := is_exclusive_ w;
     partial_do_not_truncate_ := partial_do_not_truncate_ w;
     parallel_writing_pattern_ := parallel_writing_pattern_ w;
     network_transaction_ := network_transaction_ w; checksum_ := checksum_ w;
     callback_ := callback_ w; cache_callback_ := cache_callback_ w;
     response_info_truncation_ := response_info_truncation_ w; buffers := v;
     posted_tasks := posted_tasks w; run_callbacks := run_callbacks w;
     removed_writers := removed_writers w; content_writes := content_writes w;
     info_writes := info_writes w; cache_notifications := cache_notifications w;
     network_reads := network_reads w |}.

Definition set_posted_tasks (v : list (CompletionOnceCallback * Z)) (w : Writers) : Writers :=
  {| next_state_ := next_state_ w; all_writers_ := all_writers_ w;
     waiting_for_read_ := waiting_for_read_ w;
     active_transaction_ := active_transaction_ w; read_buf_ := read_buf_ w;
     io_buf_len_ := io_buf_len_ w; write_len_ := write_len_ w;
     network_read_only_ := network_read_only_ w;
     should_keep_entry_ := should_keep_entry_ w; is_exclusive_ := is_exclusive_ w;
     partial_do_not_truncate_ := partial_do_not_truncate_ w;
     parallel_writing_pattern_ := parallel_writing_pattern_ w;
     network_transaction_ := network_transaction_ w; checksum_ := checksum_ w;
     callback_ := callback_ w; cache_callback_ := cache_callback_ w;
     response_info_truncation_ := response_info_truncation_ w; buffers := buffers w;
     posted_tasks := v; run_callbacks := run_callbacks w;
     removed_writers := removed_writers w; content_writes := content_writes w;
     info_writes := info_writes w; cache_notifications := cache_notifications w;
     network_reads := network_reads w |}.

Definition set_run_callbacks (v : list (CompletionOnceCallback * Z)) (w : Writers) : Writers :=
  {| next_state_ := next_state_ w; all_writers_ := all_writers_ w;
     waiting_for_read_ := waiting_for_read_ w;
     active_transaction_ := active_transaction_ w; read_buf_ := read_buf_ w;
     io_buf_len_ := io_buf_len_ w; write_len_ := write_len_ w;
     network_read_only_ := network_read_only_ w;
     should_keep_entry_ := should_keep_entry_ w; is_exclusive_ := is_exclusive_ w;
     partial_do_not_truncate_ := partial_do_not_truncate_ w;
     parallel_writing_pattern_ := parallel_writing_pattern_ w;
     network_transaction_ := network_transaction_ w; checksum_ := checksum_ w;
     callback_ := callback_ w; cache_callback_ := cache_callback_ w;
     response_info_truncation_ := response_info_truncation_ w; buffers := buffers w;
     posted_tasks := posted_tasks w; run_callbacks := v;
     removed_writers := removed_writers w; content_writes := content_writes w;
     info_writes := info_writes w; cache_notifications := cache_notifications w;
     network_reads := network_reads w |}.

Definition set_removed_writers (v : list (Transaction * Z)) (w : Writers) : Writers :=
  {| next_state_ := next_state_ w; all_writers_ := all_writers_ w;
     waiting_for_read_ := waiting_for_read_ w;
     active_transaction_ := active_transaction_ w; read_buf_ := read_buf_ w;
     io_buf_len_ := io_buf_len_ w; write_len_ := write_len_ w;
     network_read_only_ := network_read_only_ w;
     should_keep_entry_ := should_keep_entry_ w; is_exclusive_ := is_exclusive_ w;
     partial_do_not_truncate_ := partial_do_not_truncate_ w;
     parallel_writing_pattern_ := parallel_writing_pattern_ w;
     network_transaction_ := network_transaction_ w; checksum_ := checksum_ w;
     callback_ := callback_ w; cache_callback_ := cache_callback_ w;
     response_info_truncation_ := response_info_truncation_ w; buffers := buffers w;
     posted_tasks := posted_tasks w; run_callbacks := run_callbacks w;
     removed_writers := v; content_writes := content_writes w;
     info_writes := info_writes w; cache_notifications := cache_notifications w;
     network_reads := network_reads w |}.

Definition set_content_writes (v : list ContentWrite) (w : Writers) : Writers :=
  {| next_state_ := next_state_ w; all_writers_ := all_writers_ w;
     waiting_for_read_ := waiting_for_read_ w;
     active_transaction_ := active_transaction_ w; read_buf_ := read_buf_ w;
     io_buf_len_ := io_buf_len_ w; write_len_ := write_len_ w;
     network_read_only_ := network_read_only_ w;
     should_keep_entry_ := should_keep_entry_ w; is_exclusive_ := is_exclusive_ w;
     partial_do_not_truncate_ := partial_do_not_truncate_ w;
     parallel_writing_pattern_ := parallel_writing_pattern_ w;
     network_transaction_ := network_transaction_ w; checksum_ := checksum_ w;
     callback_ := callback_ w; cache_callback_ := cache_callback_ w;
     response_info_truncation_ := response_info_truncation_ w; buffers := buffers w;
     posted_tasks := posted_tasks w; run_callbacks := run_callbacks w;
     removed_writers := removed_writers w; content_writes := v;
     info_writes := info_writes w; cache_notifications := cache_notifications w;
     network_reads := network_reads w |}.

Definition set_info_writes (v : list bool) (w : Writers) : Writers :=
  {| next_state_ := next_state_ w; all_writers_ := all_writers_ w;
     waiting_for_read_ := waiting_for_read_ w;
     active_transaction_ := active_transaction_ w; read_buf_ := read_buf_ w;
     io_buf_len_ := io_buf_len_ w; write_len_ := write_len_ w;
     network_read_only_ := network_read_only_ w;
     should_keep_entry_ := should_keep_entry_ w; is_exclusive_ := is_exclusive_ w;
     partial_do_not_truncate_ := partial_do_not_truncate_ w;
     parallel_writing_pattern_ := parallel_writing_pattern_ w;
     network_transaction_ := network_transaction_ w; checksum_ := checksum_ w;
     callback_ := callback_ w; cache_callback_ := cache_callback_ w;
     response_info_truncation_ := response_info_truncation_ w; buffers := buffers w;
     posted_tasks := posted_tasks w; run_callbacks := run_callbacks w;
     removed_writers := removed_writers w; content_writes := content_writes w;
     info_writes := v; cache_notifications := cache_notifications w;
     network_reads := network_reads w |}.

Definition set_cache_notifications (v : list CacheNotification) (w : Writers) : Writers :=
  {| next_state_ := next_state_ w; all_writers_ := all_writers_ w;
     waiting_for_read_ := waiting_for_read_ w;
     active_transaction_ := active_transaction_ w; read_buf_ := read_buf_ w;
     io_buf_len_ := io_buf_len_ w; write_len_ := write_len_ w;
     network_read_only_ := network_read_only_ w;
     should_keep_entry_ := should_keep_entry_ w; is_exclusive_ := is_exclusive_ w;
     partial_do_not_truncate_ := partial_do_not_truncate_ w;
     parallel_writing_pattern_ := parallel_writing_pattern_ w;
     network_transaction_ := network_transaction_ w; checksum_ := checksum_ w;
     callback_ := callback_ w; cache_callback_ := cache_callback_ w;
     response_info_truncation_ := response_info_truncation_ w; buffers := buffers w;
     posted_tasks := posted_tasks w; run_callbacks := run_callbacks w;
     removed_writers := removed_writers w; content_writes := content_writes w;
     info_writes := info_writes w; cache_notifications := v;
     network_reads := network_reads w |}.

Definition set_network_reads (v : list (IOBuffer * Z)) (w : Writers) : Writers :=
  {| next_state_ := next_state_ w; all_writers_ := all_writers_ w;
     waiting_for_read_ := waiting_for_read_ w;
     active_transaction_ := active_transaction_ w; read_buf_ := read_buf_ w;
     io_buf_len_ := io_buf_len_ w; write_len_ := write_len_ w;
     network_read_only_ := network_read_only_ w;
     should_keep_entry_ := should_keep_entry_ w; is_exclusive_ := is_exclusive_ w;
     partial_do_not_truncate_ := partial_do_not_truncate_ w;
     parallel_writing_pattern_ := parallel_writing_pattern_ w;
     network_transaction_ := network_transaction_ w; checksum_ := checksum_ w;
     callback_ := callback_ w; cache_callback_ := cache_callback_ w;
     response_info_truncation_ := response_info_truncation_ w; buffers := buffers w;
     posted_tasks := posted_tasks w; run_callbacks := run_callbacks w;
     removed_writers := removed_writers w; content_writes := content_writes w;
     info_writes := info_writes w; cache_notifications := cache_notifications w;
     network_reads := v |}.

(** What stops a call into the session: a CHECK that fails, or a step the
    language leaves undefined. *)
Inductive Fault : Type :=
| CHECK_active_transaction
    (** [CHECK(active_transaction_)] in [DoCacheWriteDataComplete] *)
| end_iterator
    (** [all_writers_.find(...)] is [end()] and is dereferenced or erased *)
| null_headers
    (** [response_info_truncation_.headers] is null and is dereferenced *)
| null_read_buf
    (** [read_buf_] is null and is dereferenced *)
| null_network_transaction
    (** [network_transaction_] is null and is dereferenced *)
| negative_memcpy
    (** [memcpy] is given a negative count *).

(** What a call into the session comes to: it returns, it stops on a
    fault, or the loop of [DoLoop] never ends. DCHECKs are not compiled
    in. *)
Inductive Run (A : Type) : Type :=
| Returned (a : A)
| Faulted (f : Fault)
| Diverged.
Arguments Returned {A} a.
Arguments Faulted {A} f.
Arguments Diverged {A}.

#[export] Instance Run_bind : MBind Run := fun A B k m =>
  match m with
  | Returned a => k a
  | Faulted f => Faulted f
  | Diverged => Diverged
  end.

#[export] Instance Run_ret : MRet Run := fun A a => Returned a.

(** A [for] loop over the entries of a container. *)
Fixpoint for_each {A B : Type} (body : A -> B -> Run A) (a : A) (l : list B) : Run A :=
  match l with
  | [] => Returned a
  | b :: l' => a' ← body a b; for_each body a' l'
  end.

(** How a read of the network transaction ends: later ([ERR_IO_PENDING]),
    with bytes put in the buffer, or with an error. *)
Inductive NetworkRead : Type :=
| ReadPending
| ReadBytes (data : list Z)
| ReadError (error : Z).

Definition network_result (r : NetworkRead) : Z :=
  match r with
  | ReadPending => ERR_IO_PENDING
  | ReadBytes data => Z.of_nat (length data)
  | ReadError error => error
  end.

(** The answers of the collaborators during one call into the session. *)
Record Env : Type := {
  network_Read : NetworkRead;
  (** [disk_entry->GetDataSize(kResponseContentIndex)] when the write is
      issued, and when the session looks at the entry afterwards *)
  GetDataSize_before_write : Z;
  GetDataSize : Z;
  (** the value of the write of response data, of [partial->CacheWrite] and
      of the write of response info *)
  disk_WriteData : Z;
  partial_CacheWrite : Z;
  disk_WriteData_info : Z;
  (** [active_transaction_->ResponseChecksumMatches(...)] *)
  ResponseChecksumMatches : bool;
  (** [network_transaction_->GetResponseInfo()->headers->GetContentLength()] *)
  network_GetContentLength : Z;
  (** the size of the pickled response info *)
  pickle_size : Z
}.

(** *** Buffers *)

(** A buffer is known by the bytes it holds, from its start. *)
Definition buffer_data (w : Writers) (buf : IOBuffer) : list Z :=
  default [] (buffers w !! buf).

(** The first [n] bytes of [dst] become those of [src]. *)
Definition write_bytes (dst : IOBuffer) (src : list Z) (n : nat) (w : Writers) : Writers :=
  set_buffers (<[dst := take n src ++ drop n (buffer_data w dst)]> (buffers w)) w.

(** [memcpy(dst->data(), src->data(), n)] *)
Definition memcpy (dst : IOBuffer) (src : list Z) (n : Z) (w : Writers) : Run Writers :=
  if n <? 0 then Faulted negative_memcpy
  else Returned (write_bytes dst src (Z.to_nat n) w).

(** *** Helpers of the member functions *)

(** [IsValidResponseForWriter] *)
Definition IsValidResponseForWriter (is_partial : bool) (response_info_ : HttpResponseInfo)
  : bool :=
  match headers response_info_ with
  | None => false
  | Some h =>
      if negb is_partial
         && (negb (response_code h =? 200) && negb (response_code h =? 304))
      then false else true
  end.

(** [EraseTransaction(TransactionMap::iterator it, int result)], for the
    iterator of a transaction of [all_writers_]; priorities are left
    out. *)
Definition EraseTransaction_it (transaction : Transaction) (result : Z) (w : Writers)
  : Writers :=
  let w := set_removed_writers (removed_writers w ++ [(transaction, result)]) w in
  let w := set_all_writers_ (delete transaction (all_writers_ w)) w in
  let w :=
    if bool_decide (all_writers_ w = ∅) && bool_decide (next_state_ w = NONE)
    then set_network_transaction_ false w else w in
  if bool_decide (active_transaction_ w = Some transaction)
  then set_active_transaction_ None w
  else set_waiting_for_read_ (delete transaction (waiting_for_read_ w)) w.

(** [EraseTransaction(Transaction* transaction, int result)] *)
Definition EraseTransaction (transaction : Transaction) (result : Z) (w : Writers)
  : Run Writers :=
  match all_writers_ w !! transaction with
  | Some _ => Returned (EraseTransaction_it transaction result w)
  | None => Faulted end_iterator
  end.

(** One turn of the loop of [CompleteWaitingForReadTransactions]. *)
Definition CompleteWaitingForRead (result : Z) (w : Writers)
    (entry : Transaction * WaitingForRead) : Run Writers :=
  let transaction := fst entry in
  let waiting := snd entry in
  '(callback_result, w) ←
    (if 0 <=? result then
       let write_len := Z.min (read_buf_len waiting) result in
       match read_buf_ w with
       | None => Faulted null_read_buf
       | Some buf =>
           w ← memcpy (read_buf waiting) (buffer_data w buf) write_len w;
           Returned (write_len, w)
       end
     else Returned (result, w));
  let w := set_posted_tasks (posted_tasks w ++ [(callback waiting, callback_result)]) w in
  let w := set_waiting_for_read_ (delete transaction (waiting_for_read_ w)) w in
  if result <=? 0 then EraseTransaction transaction result w else Returned w.

(** [CompleteWaitingForReadTransactions] *)
Definition CompleteWaitingForReadTransactions (result : Z) (w : Writers) : Run Writers :=
  for_each (CompleteWaitingForRead result) w (map_to_list (waiting_for_read_ w)).

(** [RemoveIdleWriters] *)
Definition RemoveIdleWriters (result : Z) (w : Writers) : Writers :=
  foldl (fun w entry =>
           if bool_decide (Some (fst entry) = active_transaction_ w) then w
           else EraseTransaction_it (fst entry) result w)
        w (map_to_list (all_writers_ w)).

(** [ProcessFailure] *)
Definition ProcessFailure (error : Z) (w : Writers) : Run Writers :=
  w ← CompleteWaitingForReadTransactions error w;
  Returned (RemoveIdleWriters error w).

(** [ShouldTruncate]: its answer and the session it leaves (it may clear
    [should_keep_entry_]). *)
Definition ShouldTruncate (env : Env) (w : Writers) : Run (bool * Writers) :=
  if negb (should_keep_entry_ w) || partial_do_not_truncate_ w then Returned (false, w)
  else
    match headers (response_info_truncation_ w) with
    | None => Faulted null_headers
    | Some h =>
        if (GetContentLength h <=? 0) || HasHeaderValue_Accept_Ranges_none h
           || negb (HasStrongValidators h)
        then Returned (false, set_should_keep_entry_ false w)
        else if GetDataSize env =? 0 then Returned (false, set_should_keep_entry_ false w)
        else if HasHeader_Content_Encoding h
        then Returned (false, set_should_keep_entry_ false w)
        else if (0 <=? GetContentLength h) && (GetContentLength h <=? GetDataSize env)
        then Returned (false, w)
        else Returned (true, w)
    end.

(** [TruncateEntry] *)
Definition TruncateEntry (env : Env) (w : Writers) : Writers :=
  let w := set_io_buf_len_ (pickle_size env) w in
  set_info_writes (info_writes w ++ [true]) w.

(** [if (ShouldTruncate()) TruncateEntry();] *)
Definition TruncateEntryIfShould (env : Env) (w : Writers) : Run Writers :=
  '(should, w) ← ShouldTruncate env w;
  Returned (if should : bool then TruncateEntry env w else w).

(** [SetCacheCallback] *)
Definition SetCacheCallback (success : bool) (make_readers : gset Transaction)
    (w : Writers) : Writers :=
  set_cache_callback_ (Some (success, should_keep_entry_ w, make_readers)) w.

(** [if (active_transaction_) EraseTransaction(active_transaction_, result);
     active_transaction_ = nullptr;] *)
Definition EraseActiveTransaction (result : Z) (w : Writers) : Run Writers :=
  w ← match active_transaction_ w with
      | Some transaction => EraseTransaction transaction result w
      | None => Returned w
      end;
  Returned (set_active_transaction_ None w).

(** [OnNetworkReadFailure] *)
Definition OnNetworkReadFailure (env : Env) (result : Z) (w : Writers) : Run Writers :=
  w ← ProcessFailure result w;
  w ← EraseActiveTransaction result w;
  w ← TruncateEntryIfShould env w;
  Returned (SetCacheCallback false ∅ w).

(** [OnCacheWriteFailure] *)
Definition OnCacheWriteFailure (w : Writers) : Run Writers :=
  w ← ProcessFailure ERR_CACHE_WRITE_FAILURE w;
  let w := set_network_read_only_ true w in
  let w := set_active_transaction_ None w in
  let w := set_should_keep_entry_ false w in
  Returned
    (if bool_decide (all_writers_ w = ∅) then SetCacheCallback false ∅ w
     else set_cache_notifications
            (cache_notifications w ++ [WritersDoomEntryRestartTransactions]) w).

(** Whether the active transaction, if there is one, is a partial one:
    [all_writers_.find(active_transaction_)->second.partial]. *)
Definition active_partial (w : Writers) : Run bool :=
  match active_transaction_ w with
  | Some transaction =>
      match all_writers_ w !! transaction with
      | Some info => Returned (partial info)
      | None => Faulted end_iterator
      end
  | None => Returned false
  end.

(** [OnDataReceived] *)
Definition OnDataReceived (env : Env) (result : Z) (w : Writers) : Run Writers :=
  is_partial ← active_partial w;
  if is_partial : bool then Returned (set_active_transaction_ None w)
  else if result =? 0 then
    if negb (network_transaction_ w) then Faulted null_network_transaction
    else if (0 <=? network_GetContentLength env)
            && (GetDataSize env <? network_GetContentLength env)
    then OnNetworkReadFailure env result w
    else
      w ← EraseActiveTransaction result w;
      w ← CompleteWaitingForReadTransactions (write_len_ w) w;
      let make_readers := dom (all_writers_ w) in
      let w := set_all_writers_ ∅ w in
      Returned (SetCacheCallback true make_readers w)
  else
    w ← CompleteWaitingForReadTransactions (write_len_ w) w;
    Returned (set_active_transaction_ None w).

(** *** The states of [DoLoop] *)

(** [DoNetworkRead]: the read is asked of the network transaction, which
    answers as [env] says; bytes that come at once are in the buffer when
    the call returns. *)
Definition DoNetworkRead (env : Env) (w : Writers) : Z * Writers :=
  let w := set_next_state_ NETWORK_READ_COMPLETE w in
  if negb (network_transaction_ w) then (ERR_FAILED, w)
  else
    match read_buf_ w with
    | Some buf =>
        let w := set_network_reads (network_reads w ++ [(buf, io_buf_len_ w)]) w in
        match network_Read env with
        | ReadBytes data => (network_result (ReadBytes data), write_bytes buf data (length data) w)
        | r => (network_result r, w)
        end
    | None => (network_result (network_Read env), w)
    end.

(** [DoNetworkReadComplete] *)
Definition DoNetworkReadComplete (env : Env) (result : Z) (w : Writers)
  : Run (Z * Writers) :=
  if result <? 0 then
    w ← OnNetworkReadFailure env result (set_next_state_ NONE w);
    Returned (result, w)
  else Returned (result, set_next_state_ CACHE_WRITE_DATA w).

(** [DoCacheWriteData] *)
Definition DoCacheWriteData (env : Env) (num_bytes : Z) (w : Writers)
  : Run (Z * Writers) :=
  let w := set_next_state_ CACHE_WRITE_DATA_COMPLETE w in
  let w := set_write_len_ num_bytes w in
  if (num_bytes =? 0) || network_read_only_ w then Returned (num_bytes, w)
  else
    is_partial ← active_partial w;
    if negb is_partial then
      Returned
        (disk_WriteData env,
         set_content_writes
           (content_writes w ++ [WriteData (GetDataSize_before_write env) num_bytes]) w)
    else
      Returned
        (partial_CacheWrite env,
         set_content_writes (content_writes w ++ [CacheWrite num_bytes]) w).

(** The [if (checksum_) ...] of [DoCacheWriteDataComplete]. *)
Definition UpdateOrCheckChecksum (env : Env) (w : Writers) : Run Writers :=
  if checksum_ w then
    if 0 <? write_len_ w then
      match read_buf_ w with
      | Some _ => Returned w
      | None => Faulted null_read_buf
      end
    else
      match active_transaction_ w with
      | None => Faulted CHECK_active_transaction
      | Some _ =>
          let w := set_checksum_ false w in
          if negb (ResponseChecksumMatches env)
          then Returned (set_next_state_ MARK_SINGLE_KEYED_CACHE_ENTRY_UNUSABLE w)
          else Returned w
      end
  else Returned w.

(** [DoCacheWriteDataComplete] *)
Definition DoCacheWriteDataComplete (env : Env) (result : Z) (w : Writers)
  : Run (Z * Writers) :=
  let w := set_next_state_ NONE w in
  w ← UpdateOrCheckChecksum env w;
  if negb (result =? write_len_ w) then
    w ← OnCacheWriteFailure w;
    Returned (write_len_ w, w)
  else
    w ← OnDataReceived env result w;
    Returned (result, w).

Definition set_single_keyed_cache_entry_unusable (v : bool) (info : HttpResponseInfo)
  : HttpResponseInfo :=
  {| headers := headers info; single_keyed_cache_entry_unusable := v |}.

(** [DoMarkSingleKeyedCacheEntryUnusable] *)
Definition DoMarkSingleKeyedCacheEntryUnusable (env : Env) (w : Writers) : Z * Writers :=
  let w := set_response_info_truncation_
             (set_single_keyed_cache_entry_unusable true (response_info_truncation_ w)) w in
  let w := set_next_state_ MARK_SINGLE_KEYED_CACHE_ENTRY_UNUSABLE_COMPLETE w in
  let w := set_io_buf_len_ (pickle_size env) w in
  (disk_WriteData_info env, set_info_writes (info_writes w ++ [false]) w).

(** [DoMarkSingleKeyedCacheEntryUnusableComplete] *)
Definition DoMarkSingleKeyedCacheEntryUnusableComplete (result : Z) (w : Writers)
  : Run (Z * Writers) :=
  let w := set_next_state_ NONE w in
  w ← (if result <? 0 then OnCacheWriteFailure w else Returned w);
  Returned (write_len_ w, w).

(** One turn of the [do ... while] of [DoLoop]: [next_state_] becomes
    [UNSET], then the state that was current runs. *)
Definition DoLoopStep (env : Env) (rv : Z) (w : Writers) : Run (Z * Writers) :=
  let state := next_state_ w in
  let w := set_next_state_ UNSET w in
  match state with
  | NETWORK_READ => Returned (DoNetworkRead env w)
  | NETWORK_READ_COMPLETE => DoNetworkReadComplete env rv w
  | CACHE_WRITE_DATA => DoCacheWriteData env rv w
  | CACHE_WRITE_DATA_COMPLETE => DoCacheWriteDataComplete env rv w
  | MARK_SINGLE_KEYED_CACHE_ENTRY_UNUSABLE =>
      Returned (DoMarkSingleKeyedCacheEntryUnusable env w)
  | MARK_SINGLE_KEYED_CACHE_ENTRY_UNUSABLE_COMPLETE =>
      DoMarkSingleKeyedCacheEntryUnusableComplete rv w
  | UNSET => Returned (ERR_FAILED, w)
  | NONE => Returned (rv, w)
  end.

(** The loop, for at most [fuel] turns. *)
Fixpoint DoLoopTurns (fuel : nat) (env : Env) (rv : Z) (w : Writers) : Run (Z * Writers) :=
  match fuel with
  | O => Diverged
  | S fuel' =>
      '(rv', w') ← DoLoopStep env rv w;
      if negb (bool_decide (next_state_ w' = NONE)) && negb (rv' =? ERR_IO_PENDING)
      then DoLoopTurns fuel' env rv' w'
      else Returned (rv', w')
  end.

(** [std::move(callback).Run(rv)] when [rv] is not [ERR_IO_PENDING] and
    there is a callback. *)
Definition RunCallback (consumer_callback : option CompletionOnceCallback) (rv : Z)
    (w : Writers) : Writers :=
  match consumer_callback with
  | Some c =>
      if negb (rv =? ERR_IO_PENDING)
      then set_run_callbacks (run_callbacks w ++ [(c, rv)]) w
      else w
  | None => w
  end.

(** What [DoLoop] does once the loop has ended. *)
Definition DoLoopEnd (rv : Z) (w : Writers) : Z * Writers :=
  if negb (bool_decide (next_state_ w = NONE)) then
    (rv,
     if negb (rv =? ERR_IO_PENDING)
     then RunCallback (callback_ w) rv (set_callback_ None w)
     else w)
  else
    let consumer_callback := callback_ w in
    let w := set_callback_ None w in
    let w := set_read_buf_ None w in
    let w :=
      match cache_callback_ w with
      | Some (success, should_keep_entry, make_readers) =>
          set_cache_notifications
            (cache_notifications w
             ++ [WritersDoneWritingToEntry success should_keep_entry make_readers])
            (set_cache_callback_ None w)
      | None => w
      end in
    (rv, RunCallback consumer_callback rv w).

(** The number of turns after which the model gives the loop up. The states
    follow one another without a cycle, except [UNSET], which the loop
    never leaves: six turns lead from [NETWORK_READ] to [NONE] at the
    latest. *)
Definition DoLoop_fuel : nat := 8.

(** [DoLoop] *)
Definition DoLoop (env : Env) (result : Z) (w : Writers) : Run (Z * Writers) :=
  '(rv, w) ← DoLoopTurns DoLoop_fuel env result w;
  Returned (DoLoopEnd rv w).

(** [OnIOComplete] *)
Definition OnIOComplete (env : Env) (result : Z) (w : Writers) : Run (Z * Writers) :=
  DoLoop env result w.

(** *** The public member functions *)

(** [Read] *)
Definition Read (env : Env) (buf : IOBuffer) (buf_len : Z)
    (consumer_callback : CompletionOnceCallback) (transaction : Transaction)
    (w : Writers) : Run (Z * Writers) :=
  if negb (bool_decide (next_state_ w = NONE)) then
    let read_info :=
      {| read_buf := buf; read_buf_len := buf_len; write_len := 0;
         callback := consumer_callback |} in
    Returned
      (ERR_IO_PENDING,
       match waiting_for_read_ w !! transaction with
       | Some _ => w
       | None => set_waiting_for_read_ (<[transaction := read_info]> (waiting_for_read_ w)) w
       end)
  else
    let w := set_active_transaction_ (Some transaction) w in
    let w := set_read_buf_ (Some buf) w in
    let w := set_io_buf_len_ buf_len w in
    let w := set_next_state_ NETWORK_READ w in
    '(rv, w) ← DoLoop env OK w;
    Returned (rv, if rv =? ERR_IO_PENDING then set_callback_ (Some consumer_callback) w
                  else w).

(** [StopCaching] *)
Definition StopCaching (keep_entry : bool) (w : Writers) : bool * Writers :=
  if negb (size (all_writers_ w) =? 1)%nat then (false, w)
  else
    let w := set_network_read_only_ true w in
    if negb keep_entry then
      let w := set_should_keep_entry_ false w in
      (true, set_cache_notifications
               (cache_notifications w ++ [WritersDoomEntryRestartTransactions]) w)
    else (true, w).

(** [CanAddWriters], without its out-parameter. *)
Definition CanAddWriters (w : Writers) : bool :=
  if bool_decide (all_writers_ w = ∅) then true
  else negb (is_exclusive_ w) && negb (network_read_only_ w).

(** [AddTransaction]; priorities are left out. *)
Definition AddTransaction (transaction : Transaction)
    (initial_writing_pattern : ParallelWritingPattern) (info : TransactionInfo)
    (w : Writers) : Writers :=
  let w := set_response_info_truncation_ (response_info info) w in
  let w := set_should_keep_entry_
             (IsValidResponseForWriter (partial info) (response_info info)) w in
  let w :=
    if bool_decide (all_writers_ w = ∅) then
      let w := set_parallel_writing_pattern_ initial_writing_pattern w in
      if bool_decide (parallel_writing_pattern_ w = PARALLEL_WRITING_JOIN) then w
      else set_is_exclusive_ true w
    else w in
  let w :=
    if partial info && negb (truncated info) then set_partial_do_not_truncate_ true w
    else w in
  match all_writers_ w !! transaction with
  | Some _ => w
  | None => set_all_writers_ (<[transaction := info]> (all_writers_ w)) w
  end.

(** [SetNetworkTransaction] *)
Definition SetNetworkTransaction (checksum : bool) (w : Writers) : Writers :=
  set_checksum_ checksum (set_network_transaction_ true w).

(** [ResetNetworkTransaction] *)
Definition ResetNetworkTransaction (w : Writers) : Writers :=
  set_network_transaction_ false w.

(** [RemoveTransaction] *)
Definition RemoveTransaction (env : Env) (transaction : Transaction) (success : bool)
    (w : Writers) : Run Writers :=
  w ← EraseTransaction transaction OK w;
  if bool_decide (all_writers_ w = ∅) then
    w ← (if negb success then TruncateEntryIfShould env w else Returned w);
    Returned
      (set_cache_notifications
         (cache_notifications w
          ++ [WritersDoneWritingToEntry success (should_keep_entry_ w) ∅]) w)
  else Returned w.

(** [ContainsOnlyIdleWriters] *)
Definition ContainsOnlyIdleWriters (w : Writers) : bool :=
  bool_decide (waiting_for_read_ w = ∅) && bool_decide (active_transaction_ w = None).

End Writers.

(* ===================================================================== *)
(** ** The writers session: notions used to state its properties *)
(* ===================================================================== *)

Module WritersSpec.
Import Writers.

(** *** Sessions the member functions are meant for *)

(** What the DCHECKs of the file and the uses of its pointers ask of a
    session: the transactions that wait for a read and the active one are
    among [all_writers_], the active one does not wait, the waiting buffers
    have a positive length, and an entry that is to be kept has response
    headers. *)
Record attached (w : Writers) : Prop := {
  waiting_attached : dom (waiting_for_read_ w) ⊆ dom (all_writers_ w);
  active_attached :
    forall a, active_transaction_ w = Some a -> a ∈ dom (all_writers_ w);
  active_not_waiting :
    forall a, active_transaction_ w = Some a -> a ∉ dom (waiting_for_read_ w);
  waiting_lengths :
    map_Forall (fun _ waiting => 0 < read_buf_len waiting) (waiting_for_read_ w);
  headers_known :
    should_keep_entry_ w = true -> is_Some (headers (response_info_truncation_ w))
}.

(** The members that neither the removal of transactions nor the answers
    to waiting transactions touch. *)
Definition frame (w : Writers) :=
  (next_state_ w, read_buf_ w, io_buf_len_ w, write_len_ w, network_read_only_ w,
   should_keep_entry_ w, is_exclusive_ w, partial_do_not_truncate_ w,
   parallel_writing_pattern_ w, checksum_ w, callback_ w, cache_callback_ w,
   response_info_truncation_ w, run_callbacks w, content_writes w, info_writes w,
   cache_notifications w, network_reads w).

(** What a waiting transaction is answered when the read it waits for
    ends with [result]: the number of bytes copied into its buffer, or the
    error. *)
Definition answer (result : Z) (waiting : WaitingForRead) : Z :=
  if 0 <=? result then Z.min (read_buf_len waiting) result else result.

(** *** Truncation *)

(** When an entry is marked as truncated: it is to be kept and is not a
    partial entry that must not be truncated, its response declares a
    positive content length, does not refuse ranges, has strong validators
    and no content encoding, and the entry holds some data, less than the
    declared length. *)
Definition truncation_eligible (env : Env) (w : Writers) : bool :=
  should_keep_entry_ w && negb (partial_do_not_truncate_ w)
  && match headers (response_info_truncation_ w) with
     | Some h =>
         (0 <? GetContentLength h) && negb (HasHeaderValue_Accept_Ranges_none h)
         && HasStrongValidators h && negb (HasHeader_Content_Encoding h)
         && negb (GetDataSize env =? 0) && (GetDataSize env <? GetContentLength h)
     | None => false
     end.

(** *** Sequences of calls *)

(** The calls a session gets: those of its consumers and of the cache, the
    completion of an operation it waits for, and, before the completion of
    a network read, the bytes that the network transaction puts in the
    buffer it was given. *)
Inductive Call : Type :=
| CallRead (buf : IOBuffer) (buf_len : Z) (consumer_callback : CompletionOnceCallback)
    (transaction : Transaction)
| CallOnIOComplete (result : Z)
| NetworkFillsBuffer (data : list Z)
| CallStopCaching (keep_entry : bool)
| CallAddTransaction (transaction : Transaction)
    (initial_writing_pattern : ParallelWritingPattern) (info : TransactionInfo)
| CallSetNetworkTransaction (checksum : bool)
| CallResetNetworkTransaction
| CallRemoveTransaction (transaction : Transaction) (success : bool).

Definition call (w : Writers) (c : Env * Call) : Run Writers :=
  let env := fst c in
  match snd c with
  | CallRead buf buf_len consumer_callback transaction =>
      '(_, w) ← Read env buf buf_len consumer_callback transaction w; Returned w
  | CallOnIOComplete result => '(_, w) ← OnIOComplete env result w; Returned w
  | NetworkFillsBuffer data =>
      Returned match read_buf_ w with
               | Some buf => write_bytes buf data (length data) w
               | None => w
               end
  | CallStopCaching keep_entry => Returned (snd (StopCaching keep_entry w))
  | CallAddTransaction transaction initial_writing_pattern info =>
      Returned (AddTransaction transaction initial_writing_pattern info w)
  | CallSetNetworkTransaction checksum => Returned (SetNetworkTransaction checksum w)
  | CallResetNetworkTransaction => Returned (ResetNetworkTransaction w)
  | CallRemoveTransaction transaction success =>
      RemoveTransaction env transaction success w
  end.

Definition calls (l : list (Env * Call)) (w : Writers) : Run Writers :=
  for_each call w l.

(** The session [w'] is still in network read-only mode and has written no
    more response data than [w], if [w] is in network read-only mode. *)
Definition read_only_kept (w w' : Writers) : Prop :=
  network_read_only_ w = true ->
  network_read_only_ w' = true /\ content_writes w' = content_writes w.

(** A run that returns or stops on a fault. *)
Definition ends {A : Type} (r : Run A) : Prop := r <> Diverged.

(** How many turns of the loop of [DoLoop] a state is away from [NONE], at
    most. *)
Definition turns_left (state : State) : nat :=
  match state with
  | NETWORK_READ => 6
  | NETWORK_READ_COMPLETE => 5
  | CACHE_WRITE_DATA => 4
  | CACHE_WRITE_DATA_COMPLETE => 3
  | MARK_SINGLE_KEYED_CACHE_ENTRY_UNUSABLE => 2
  | MARK_SINGLE_KEYED_CACHE_ENTRY_UNUSABLE_COMPLETE => 1
  | NONE => 0
  | UNSET => 0
  end.

(** *** Sample sessions *)

Definition sample_headers : HttpResponseHeaders :=
  {| response_code := 200; GetContentLength := 1000;
     HasHeaderValue_Accept_Ranges_none := false; HasStrongValidators := true;
     HasHeader_Content_Encoding := false |}.

Definition sample_response : HttpResponseInfo :=
  {| headers := Some sample_headers; single_keyed_cache_entry_unusable := false |}.

Definition sample_writer : TransactionInfo :=
  {| partial := false; truncated := false; response_info := sample_response |}.

(** A session without transactions. *)
Definition no_writers : Writers :=
  {| next_state_ := NONE; all_writers_ := ∅; waiting_for_read_ := ∅;
     active_transaction_ := None; read_buf_ := None; io_buf_len_ := 0; write_len_ := 0;
     network_read_only_ := false; should_keep_entry_ := true; is_exclusive_ := false;
     partial_do_not_truncate_ := false;
     parallel_writing_pattern_ := PARALLEL_WRITING_NONE;
     network_transaction_ := false; checksum_ := false; callback_ := None;
     cache_callback_ := None;
     response_info_truncation_ :=
       {| headers := None; single_keyed_cache_entry_unusable := false |};
     buffers := ∅; posted_tasks := []; run_callbacks := []; removed_writers := [];
     content_writes := []; info_writes := []; cache_notifications := [];
     network_reads := [] |}.

(** Collaborators: the network read ends as [r], the entry holds
    [data_size] bytes, the write of response data gives [written], the
    checksum matches or not. *)
Definition sample_env (r : NetworkRead) (data_size written : Z) (checksum_matches : bool)
  : Env :=
  {| network_Read := r; GetDataSize_before_write := data_size; GetDataSize := data_size;
     disk_WriteData := written; partial_CacheWrite := written; disk_WriteData_info := 10;
     ResponseChecksumMatches := checksum_matches; network_GetContentLength := 1000;
     pickle_size := 10 |}.

(** Transactions 1, 2 and 3 join the session, which has a network
    transaction and a checksum. *)
Definition three_writers : Writers :=
  SetNetworkTransaction true
    (AddTransaction 3 PARALLEL_WRITING_JOIN sample_writer
       (AddTransaction 2 PARALLEL_WRITING_JOIN sample_writer
          (AddTransaction 1 PARALLEL_WRITING_JOIN sample_writer no_writers))).

(** What the session is left with after a run, if it returns. *)
Definition session_of (r : Run (Z * Writers)) : Writers :=
  match r with
  | Returned (_, w) => w
  | _ => no_writers
  end.

(** Transaction 1 reads into buffer 11 (of 300 bytes) and the network
    read is pending; then transaction 2 asks to read into buffer 12 (of
    2 bytes). *)
Definition first_reads : Writers :=
  session_of (Read (sample_env ReadPending 0 0 true) 11 300 101 1 three_writers).

Definition second_waits : Writers :=
  session_of (Read (sample_env ReadPending 0 0 true) 12 2 102 2 first_reads).

(** The network transaction has put three bytes in buffer 11. *)
Definition bytes_arrived : Writers := write_bytes 11 [7; 8; 9] 3 second_waits.

(** The network read completes with these three bytes and the write to the
    cache is pending. *)
Definition write_pending : Writers :=
  session_of (OnIOComplete (sample_env ReadPending 0 ERR_IO_PENDING true) 3 bytes_arrived).

(** The network read completes with these three bytes and the cache
    writes them. *)
Definition write_done : Writers :=
  session_of (OnIOComplete (sample_env ReadPending 0 3 true) 3 bytes_arrived).

(** The network read completes with these three bytes, of which the cache
    writes two. *)
Definition write_failed : Writers :=
  session_of (OnIOComplete (sample_env ReadPending 0 2 true) 3 bytes_arrived).

(** Then transaction 1 reads again: the response has ended, and its
    checksum does not match. *)
Definition read_after_failure : Writers :=
  session_of (Read (sample_env (ReadBytes []) 0 0 false) 11 300 101 1 write_failed).

(** The network read of [second_waits] has ended with 0 bytes, and
    [DoCacheWriteData] has run for them; the entry holds [data_size]
    bytes. *)
Definition response_ended (data_size : Z) : Writers :=
  session_of (DoCacheWriteData (sample_env ReadPending data_size 0 true) 0 second_waits).

(** What later calls keep of a session: it stays exclusive if it is, and
    if it must not truncate its entry ([partial_do_not_truncate_]) this
    stays so and every response info written since is written as not
    truncated. *)
Definition modes_kept (w w' : Writers) : Prop :=
  (is_exclusive_ w = true -> is_exclusive_ w' = true)
  /\ (partial_do_not_truncate_ w = true ->
      partial_do_not_truncate_ w' = true
      /\ exists written,
           info_writes w' = info_writes w ++ written
           /\ Forall (fun response_truncated => response_truncated = false) written).

(** A range request whose entry was not truncated. *)
Definition sample_partial_writer : TransactionInfo :=
  {| partial := true; truncated := false; response_info := sample_response |}.

(** What follows the arrival of the first transaction in the samples: the
    network transaction is set, the transaction reads into buffer 11 and
    the network read is pending; then the read fails with -100. *)
Definition sample_calls : list (Env * Call) :=
  [(sample_env ReadPending 0 0 true, CallSetNetworkTransaction true);
   (sample_env ReadPending 0 0 true, CallRead 11 300 101 1);
   (sample_env ReadPending 500 0 true, CallOnIOComplete (-100))].

(** The transactions other than the active one. *)
Definition idle (w : Writers) (l : list (Transaction * TransactionInfo))
  : list (Transaction * TransactionInfo) :=
  filter (fun e => active_transaction_ w <> Some e.1) l.

End WritersSpec.

(* ===================================================================== *)
(** ** The registry of HTTP authentication schemes *)
(* ===================================================================== *)

Module Auth.

(** Modelled from the spec: three more of the net error codes (see
    [Writers.OK]); the files need no more of them than that they are
    distinct, and the errors below zero. *)
Definition OK : Z := 0.
Definition ERR_INVALID_RESPONSE : Z := -320.
Definition ERR_UNSUPPORTED_AUTH_SCHEME : Z := -339.

(** [HttpAuth::Target] *)
Inductive Target : Type :=
| AUTH_NONE
| AUTH_PROXY
| AUTH_SERVER.

(** [HttpAuthHandlerFactory::CreateReason] *)
Inductive CreateReason : Type :=
| CREATE_CHALLENGE
| CREATE_PREEMPTIVE.

(** What the files ask of [HttpAuthPreferences]. *)
Record HttpAuthPreferences : Type := {
  allowed_schemes : option (gset string);
  CanUseDefaultCredentials : string -> bool
}.

(** What the files read of an [HttpAuthChallengeTokenizer]. *)
Record HttpAuthChallengeTokenizer : Type := {
  auth_scheme : string;
  challenge_text : string
}.

(** The arguments of [CreateAuthHandler] that the files look at or log;
    [ssl_info], [network_isolation_key], [net_log] and [host_resolver] are
    handed on as they come. *)
Record CreateArguments : Type := {
  challenge : HttpAuthChallengeTokenizer;
  target : Target;
  scheme_host_port : string;
  reason : CreateReason;
  digest_nonce_count : Z
}.

(** [HttpAuthHandlerNTLM], as far as its own file reads it. *)
Record HttpAuthHandlerNTLM : Type := {
  target_ : Target;
  origin_ : string;
  http_auth_preferences_ : option HttpAuthPreferences
}.

(** A handler: an NTLM handler, or the handler of another scheme, which is
    known by its answer to [AllowsDefaultCredentials()]. *)
Inductive HttpAuthHandler : Type :=
| NTLM (h : HttpAuthHandlerNTLM)
| OtherHandler (allows_default_credentials : bool).

(** A scheme factory: the preferences it was given last, and its virtual
    [CreateAuthHandler], which gets these preferences, the arguments and
    the handler that [*handler] holds, and answers a net error and the
    handler that [*handler] holds afterwards. *)
Record HttpAuthHandlerFactory : Type := {
  http_auth_preferences : option HttpAuthPreferences;
  create_auth_handler :
    option HttpAuthPreferences -> CreateArguments -> option HttpAuthHandler ->
    Z * option HttpAuthHandler
}.

(** [factory->set_http_auth_preferences(prefs)] *)
Definition set_http_auth_preferences (prefs : option HttpAuthPreferences)
    (factory : HttpAuthHandlerFactory) : HttpAuthHandlerFactory :=
  {| http_auth_preferences := prefs;
     create_auth_handler := create_auth_handler factory |}.

(** The values that a net log event holds. *)
Inductive Value : Type :=
| NetLogStringValue (s : string)
| StringValue (s : string)
| BoolValue (b : bool)
| IntValue (z : Z).

(** [NetLogParamsForCreateAuth]; the capture mode is known by
    [NetLogCaptureIncludesSensitive(capture_mode)]. *)
Definition NetLogParamsForCreateAuth (scheme challenge_ : string) (net_error : Z)
    (scheme_host_port_ : string) (allows_default_credentials : option bool)
    (capture_includes_sensitive : bool) : gmap string Value :=
  let dict : gmap string Value := ∅ in
  let dict := <["scheme" := NetLogStringValue scheme]> dict in
  let dict :=
    if capture_includes_sensitive
    then <["challenge" := NetLogStringValue challenge_]> dict else dict in
  let dict := <["origin" := StringValue scheme_host_port_]> dict in
  let dict :=
    match allows_default_credentials with
    | Some b => <["allows_default_credentials" := BoolValue b]> dict
    | None => dict
    end in
  if net_error <? 0 then <["net_error" := IntValue net_error]> dict else dict.

(** *** HttpAuthHandlerNTLM *)

Module HttpAuthHandlerNTLM.

(** [HttpAuthHandlerNTLM::AllowsDefaultCredentials] *)
Definition AllowsDefaultCredentials (h : HttpAuthHandlerNTLM) : bool :=
  match target_ h with
  | AUTH_PROXY => true
  | _ =>
      match http_auth_preferences_ h with
      | None => false
      | Some prefs => CanUseDefaultCredentials prefs (origin_ h)
      end
  end.

Section Factory.

(** [HttpAuthHandler::InitFromChallenge], which is not among the sources:
    [None] when it answers false, the initialised handler otherwise. *)
Variable InitFromChallenge :
  HttpAuthHandlerNTLM -> CreateArguments -> option HttpAuthHandlerNTLM.

(** [HttpAuthHandlerNTLM::Factory::CreateAuthHandler]; the new handler has
    the preferences of the factory, and no target and no origin before
    [InitFromChallenge]. *)
Definition CreateAuthHandler (prefs : option HttpAuthPreferences)
    (args : CreateArguments) (handler : option HttpAuthHandler)
  : Z * option HttpAuthHandler :=
  match reason args with
  | CREATE_PREEMPTIVE => (ERR_UNSUPPORTED_AUTH_SCHEME, handler)
  | CREATE_CHALLENGE =>
      let tmp_handler :=
        {| target_ := AUTH_NONE; origin_ := EmptyString; http_auth_preferences_ := prefs |} in
      match InitFromChallenge tmp_handler args with
      | None => (ERR_INVALID_RESPONSE, handler)
      | Some tmp_handler => (OK, Some (NTLM tmp_handler))
      end
  end.

(** An [HttpAuthHandlerNTLM::Factory]. *)
Definition Factory : HttpAuthHandlerFactory :=
  {| http_auth_preferences := None; create_auth_handler := CreateAuthHandler |}.

End Factory.

End HttpAuthHandlerNTLM.

(** The virtual [HttpAuthHandler::AllowsDefaultCredentials]. *)
Definition AllowsDefaultCredentials (handler : HttpAuthHandler) : bool :=
  match handler with
  | NTLM h => HttpAuthHandlerNTLM.AllowsDefaultCredentials h
  | OtherHandler allows_default_credentials => allows_default_credentials
  end.

(** *** HttpAuthHandlerRegistryFactory *)

(** The registry: its own preferences, the scheme factories it owns, and
    the schemes it allows when the preferences name none. *)
Record HttpAuthHandlerRegistryFactory : Type := {
  registry_http_auth_preferences : option HttpAuthPreferences;
  factory_map_ : gmap string HttpAuthHandlerFactory;
  default_auth_schemes_ : gset string
}.

Definition set_factory_map_ (m : gmap string HttpAuthHandlerFactory)
    (registry : HttpAuthHandlerRegistryFactory) : HttpAuthHandlerRegistryFactory :=
  {| registry_http_auth_preferences := registry_http_auth_preferences registry;
     factory_map_ := m;
     default_auth_schemes_ := default_auth_schemes_ registry |}.

Section Registry.

(** [base::ToLowerASCII], which is not among the sources. *)
Variable ToLowerASCII : string -> string.

(** [GetRegisteredSchemeFactory]; [None] is the null pointer. *)
Definition GetRegisteredSchemeFactory (registry : HttpAuthHandlerRegistryFactory)
    (scheme : string) : option HttpAuthHandlerFactory :=
  let lower_scheme := ToLowerASCII scheme in
  factory_map_ registry !! lower_scheme.

(** [GetAllowedAuthSchemes] *)
Definition GetAllowedAuthSchemes (registry : HttpAuthHandlerRegistryFactory)
  : gset string :=
  match registry_http_auth_preferences registry with
  | Some prefs =>
      match allowed_schemes prefs with
      | Some schemes => schemes
      | None => default_auth_schemes_ registry
      end
  | None => default_auth_schemes_ registry
  end.

(** [GetSchemeFactory] *)
Definition GetSchemeFactory (registry : HttpAuthHandlerRegistryFactory)
    (scheme : string) : option HttpAuthHandlerFactory :=
  let lower_scheme := ToLowerASCII scheme in
  if bool_decide (lower_scheme ∈ GetAllowedAuthSchemes registry)
  then GetRegisteredSchemeFactory registry scheme
  else None.

(** [SetHttpAuthPreferences(scheme, prefs)] *)
Definition SetHttpAuthPreferences (registry : HttpAuthHandlerRegistryFactory)
    (scheme : string) (prefs : option HttpAuthPreferences)
  : HttpAuthHandlerRegistryFactory :=
  match GetRegisteredSchemeFactory registry scheme with
  | Some factory =>
      set_factory_map_
        (<[ToLowerASCII scheme := set_http_auth_preferences prefs factory]>
           (factory_map_ registry)) registry
  | None => registry
  end.

(** [RegisterSchemeFactory]; a null [factory] unregisters the scheme. *)
Definition RegisterSchemeFactory (registry : HttpAuthHandlerRegistryFactory)
    (scheme : string) (factory : option HttpAuthHandlerFactory)
  : HttpAuthHandlerRegistryFactory :=
  let lower_scheme := ToLowerASCII scheme in
  match factory with
  | Some factory =>
      set_factory_map_
        (<[lower_scheme :=
             set_http_auth_preferences (registry_http_auth_preferences registry) factory]>
           (factory_map_ registry)) registry
  | None => set_factory_map_ (delete lower_scheme (factory_map_ registry)) registry
  end.

(** [HttpAuthHandlerRegistryFactory::CreateAuthHandler]: the net error, the
    handler that [*handler] holds afterwards, and the parameters of the
    event AUTH_HANDLER_CREATE_RESULT that it adds to the net log, as a
    function of the capture mode. *)
Definition CreateAuthHandler (registry : HttpAuthHandlerRegistryFactory)
    (args : CreateArguments) (handler : option HttpAuthHandler)
  : Z * option HttpAuthHandler * (bool -> gmap string Value) :=
  let scheme := auth_scheme (challenge args) in
  let '(net_error, handler) :=
    if String.eqb scheme EmptyString then (ERR_INVALID_RESPONSE, None)
    else
      match GetSchemeFactory registry scheme with
      | None => (ERR_UNSUPPORTED_AUTH_SCHEME, None)
      | Some factory =>
          create_auth_handler factory (http_auth_preferences factory) args handler
      end in
  (net_error, handler,
   NetLogParamsForCreateAuth scheme (challenge_text (challenge args)) net_error
     (scheme_host_port args) (AllowsDefaultCredentials <$> handler)).

End Registry.

End Auth.

(* ===================================================================== *)
(** ** The registry of HTTP authentication schemes: samples *)
(* ===================================================================== *)

Module AuthSpec.
Import Auth.

(** A lowering of the ASCII letters, for the samples. *)
Definition lower_ascii (c : Ascii.ascii) : Ascii.ascii :=
  let n := Ascii.nat_of_ascii c in
  if ((65 <=? n) && (n <=? 90))%nat then Ascii.ascii_of_nat (n + 32) else c.

Fixpoint sample_ToLowerASCII (s : string) : string :=
  match s with
  | EmptyString => EmptyString
  | String c s' => String (lower_ascii c) (sample_ToLowerASCII s')
  end.

(** Preferences that allow basic and ntlm. *)
Definition sample_prefs : HttpAuthPreferences :=
  {| allowed_schemes := Some {[ "basic"; "ntlm" ]};
     CanUseDefaultCredentials := fun _ => false |}.

(** A registry with these preferences and no scheme factory. *)
Definition sample_registry : HttpAuthHandlerRegistryFactory :=
  {| registry_http_auth_preferences := Some sample_prefs;
     factory_map_ := ∅;
     default_auth_schemes_ := ∅ |}.

(** An [InitFromChallenge] that accepts every challenge. *)
Definition sample_InitFromChallenge (h : HttpAuthHandlerNTLM) (args : CreateArguments)
  : option HttpAuthHandlerNTLM :=
  Some {| target_ := target args; origin_ := scheme_host_port args;
          http_auth_preferences_ := http_auth_preferences_ h |}.

(** A challenge of the server https://host.test for the scheme NTLM. *)
Definition sample_arguments : CreateArguments :=
  {| challenge := {| auth_scheme := "NTLM"; challenge_text := "NTLM" |};
     target := AUTH_SERVER;
     scheme_host_port := "https://host.test";
     reason := CREATE_CHALLENGE;
     digest_nonce_count := 1 |}.

End AuthSpec.

(* ===================================================================== *)
(** ** The shared dictionary store: properties *)
(* ===================================================================== *)

Module StoreFacts.
Import Numerics Store StoreSpec.

(** *** Conversions that change nothing *)

Lemma static_cast_uint64_id z : 0 <= z <= kUint64Max -> static_cast_uint64 z = z.
Proof.
  unfold static_cast_uint64, kUint64Max. intros H. apply Z.mod_small. lia.
Qed.

Lemma static_cast_int64_id z : kInt64Min <= z <= kInt64Max -> static_cast_int64 z = z.
Proof.
  unfold static_cast_int64, kInt64Min, kInt64Max. intros H.
  rewrite Z.mod_small by lia. lia.
Qed.

Lemma static_cast_uint64_range z : 0 <= static_cast_uint64 z <= kUint64Max.
Proof.
  unfold static_cast_uint64, kUint64Max.
  pose proof (Z.mod_pos_bound z (2 ^ 64) ltac:(lia)). lia.
Qed.

Lemma static_cast_uint64_int64 z :
  0 <= z <= kUint64Max -> static_cast_uint64 (static_cast_int64 z) = z.
Proof.
  unfold static_cast_uint64, static_cast_int64, kUint64Max. intros H.
  rewrite Zminus_mod_idemp_l.
  replace (z + 2 ^ 63 - 2 ^ 63) with z by lia. apply Z.mod_small. lia.
Qed.

(** Boolean comparisons as propositions, for [lia]. *)
Ltac bool_to_Z :=
  repeat match goal with
  | H : _ && _ = true |- _ => apply andb_true_iff in H; destruct H
  | H : _ && _ = false |- _ => apply andb_false_iff in H
  | H : _ || _ = true |- _ => apply orb_true_iff in H
  | H : _ || _ = false |- _ => apply orb_false_iff in H; destruct H
  | H : negb _ = true |- _ => apply negb_true_iff in H
  | H : negb _ = false |- _ => apply negb_false_iff in H
  | H : (_ <=? _) = true |- _ => apply Z.leb_le in H
  | H : (_ <=? _) = false |- _ => apply Z.leb_gt in H
  | H : (_ <? _) = true |- _ => apply Z.ltb_lt in H
  | H : (_ <? _) = false |- _ => apply Z.ltb_ge in H
  | H : (_ =? _) = true |- _ => apply Z.eqb_eq in H
  | H : (_ =? _) = false |- _ => apply Z.eqb_neq in H
  end.

Lemma CheckedNumeric_uint64_Some z v :
  CheckedNumeric_uint64 z = Some v <-> v = z /\ 0 <= z <= kUint64Max.
Proof.
  unfold CheckedNumeric_uint64, IsValueInRange_uint64. split.
  - destruct (_ && _) eqn:E; [|discriminate].
    intros [= <-]. bool_to_Z. lia.
  - intros [-> H].
    rewrite (proj2 (Z.leb_le _ _)), (proj2 (Z.leb_le _ _)) by lia. reflexivity.
Qed.

Lemma CheckedNumeric_int64_Some z v :
  CheckedNumeric_int64 z = Some v <-> v = z /\ kInt64Min <= z <= kInt64Max.
Proof.
  unfold CheckedNumeric_int64, IsValueInRange_int64. split.
  - destruct (_ && _) eqn:E; [|discriminate].
    intros [= <-]. bool_to_Z. lia.
  - intros [-> H].
    rewrite (proj2 (Z.leb_le _ _)), (proj2 (Z.leb_le _ _)) by lia. reflexivity.
Qed.

(** *** Sums, counts and ORDER BY *)

Lemma SUM_size_app l k : SUM_size (l ++ k) = SUM_size l + SUM_size k.
Proof. induction l as [|r l IH]; simpl; [reflexivity | rewrite IH; lia]. Qed.

Lemma SUM_size_Permutation l k : l ≡ₚ k -> SUM_size l = SUM_size k.
Proof. induction 1; simpl; lia. Qed.

Lemma SUM_size_filter p l :
  SUM_size l = SUM_size (List.filter p l) + SUM_size (List.filter (fun r => negb (p r)) l).
Proof. induction l as [|r l IH]; simpl; [reflexivity|]. destruct (p r); simpl; lia. Qed.

Lemma SUM_size_nonneg l : Forall (fun r => 0 <= size r <= kInt64Max) l -> 0 <= SUM_size l.
Proof. induction 1; simpl; lia. Qed.

Lemma filter_complement_Permutation (p : Row -> bool) l :
  l ≡ₚ List.filter p l ++ List.filter (fun r => negb (p r)) l.
Proof.
  induction l as [|r l IH]; simpl; [constructor|].
  destruct (p r); simpl.
  - by constructor.
  - by apply Permutation_cons_app.
Qed.

Lemma insert_by_Permutation key x l : insert_by key x l ≡ₚ x :: l.
Proof.
  induction l as [|y l IH]; simpl; [reflexivity|].
  destruct (key x <=? key y); [reflexivity|].
  rewrite IH. apply perm_swap.
Qed.

Lemma order_by_Permutation key l : order_by key l ≡ₚ l.
Proof.
  induction l as [|x l IH]; simpl; [reflexivity|].
  unfold order_by in *. simpl. rewrite insert_by_Permutation. by constructor.
Qed.



(** *** Deleting the selected rows *)

Lemma set_dictionaries_same d : set_dictionaries (dictionaries d) d = d.
Proof. by destruct d. Qed.

Lemma filter_all_true (p : Row -> bool) l :
  (forall r, p r = true) -> List.filter p l = l.
Proof.
  intros Hp. induction l as [|r l IH]; simpl; [reflexivity|].
  by rewrite Hp, IH.
Qed.

Lemma filter_filter (p q : Row -> bool) l :
  List.filter p (List.filter q l) = List.filter (fun r => q r && p r) l.
Proof.
  induction l as [|r l IH]; simpl; [reflexivity|].
  destruct (q r); simpl; [destruct (p r)|]; by rewrite IH.
Qed.

Lemma DeleteDictionariesByPrimaryKeys_Ok env d primary_keys d' :
  DeleteDictionariesByPrimaryKeys env d primary_keys = Ok d' ->
  d' = set_dictionaries (List.filter (not_selected primary_keys) (dictionaries d)) d.
Proof.
  revert d. induction primary_keys as [|k ks IH]; intros d; simpl.
  - intros [= <-]. rewrite filter_all_true by done.
    symmetry. apply set_dictionaries_same.
  - unfold DeleteDictionaryByPrimaryKey, guard.
    destruct (IsSQLValid env _); [|discriminate].
    destruct (Run env _); [|discriminate]. simpl.
    intros H. apply IH in H. subst d'. unfold delete_where, set_dictionaries; simpl.
    f_equal. rewrite filter_filter. apply filter_ext. intros r.
    unfold not_selected. simpl. by rewrite negb_orb.
Qed.

Lemma DeleteDictionariesByPrimaryKeys_total env d primary_keys :
  IsSQLValid env DeleteDictionaryByPrimaryKey_kQuery = true ->
  Run env DeleteDictionaryByPrimaryKey_kQuery = true ->
  exists d', DeleteDictionariesByPrimaryKeys env d primary_keys = Ok d'.
Proof.
  intros H1 H2. revert d. induction primary_keys as [|k ks IH]; intros d; simpl.
  - by eexists.
  - unfold DeleteDictionaryByPrimaryKey, guard. rewrite H1, H2. simpl. apply IH.
Qed.

Lemma DeleteDictionariesByPrimaryKeys_failure env d primary_keys :
  primary_keys <> [] ->
  (IsSQLValid env DeleteDictionaryByPrimaryKey_kQuery
   && Run env DeleteDictionaryByPrimaryKey_kQuery = false) ->
  exists e, DeleteDictionariesByPrimaryKeys env d primary_keys = Unexpected e.
Proof.
  destruct primary_keys as [|k ks]; [done|]. intros _ H. simpl.
  unfold DeleteDictionaryByPrimaryKey, guard.
  destruct (IsSQLValid env _); simpl in *; [rewrite H|]; by eexists.
Qed.

Lemma filter_sublist (p : Row -> bool) l : List.filter p l `sublist_of` l.
Proof.
  induction l as [|r l IH]; simpl; [constructor|].
  destruct (p r); by constructor.
Qed.

Lemma NoDup_List_filter (p : Row -> bool) l : NoDup l -> NoDup (List.filter p l).
Proof. intros H. eapply sublist_NoDup; [exact H | apply filter_sublist]. Qed.

(** Rows whose ids are distinct split into a selection [sel] among them and
    the rows that deleting the ids of [sel] leaves. *)
Lemma partition_selected rows sel :
  NoDup (map id rows) -> NoDup sel -> (forall r, r ∈ sel -> r ∈ rows) ->
  rows ≡ₚ sel ++ List.filter (not_selected (map id sel)) rows.
Proof.
  intros Hids Hsel Hin.
  rewrite (filter_complement_Permutation (fun r => existsb (Z.eqb (id r)) (map id sel)) rows)
    at 1.
  apply Permutation_app; [|reflexivity].
  apply NoDup_Permutation; [apply NoDup_List_filter; by eapply NoDup_fmap_1| done |].
  intros r. rewrite !list_elem_of_In, filter_In, existsb_exists. split.
  - intros [Hr (k & Hk & Hrk)]. apply Z.eqb_eq in Hrk.
    apply in_map_iff in Hk as (r' & <- & Hr').
    assert (r = r') as ->; [|done].
    assert (r' ∈ rows) as Hr'' by (apply Hin; by apply list_elem_of_In).
    apply list_elem_of_In in Hr''. clear -Hids Hr Hr'' Hrk.
    induction rows as [|x rows IH]; [done|].
    simpl in Hids. apply NoDup_cons in Hids as [Hx Hids].
    destruct Hr as [->|Hr], Hr'' as [->|Hr'']; try done.
    + exfalso. apply Hx. rewrite Hrk. apply list_elem_of_In, in_map, Hr''.
    + exfalso. apply Hx. rewrite <- Hrk. apply list_elem_of_In, in_map, Hr.
    + by apply IH.
  - intros Hr. split; [by apply list_elem_of_In, Hin, list_elem_of_In|].
    exists (id r). split; [by apply in_map | apply Z.eqb_refl].
Qed.

(** *** Shortest prefixes *)

Lemma shortest_prefix_ext P Q lo l :
  (forall v, P v = Q v) -> shortest_prefix P lo l = shortest_prefix Q lo l.
Proof.
  revert P Q lo. induction l as [|r l IH]; intros P Q lo HPQ; simpl.
  - by rewrite HPQ.
  - rewrite HPQ. destruct ((lo =? 0)%nat && Q []); [reflexivity|].
    f_equal. apply IH. intros v. apply HPQ.
Qed.


(** A prefix that qualifies exists as soon as the whole list does. *)
Lemma shortest_prefix_exists P lo l :
  P l = true -> (lo <= length l)%nat -> exists v, shortest_prefix P lo l = Some v.
Proof.
  revert P lo. induction l as [|r l IH]; intros P lo HP Hlo; simpl.
  - simpl in Hlo. assert (lo = 0%nat) as -> by lia. simpl. rewrite HP. by eexists.
  - destruct ((lo =? 0)%nat && P []); [by eexists|].
    destruct (IH (fun v => P (r :: v)) (pred lo)) as [v Hv]; [done | simpl in Hlo; lia |].
    rewrite Hv. by eexists.
Qed.

Lemma shortest_prefix_S P lo r l :
  shortest_prefix P (S lo) (r :: l) = cons r <$> shortest_prefix (fun v => P (r :: v)) lo l.
Proof. reflexivity. Qed.

Lemma shortest_prefix_nil_true P l : P [] = true -> shortest_prefix P 0 l = Some [].
Proof. intros H. destruct l; simpl; by rewrite H. Qed.

Lemma shortest_prefix_nil_false P l :
  P [] = false -> shortest_prefix P 0 l = shortest_prefix P 1 l.
Proof. intros H. destruct l; simpl; by rewrite H. Qed.

(** *** The loops *)

Lemma tokens_of_app l k : tokens_of (l ++ k) = tokens_of l ++ tokens_of k.
Proof. unfold tokens_of. apply omap_app. Qed.

Lemma tokens_of_length l : tokens_valid l -> length (tokens_of l) = length l.
Proof.
  induction 1 as [|r l Hr _ IH]; [reflexivity|].
  unfold tokens_of, valid_token in *. simpl.
  destruct (ToUnguessableToken _ _); [simpl; by f_equal | discriminate].
Qed.

(** The loop of [SelectEvictionCandidates] over rows it can consume without
    leaving the ranges: it stops at the first row that makes both
    conditions hold. [P] is the test of the loop, as a function of the rows
    consumed so far. *)
Lemma EvictionCandidatesLoop_shortest rows :
  forall cache_max_size size_low_watermark to_be_removed_count keys toks out checked,
  tokens_valid rows ->
  Forall (fun r => 0 <= size r <= kInt64Max) rows ->
  SUM_size rows <= checked <= kInt64Max ->
  rows <> [] ->
  let P := fun v : list Row =>
    ((cache_max_size =? 0) || (checked - SUM_size v <=? size_low_watermark))
    && (to_be_removed_count <=? Z.of_nat (length toks) + Z.of_nat (length v)) in
  let victims := default rows (shortest_prefix P 1 rows) in
  EvictionCandidatesLoop rows cache_max_size size_low_watermark to_be_removed_count
    keys toks out checked
  = Ok (keys ++ map id victims, toks ++ tokens_of victims, checked - SUM_size victims).
Proof.
  induction rows as [|r rows IH]; [done|].
  intros cms low tbr keys toks out checked Htok Hsz Hsum _ P victims.
  apply Forall_cons in Htok as [Hr Htok]. apply Forall_cons in Hsz as [Hszr Hsz].
  pose proof (SUM_size_nonneg _ Hsz) as Hnn.
  simpl in Hsum. simpl.
  unfold valid_token in Hr.
  destruct (ToUnguessableToken (token_high r) (token_low r)) as [tok|] eqn:Etok;
    [|discriminate].
  rewrite (static_cast_uint64_id (size r)) by (unfold kUint64Max, kInt64Max in *; lia).
  rewrite (proj2 (CheckedNumeric_uint64_Some _ (checked - size r)))
    by (unfold kUint64Max, kInt64Max in *; lia).
  assert (IsValueInRange_int64 (checked - size r) = true) as ->.
  { unfold IsValueInRange_int64. apply andb_true_iff.
    rewrite !Z.leb_le. unfold kInt64Min, kInt64Max in *. lia. }
  simpl. rewrite length_app. simpl.
  assert (P [r] = ((cms =? 0) || (checked - size r <=? low))
                  && (tbr <=? Z.of_nat (length toks + 1))) as HP1.
  { apply eq_true_iff_eq. unfold P.
    rewrite !andb_true_iff, !orb_true_iff, !Z.leb_le, !Z.eqb_eq.
    change (SUM_size [r]) with (size r + 0). simpl length. lia. }
  rewrite <- HP1.
  subst victims. rewrite shortest_prefix_S.
  destruct (P [r]) eqn:EP; simpl.
  - rewrite shortest_prefix_nil_true by done. simpl.
    unfold tokens_of. simpl. rewrite Etok. do 2 f_equal; simpl; lia.
  - rewrite shortest_prefix_nil_false by done.
    destruct rows as [|r' rows'].
    + simpl. unfold tokens_of. simpl. rewrite Etok. do 2 f_equal; simpl; lia.
    + rewrite IH; try done; [|unfold kInt64Max in *; simpl in *; lia].
      match goal with |- context [shortest_prefix ?Q 1 (r' :: rows')] =>
        rewrite (shortest_prefix_ext Q (fun v => P (r :: v)) 1 (r' :: rows')) end.
      2:{ intros v. apply eq_true_iff_eq. unfold P.
          rewrite !andb_true_iff, !orb_true_iff, !Z.leb_le, !Z.eqb_eq.
          change (SUM_size (r :: v)) with (size r + SUM_size v).
          rewrite length_app. simpl length. lia. }
      destruct (shortest_prefix _ 1 (r' :: rows')) as [v|]; simpl;
        rewrite <- !app_assoc; unfold tokens_of; simpl; rewrite Etok; simpl;
        do 2 f_equal; simpl; lia.
Qed.

Lemma tokens_valid_Permutation l k : l ≡ₚ k -> tokens_valid l -> tokens_valid k.
Proof. intros H. unfold tokens_valid. by rewrite H. Qed.

Lemma Forall_sizes_Permutation l k :
  l ≡ₚ k -> Forall (fun r => 0 <= size r <= kInt64Max) l ->
  Forall (fun r => 0 <= size r <= kInt64Max) k.
Proof. intros H. by rewrite H. Qed.

Lemma COUNT_nonneg l : 0 <= COUNT l.
Proof. unfold COUNT. lia. Qed.

(** Past its limits, [SelectEvictionCandidates] takes the shortest prefix of
    at least one record, in ascending last-used-time order, that ends the
    eviction. *)
Lemma SelectEvictionCandidates_over_limits
    (env : Env) (d : Database)
    (cache_max_size size_low_watermark cache_max_count count_low_watermark : Z) :
  InitializeDatabase env = true -> GetValue env = true ->
  IsSQLValid env GetTotalDictionaryCount_kQuery = true ->
  IsSQLValid env SelectEvictionCandidates_kQuery = true ->
  0 <= cache_max_size -> 0 <= size_low_watermark ->
  0 <= cache_max_count -> 0 <= count_low_watermark ->
  within_limits cache_max_size cache_max_count
    (static_cast_uint64 (total_dict_size d)) (COUNT (dictionaries d)) = false ->
  tokens_valid (dictionaries d) ->
  Forall (fun r => 0 <= size r <= kInt64Max) (dictionaries d) ->
  consistent d ->
  SUM_size (dictionaries d) <= kInt64Max ->
  exists victims,
    shortest_prefix
      (eviction_done cache_max_size size_low_watermark count_low_watermark
         (SUM_size (dictionaries d)) (COUNT (dictionaries d)))
      1 (order_by last_used_time (dictionaries d)) = Some victims
    /\ SelectEvictionCandidates env d cache_max_size size_low_watermark
         cache_max_count count_low_watermark
       = Ok (map id victims, tokens_of victims,
             SUM_size (dictionaries d) - SUM_size victims).
Proof.
  intros Hinit Hget Hsql Hsql' Hcms Hlow Hcmc Hclow Hover Htok Hsz Hcons Hmax.
  unfold SelectEvictionCandidates, GetTotalDictionarySizeImpl, GetTotalDictionaryCount,
    guard, within_limits in *.
  rewrite Hinit, Hget, Hsql, Hsql'. simpl.
  rewrite Hover. unfold consistent in Hcons.
  rewrite Hcons in *.
  set (rows := dictionaries d) in *.
  set (scan := order_by last_used_time rows).
  assert (scan ≡ₚ rows) as Hperm by apply order_by_Permutation.
  pose proof (SUM_size_Permutation _ _ Hperm) as Hsum.
  pose proof (Permutation_length Hperm) as Hlen.
  pose proof (SUM_size_nonneg _ Hsz) as Hnn.
  assert (rows <> []) as Hne.
  { intros E. rewrite E in Hover. unfold COUNT in Hover. simpl in Hover.
    apply andb_false_iff in Hover as [Hover|Hover].
    - apply orb_false_iff in Hover as [_ Hover]. apply Z.leb_gt in Hover. lia.
    - apply Z.leb_gt in Hover. lia. }
  assert (scan <> []) as Hne'.
  { intros E. rewrite E in Hperm. apply Permutation_nil in Hperm. done. }
  rewrite EvictionCandidatesLoop_shortest; try done.
  2:{ by apply (tokens_valid_Permutation rows scan). }
  2:{ by apply (Forall_sizes_Permutation rows scan). }
  2:{ lia. }
  set (P := eviction_done cache_max_size size_low_watermark count_low_watermark
              (SUM_size rows) (COUNT rows)).
  match goal with |- context [shortest_prefix ?Q 1 scan] =>
    rewrite (shortest_prefix_ext Q P 1 scan) end.
  2:{ intros v. apply eq_true_iff_eq. unfold P, eviction_done, COUNT.
      destruct (count_low_watermark <? Z.of_nat (length rows)) eqn:E;
        rewrite !andb_true_iff, !orb_true_iff, !Z.leb_le, !Z.eqb_eq; simpl length;
        [apply Z.ltb_lt in E | apply Z.ltb_ge in E]; lia. }
  destruct (shortest_prefix_exists P 1 scan) as [v Hv].
  { unfold P, eviction_done, COUNT. apply andb_true_iff. split.
    - apply orb_true_iff. right. apply Z.leb_le. lia.
    - apply Z.leb_le. lia. }
  { destruct scan; [done | simpl; lia]. }
  exists v. split; [exact Hv|]. rewrite Hv. reflexivity.
Qed.

(** C1 (as amended). Global eviction, [SelectEvictionCandidates], when its
    reads of the database succeed: when both budgets are within limits the
    victim set is empty, whatever the table holds; otherwise, on a table
    whose tokens deserialize, whose sizes are byte counts and whose total
    (at most 2^63-1) is the persisted counter, the victims are the shortest
    NON-EMPTY prefix of the records in ascending last-used-time order after
    whose removal (cache_max_size == 0 or the size left is
    <= size_low_watermark) and the number removed is
    >= total_count - count_low_watermark. *)
Theorem C1_eviction_selects_shortest_nonempty_prefix
    (env : Env) (d : Database)
    (cache_max_size size_low_watermark cache_max_count count_low_watermark : Z) :
  InitializeDatabase env = true -> GetValue env = true ->
  IsSQLValid env GetTotalDictionaryCount_kQuery = true ->
  0 <= cache_max_size -> 0 <= size_low_watermark ->
  0 <= cache_max_count -> 0 <= count_low_watermark ->
  (within_limits cache_max_size cache_max_count
     (static_cast_uint64 (total_dict_size d)) (COUNT (dictionaries d)) = true ->
   SelectEvictionCandidates env d cache_max_size size_low_watermark
     cache_max_count count_low_watermark = Ok ([], [], 0))
  /\
  (within_limits cache_max_size cache_max_count
     (static_cast_uint64 (total_dict_size d)) (COUNT (dictionaries d)) = false ->
   IsSQLValid env SelectEvictionCandidates_kQuery = true ->
   tokens_valid (dictionaries d) ->
   Forall (fun r => 0 <= size r <= kInt64Max) (dictionaries d) ->
   consistent d ->
   SUM_size (dictionaries d) <= kInt64Max ->
   exists victims,
     shortest_prefix
       (eviction_done cache_max_size size_low_watermark count_low_watermark
          (SUM_size (dictionaries d)) (COUNT (dictionaries d)))
       1 (order_by last_used_time (dictionaries d)) = Some victims
     /\ SelectEvictionCandidates env d cache_max_size size_low_watermark
          cache_max_count count_low_watermark
        = Ok (map id victims, tokens_of victims,
              SUM_size (dictionaries d) - SUM_size victims)).
Proof.
  intros Hinit Hget Hsql Hcms Hlow Hcmc Hclow. split.
  - unfold SelectEvictionCandidates, GetTotalDictionarySizeImpl,
      GetTotalDictionaryCount, guard, within_limits.
    rewrite Hinit, Hget, Hsql. simpl. intros ->. reflexivity.
  - intros Hover Hsql' Htok Hsz Hcons Hmax.
    by apply SelectEvictionCandidates_over_limits.
Qed.

(** With low watermarks that are not above the maxima, no prefix ends the
    eviction before a record is taken: past its limits, on a table whose
    tokens deserialize, whose sizes are byte counts and whose total (at
    most 2^63-1) is the persisted counter, [SelectEvictionCandidates] takes
    the shortest prefix, in ascending last-used-time order, after whose
    removal (cache_max_size == 0 or the size left is <= size_low_watermark)
    and the number removed is >= total_count - count_low_watermark. *)
Theorem eviction_selects_shortest_prefix_below_maxima
    (env : Env) (d : Database)
    (cache_max_size size_low_watermark cache_max_count count_low_watermark : Z) :
  InitializeDatabase env = true -> GetValue env = true ->
  IsSQLValid env GetTotalDictionaryCount_kQuery = true ->
  IsSQLValid env SelectEvictionCandidates_kQuery = true ->
  0 <= cache_max_size -> 0 <= size_low_watermark ->
  0 <= cache_max_count -> 0 <= count_low_watermark ->
  size_low_watermark <= cache_max_size -> count_low_watermark <= cache_max_count ->
  within_limits cache_max_size cache_max_count
    (static_cast_uint64 (total_dict_size d)) (COUNT (dictionaries d)) = false ->
  tokens_valid (dictionaries d) ->
  Forall (fun r => 0 <= size r <= kInt64Max) (dictionaries d) ->
  consistent d ->
  SUM_size (dictionaries d) <= kInt64Max ->
  exists victims,
    shortest_prefix
      (eviction_done cache_max_size size_low_watermark count_low_watermark
         (SUM_size (dictionaries d)) (COUNT (dictionaries d)))
      0 (order_by last_used_time (dictionaries d)) = Some victims
    /\ SelectEvictionCandidates env d cache_max_size size_low_watermark
         cache_max_count count_low_watermark
       = Ok (map id victims, tokens_of victims,
             SUM_size (dictionaries d) - SUM_size victims).
Proof.
  intros Hinit Hget Hsql Hsql' Hcms Hlow Hcmc Hclow Hsize Hcount Hover Htok Hsz Hcons Hmax.
  destruct (SelectEvictionCandidates_over_limits env d cache_max_size size_low_watermark
              cache_max_count count_low_watermark) as (victims & Hprefix & Hselect);
    try done.
  exists victims. split; [|exact Hselect].
  rewrite shortest_prefix_nil_false; [exact Hprefix|].
  unfold consistent in Hcons. unfold within_limits in Hover. rewrite Hcons in Hover.
  unfold eviction_done. simpl.
  apply andb_false_iff in Hover as [Hover|Hover].
  - apply orb_false_iff in Hover as [Hzero Hover].
    apply andb_false_iff. left. apply orb_false_iff. split; [exact Hzero|].
    apply Z.leb_gt in Hover. apply Z.leb_gt. lia.
  - apply andb_false_iff. right. apply Z.leb_gt in Hover. apply Z.leb_gt. lia.
Qed.

Arguments ToUnguessableToken : simpl never.
Arguments static_cast_uint64 : simpl never.
Arguments static_cast_int64 : simpl never.
(** *** Well-formed tables *)

Lemma map_sublist {B : Type} (f : Row -> B) k l :
  k `sublist_of` l -> map f k `sublist_of` map f l.
Proof. induction 1; simpl; by constructor. Qed.

Lemma Forall_sublist (P : Row -> Prop) k l :
  k `sublist_of` l -> Forall P l -> Forall P k.
Proof.
  intros Hs. rewrite !Forall_forall. intros H x Hx. apply H.
  by eapply elem_of_sublist.
Qed.

Lemma well_formed_sublist k l : k `sublist_of` l -> well_formed l -> well_formed k.
Proof.
  intros Hs [H1 H2 H3]. split.
  - eapply sublist_NoDup; [exact H1 | by apply map_sublist].
  - eapply sublist_NoDup; [exact H2 | by apply map_sublist].
  - by eapply Forall_sublist.
Qed.

Lemma well_formed_NoDup l : well_formed l -> NoDup l.
Proof. intros [H _ _]. by eapply NoDup_fmap_1. Qed.

Lemma well_formed_nil : well_formed [].
Proof. split; simpl; constructor. Qed.


(** Deleting the ids of a selection among the rows takes exactly the sizes
    and the count of the selection away. *)
Lemma delete_selected_SUM rows sel :
  well_formed rows -> NoDup sel -> (forall r, r ∈ sel -> r ∈ rows) ->
  SUM_size (List.filter (not_selected (map id sel)) rows) = SUM_size rows - SUM_size sel.
Proof.
  intros Hwf Hsel Hin.
  pose proof (partition_selected rows sel (wf_ids _ Hwf) Hsel Hin) as Hp.
  apply SUM_size_Permutation in Hp. rewrite SUM_size_app in Hp. lia.
Qed.


(** *** The meta value *)

Lemma UpdateTotalDictionarySizeInMetaTable_Ok env d size_delta total d' :
  UpdateTotalDictionarySizeInMetaTable env d size_delta = Ok (total, d') ->
  total = static_cast_uint64 (total_dict_size d) + size_delta
  /\ 0 <= total <= kUint64Max
  /\ d' = set_total_dict_size (static_cast_int64 total) d.
Proof.
  unfold UpdateTotalDictionarySizeInMetaTable, GetTotalDictionarySizeImpl, guard.
  destruct (InitializeDatabase env); [|discriminate].
  destruct (GetValue env); [|discriminate]. simpl.
  destruct (CheckedNumeric_uint64 _) as [t|] eqn:E; [|discriminate].
  destruct (SetValue env); [|discriminate]. simpl.
  intros [= <- <-]. apply CheckedNumeric_uint64_Some in E as [-> E]. done.
Qed.

Lemma consistent_set_total total rows d :
  0 <= total <= kUint64Max -> total = SUM_size rows ->
  consistent (set_dictionaries rows (set_total_dict_size (static_cast_int64 total) d)).
Proof.
  intros Hr Hs. unfold consistent. simpl. by rewrite static_cast_uint64_int64.
Qed.

(** *** Checked sums *)

Lemma SUM_usize_sizes l :
  Forall (fun r => 0 <= size r <= kInt64Max) l -> SUM_usize l = SUM_size l.
Proof.
  induction 1 as [|r l Hr _ IH]; simpl; [reflexivity|].
  rewrite static_cast_uint64_id, IH; [reflexivity|].
  unfold kUint64Max, kInt64Max in *. lia.
Qed.

Lemma SUM_usize_nonneg l : 0 <= SUM_usize l.
Proof.
  induction l as [|r l IH]; simpl; [lia|].
  pose proof (static_cast_uint64_range (size r)). lia.
Qed.

Lemma SUM_usize_app l k : SUM_usize (l ++ k) = SUM_usize l + SUM_usize k.
Proof. induction l as [|r l IH]; simpl; [reflexivity | rewrite IH; lia]. Qed.

Lemma checked_sum_int64_acc rows acc total :
  foldl (fun acc r => v ← acc; CheckedNumeric_int64 (v + static_cast_uint64 (size r)))
        acc rows = Some total ->
  exists v, acc = Some v /\ total = v + SUM_usize rows.
Proof.
  revert acc. induction rows as [|r rows IH]; intros acc; simpl.
  - intros ->. exists total. split; [done | lia].
  - intros H. apply IH in H as (v & Hv & ->).
    destruct acc as [a|]; [|discriminate]. simpl in Hv.
    apply CheckedNumeric_int64_Some in Hv as [-> _].
    exists a. split; [done | lia].
Qed.

Lemma checked_sum_int64_Some rows total :
  checked_sum_int64 rows = Some total -> total = SUM_usize rows.
Proof.
  unfold checked_sum_int64. intros H.
  apply checked_sum_int64_acc in H as (v & [= <-] & ->). lia.
Qed.

(** The engine's [SUM(size)] over byte counts: their sum while an int64
    holds it, and an overflow beyond. *)
Lemma SUM_size_int64_acc rows : forall a,
  Forall (fun r => 0 <= size r <= kInt64Max) rows -> 0 <= a <= kInt64Max ->
  foldl (fun acc r => v ← acc; CheckedNumeric_int64 (v + size r)) (Some a) rows
  = if a + SUM_size rows <=? kInt64Max then Some (a + SUM_size rows) else None.
Proof.
  induction rows as [|r rows IH]; intros a Hsz Ha; simpl.
  - rewrite Z.add_0_r. by destruct (Z.leb_spec a kInt64Max); [|lia].
  - apply Forall_cons in Hsz as [Hr Hsz].
    pose proof (SUM_size_nonneg _ Hsz) as Hnn.
    unfold CheckedNumeric_int64 at 2, IsValueInRange_int64.
    destruct (Z.leb_spec (a + size r) kInt64Max) as [Hle|Hgt].
    + assert ((kInt64Min <=? a + size r) = true) as ->
        by (apply Z.leb_le; unfold kInt64Min; lia).
      cbn [andb]. rewrite IH by (done || lia). by rewrite Z.add_assoc.
    + rewrite andb_false_r.
      assert (foldl (fun acc r => v ← acc; CheckedNumeric_int64 (v + size r)) None rows
              = None) as -> by (clear; by induction rows).
      by destruct (Z.leb_spec (a + (size r + SUM_size rows)) kInt64Max); [lia|].
Qed.

Lemma SUM_size_int64_sizes rows :
  Forall (fun r => 0 <= size r <= kInt64Max) rows ->
  SUM_size_int64 rows
  = if SUM_size rows <=? kInt64Max then Some (SUM_size rows) else None.
Proof.
  intros Hsz. unfold SUM_size_int64.
  rewrite SUM_size_int64_acc by (done || unfold kInt64Max; lia). done.
Qed.

(** What [GetDictionarySizePerSite] reads on such rows. *)
Lemma size_per_site_sizes rows :
  Forall (fun r => 0 <= size r <= kInt64Max) rows ->
  match SUM_size_int64 rows with
  | Some sum => static_cast_uint64 sum
  | None => 0
  end = if SUM_size rows <=? kInt64Max then SUM_size rows else 0.
Proof.
  intros Hsz. rewrite SUM_size_int64_sizes by done.
  pose proof (SUM_size_nonneg _ Hsz).
  destruct (Z.leb_spec (SUM_size rows) kInt64Max); [|done].
  apply static_cast_uint64_id. unfold kUint64Max, kInt64Max in *. lia.
Qed.

(** *** The candidates of the per-site eviction *)

(** Whatever the loop of [SelectCandidatesForPerSiteEviction] returns is a
    prefix of the rows with a valid token; it ends because both targets are
    met or because the cursor is exhausted. *)
Lemma PerSiteCandidatesLoop_Ok rows :
  forall to_be_removed_size to_be_removed_count keys toks total keys' toks' total',
  PerSiteCandidatesLoop rows to_be_removed_size to_be_removed_count keys toks total
  = Ok (keys', toks', total') ->
  exists n,
    let sel := take n (List.filter valid_token rows) in
    keys' = keys ++ map id sel /\ toks' = toks ++ tokens_of sel
    /\ total' = total + SUM_usize sel
    /\ ((to_be_removed_size <= total'
         /\ to_be_removed_count <= Z.of_nat (length toks'))
        \/ sel = List.filter valid_token rows).
Proof.
  induction rows as [|r rows IH]; intros ts tc keys toks total keys' toks' total'; simpl.
  - intros [= <- <- <-]. exists 0%nat. simpl. rewrite !app_nil_r.
    repeat split; try lia. by right.
  - destruct (ToUnguessableToken (token_high r) (token_low r)) as [tok|] eqn:Etok.
    + assert (valid_token r = true) as Ev by (unfold valid_token; by rewrite Etok).
      rewrite Ev.
      destruct (CheckedNumeric_int64 _) as [t|] eqn:Et; [|discriminate].
      apply CheckedNumeric_int64_Some in Et as [-> _].
      destruct (_ && _) eqn:Estop.
      * intros [= <- <- <-]. exists 1%nat. simpl.
        unfold tokens_of; simpl; rewrite Etok. repeat split; lia.
      * intros H. apply IH in H as (n & -> & -> & -> & Hend).
        exists (S n). simpl. rewrite <- !app_assoc.
        unfold tokens_of; simpl; rewrite Etok. repeat split; try lia.
        destruct Hend as [Hend| ->]; [left | by right].
        rewrite <- !app_assoc in Hend. simpl in Hend.
        unfold tokens_of in Hend. lia.
    + assert (valid_token r = false) as Ev by (unfold valid_token; by rewrite Etok).
      rewrite Ev.
      intros H. apply IH in H as (n & -> & -> & -> & Hend). by exists n.
Qed.

Arguments tokens_of : simpl never.
(** A prefix of the valid rows of an ordered selection of the table. *)
Lemma scan_prefix_facts (key : Row -> Z) (p : Row -> bool) rows n :
  NoDup rows ->
  let sel := take n (List.filter valid_token (order_by key (List.filter p rows))) in
  NoDup sel /\ (forall r, r ∈ sel -> r ∈ List.filter p rows)
  /\ tokens_valid sel.
Proof.
  intros Hnd sel. split; [|split].
  - eapply sublist_NoDup; [|apply sublist_take].
    apply NoDup_List_filter.
    rewrite order_by_Permutation. by apply NoDup_List_filter.
  - intros r Hr. eapply elem_of_sublist in Hr; [|apply sublist_take].
    eapply elem_of_sublist in Hr; [|apply filter_sublist].
    by rewrite order_by_Permutation in Hr.
  - apply Forall_forall. intros r Hr.
    eapply elem_of_sublist in Hr; [|apply sublist_take].
    apply list_elem_of_In, filter_In in Hr. tauto.
Qed.

Lemma filter_valid_all l : tokens_valid l -> List.filter valid_token l = l.
Proof.
  induction 1 as [|r l Hr _ IH]; simpl; [reflexivity|]. by rewrite Hr, IH.
Qed.

Lemma elem_of_filter_site site rows r :
  r ∈ List.filter (has_site site) rows -> r ∈ rows.
Proof. intros H. by eapply elem_of_sublist; [|apply filter_sublist]. Qed.

(** The outcome of [SelectCandidatesForPerSiteEviction] on a well-formed
    table: the candidates [sel] are distinct rows of the site, and they
    cover what has to go whenever every row of the site has a valid token. *)
Lemma SelectCandidatesForPerSiteEviction_Ok env d site max_size max_count keys toks cand :
  SelectCandidatesForPerSiteEviction env d site max_size max_count = Ok (keys, toks, cand) ->
  well_formed (dictionaries d) ->
  let S := List.filter (has_site site) (dictionaries d) in
  exists sel,
    keys = map id sel /\ toks = tokens_of sel /\ cand = SUM_size sel
    /\ NoDup sel /\ (forall r, r ∈ sel -> r ∈ S) /\ tokens_valid sel
    /\ 0 <= SUM_size sel
    /\ (tokens_valid S -> 0 <= max_count -> COUNT S - COUNT sel <= max_count)
    /\ (tokens_valid S -> 0 < max_size -> SUM_size S <= kInt64Max ->
        SUM_size S - SUM_size sel <= max_size)
    /\ (COUNT S <= max_count -> (max_size = 0 \/ SUM_size S <= max_size) ->
        SUM_size S <= kUint64Max -> sel = []).
Proof.
  intros H Hwf S.
  assert (well_formed S) as HwfS by (eapply well_formed_sublist; [apply filter_sublist|done]).
  pose proof (SUM_size_nonneg _ (wf_sizes _ HwfS)) as HS0.
  unfold SelectCandidatesForPerSiteEviction, GetDictionarySizePerSite,
    GetDictionaryCountPerSite, guard in H.
  destruct (IsSQLValid env GetDictionarySizePerSite_kQuery); [|discriminate].
  destruct (IsSQLValid env GetDictionaryCountPerSite_kQuery); [|discriminate].
  simpl in H. fold S in H.
  rewrite (size_per_site_sizes S (wf_sizes _ HwfS)) in H.
  set (size_per_site := if SUM_size S <=? kInt64Max then SUM_size S else 0) in H.
  assert (SUM_size S <= kInt64Max -> size_per_site = SUM_size S) as Hexact.
  { intros Hle. unfold size_per_site. by destruct (Z.leb_spec (SUM_size S) kInt64Max); [|lia]. }
  assert (0 <= size_per_site <= SUM_size S) as Hread.
  { unfold size_per_site. destruct (Z.leb_spec (SUM_size S) kInt64Max); lia. }
  destruct (_ && _) eqn:Ewithin.
  - injection H as Hk Ht Hc. subst keys toks cand. exists []. simpl.
    split_and!; try done; try constructor; try lia.
    all: try (intros r Hr; by apply elem_of_nil in Hr).
    all: try (intros _ _; unfold COUNT at 2; simpl; bool_to_Z; lia).
    all: intros _ Hms Hmax; rewrite (Hexact Hmax) in Ewithin; bool_to_Z; lia.
  - destruct (IsSQLValid env SelectCandidatesForPerSiteEviction_kQuery); [|discriminate].
    simpl in H.
    apply PerSiteCandidatesLoop_Ok in H as (n & Hk & Ht & Hc & Hend). simpl in *.
    set (sel := take n (List.filter valid_token (order_by last_used_time S))) in *.
    destruct (scan_prefix_facts last_used_time (has_site site) (dictionaries d) n
                (well_formed_NoDup _ Hwf)) as (Hnd & Hin & Hval).
    fold S in Hin, Hval. fold sel in Hnd, Hin, Hval.
    assert (Forall (fun r => 0 <= size r <= kInt64Max) sel) as Hszsel.
    { apply Forall_forall. intros r Hr. apply Hin in Hr.
      revert r Hr. apply Forall_forall. apply (wf_sizes _ HwfS). }
    rewrite (SUM_usize_sizes _ Hszsel) in *.
    subst keys toks cand. rewrite ?Z.add_0_l in *.
    rewrite (tokens_of_length _ Hval) in *.
    pose proof (SUM_size_nonneg _ Hszsel) as Hsel0.
    exists sel. split_and!; try done; try lia.
    + intros HvalS Hmc. destruct Hend as [[_ Hend]|Hend].
      * unfold COUNT in *.
        destruct (max_count <? Z.of_nat (length S)) eqn:E; bool_to_Z; lia.
      * rewrite (filter_valid_all (order_by last_used_time S)) in Hend
          by (by apply (tokens_valid_Permutation S); [symmetry; apply order_by_Permutation|]).
        rewrite Hend. unfold COUNT.
        rewrite (Permutation_length (order_by_Permutation last_used_time S)). lia.
    + intros HvalS Hms Hmax. destruct Hend as [[Hend _]|Hend].
      * rewrite (Hexact Hmax) in Hend.
        destruct (negb (max_size =? 0) && (max_size <? SUM_size S)) eqn:E.
        -- rewrite static_cast_int64_id in Hend
             by (unfold kInt64Min, kInt64Max in *; bool_to_Z; lia).
           lia.
        -- bool_to_Z. lia.
      * rewrite (filter_valid_all (order_by last_used_time S)) in Hend
          by (by apply (tokens_valid_Permutation S); [symmetry; apply order_by_Permutation|]).
        rewrite Hend.
        rewrite (SUM_size_Permutation _ _ (order_by_Permutation last_used_time S)). lia.
Qed.

(** *** Per-site eviction as a whole *)

Lemma MaybeEvictDictionariesForPerSiteLimit_Ok env d site max_size max_count
    total0 toks total d' :
  MaybeEvictDictionariesForPerSiteLimit env d site max_size max_count total0
  = Ok (toks, total, d') ->
  well_formed (dictionaries d) ->
  total0 = static_cast_uint64 (total_dict_size d) ->
  let S := List.filter (has_site site) (dictionaries d) in
  exists sel,
    toks = tokens_of sel /\ NoDup sel /\ (forall r, r ∈ sel -> r ∈ S) /\ tokens_valid sel
    /\ dictionaries d' = List.filter (not_selected (map id sel)) (dictionaries d)
    /\ sqlite_sequence d' = sqlite_sequence d
    /\ total = static_cast_uint64 (total_dict_size d')
    /\ total = total0 - SUM_size sel
    /\ 0 <= SUM_size sel
    /\ (consistent d -> consistent d')
    /\ (tokens_valid S -> 0 <= max_count -> COUNT S - COUNT sel <= max_count)
    /\ (tokens_valid S -> 0 < max_size -> SUM_size S <= kInt64Max ->
        SUM_size S - SUM_size sel <= max_size)
    /\ (COUNT S <= max_count -> (max_size = 0 \/ SUM_size S <= max_size) ->
        SUM_size S <= kUint64Max -> sel = []).
Proof.
  intros H Hwf Ht0 S. unfold MaybeEvictDictionariesForPerSiteLimit in H.
  destruct (SelectCandidatesForPerSiteEviction _ _ _ _ _) as [[[keys toks'] cand]| |] eqn:Esel;
    try discriminate. simpl in H.
  apply SelectCandidatesForPerSiteEviction_Ok in Esel
    as (sel & -> & -> & -> & Hnd & Hin & Hval & Hsel0 & Hcount & Hsize & Hnone); [|done].
  fold S in Hin, Hcount, Hsize, Hnone.
  destruct (negb _); [discriminate|].
  assert (forall r, r ∈ sel -> r ∈ dictionaries d) as Hin'.
  { intros r Hr. eapply elem_of_filter_site. by apply Hin. }
  destruct sel as [|r0 sel'] eqn:Esel.
  - simpl in H. injection H as <- <- <-.
    exists []. split_and!; try done; try lia.
    + simpl. rewrite filter_all_true; done.
    + simpl. lia.
  - rewrite <- Esel in *. assert (map id sel <> []) as Hne by (by rewrite Esel).
    destruct (map id sel) as [|k ks] eqn:Ek; [done|]. rewrite <- Ek in *. clear Hne.
    assert (H' : (d1 ← DeleteDictionariesByPrimaryKeys env d (map id sel);
                  '(total, d2) ← UpdateTotalDictionarySizeInMetaTable env d1 (- SUM_size sel);
                  mret (tokens_of sel, total, d2)) = Ok (toks, total, d')).
    { rewrite <- H. rewrite Ek. reflexivity. }
    clear H. simpl in H'.
    destruct (DeleteDictionariesByPrimaryKeys _ _ _) as [d1| |] eqn:Edel; try discriminate.
    simpl in H'. apply DeleteDictionariesByPrimaryKeys_Ok in Edel.
    destruct (UpdateTotalDictionarySizeInMetaTable _ _ _) as [[t d2]| |] eqn:Eupd;
      try discriminate.
    simpl in H'. injection H' as <- <- <-.
    apply UpdateTotalDictionarySizeInMetaTable_Ok in Eupd as (Ht & Hrange & ->).
    subst d1. simpl in *.
    pose proof (delete_selected_SUM _ _ Hwf Hnd Hin') as Hsum.
    exists sel. split_and!; try done.
    + by rewrite static_cast_uint64_int64.
    + lia.
    + unfold consistent. simpl. rewrite static_cast_uint64_int64 by done.
      lia.
Qed.

(** *** Insertion *)

Lemma has_key_row_key fo site h m r :
  has_key fo site h m r = true <-> row_key r = (fo, site, h, m).
Proof.
  unfold has_key, row_key. rewrite !andb_true_iff, !String.eqb_eq. split.
  - intros [[[-> ->] ->] ->]. reflexivity.
  - intros [= -> -> -> ->]. done.
Qed.

Lemma filter_key_none fo site h m rows :
  (fo, site, h, m) ∉ map row_key rows -> List.filter (has_key fo site h m) rows = [].
Proof.
  induction rows as [|r rows IH]; simpl; [done|].
  intros Hn. apply not_elem_of_cons in Hn as [Hr Hn].
  destruct (has_key fo site h m r) eqn:E.
  - apply has_key_row_key in E. congruence.
  - by apply IH.
Qed.

(** The unique index leaves at most one row per identity. *)
Lemma filter_key_unique fo site h m rows :
  NoDup (map row_key rows) ->
  List.filter (has_key fo site h m) rows = []
  \/ exists r0, List.filter (has_key fo site h m) rows = [r0].
Proof.
  induction rows as [|r rows IH]; simpl; [by left|].
  intros Hnd. apply NoDup_cons in Hnd as [Hr Hnd].
  destruct (has_key fo site h m r) eqn:E.
  - right. exists r. f_equal. apply filter_key_none.
    apply has_key_row_key in E. by rewrite <- E.
  - by apply IH.
Qed.

Lemma next_rowid_gt d r : r ∈ dictionaries d -> id r < next_rowid d.
Proof.
  unfold next_rowid. generalize (sqlite_sequence d).
  induction (dictionaries d) as [|x l IH]; intros s Hr; [by apply elem_of_nil in Hr|].
  apply elem_of_cons in Hr as [->|Hr]; simpl.
  - lia.
  - specialize (IH s Hr). lia.
Qed.

Lemma InsertOrReplace_well_formed d isolation_key dictionary_info :
  well_formed (dictionaries d) -> valid_info dictionary_info ->
  well_formed (dictionaries (InsertOrReplace d isolation_key dictionary_info)).
Proof.
  intros Hwf Hinfo. unfold InsertOrReplace. simpl.
  set (kept := List.filter _ (dictionaries d)).
  assert (kept `sublist_of` dictionaries d) as Hsub by apply filter_sublist.
  destruct (well_formed_sublist _ _ Hsub Hwf) as [H1 H2 H3].
  split.
  - rewrite map_app. simpl. apply NoDup_app. split_and!; [done| |apply NoDup_singleton].
    intros k Hk Hk'. apply list_elem_of_singleton in Hk'. subst k.
    apply list_elem_of_In, in_map_iff in Hk as (r & Hid & Hr).
    apply list_elem_of_In in Hr. eapply elem_of_sublist in Hr; [|exact Hsub].
    apply next_rowid_gt in Hr. lia.
  - rewrite map_app. simpl. apply NoDup_app. split_and!; [done| |apply NoDup_singleton].
    intros k Hk Hk'. apply list_elem_of_singleton in Hk'. subst k.
    apply list_elem_of_In, in_map_iff in Hk as (r & Hkey & Hr).
    apply filter_In in Hr as [_ Hr]. apply negb_true_iff in Hr.
    assert (has_key (key_frame_origin isolation_key) (key_top_frame_site isolation_key)
              (scheme_host_port (info_url dictionary_info)) (info_match dictionary_info) r
            = true) as Hr'; [|congruence].
    apply has_key_row_key. exact Hkey.
  - apply Forall_app. split; [done|]. constructor; [|constructor]. simpl.
    rewrite static_cast_int64_id; unfold valid_info, kInt64Min, kInt64Max in *; lia.
Qed.

(** The insertion changes the sum of the sizes by [size_delta], when the
    look-up has succeeded. *)
Lemma InsertOrReplace_SUM env d isolation_key dictionary_info :
  lookup_succeeds env = true ->
  well_formed (dictionaries d) -> valid_info dictionary_info ->
  SUM_size (dictionaries (InsertOrReplace d isolation_key dictionary_info))
  = SUM_size (dictionaries d) + size_delta env d isolation_key dictionary_info.
Proof.
  intros Hsql Hwf Hinfo. unfold InsertOrReplace, size_delta,
    GetExistingDictionarySizeAndDiskCacheKeyToken. simpl.
  apply andb_true_iff in Hsql as [-> ->]. simpl.
  set (p := has_key _ _ _ _).
  rewrite SUM_size_app. simpl.
  rewrite (SUM_size_filter p (dictionaries d)).
  rewrite (static_cast_int64_id (info_size dictionary_info))
    by (unfold valid_info, kInt64Min, kInt64Max in *; lia).
  destruct (filter_key_unique (key_frame_origin isolation_key)
              (key_top_frame_site isolation_key)
              (scheme_host_port (info_url dictionary_info))
              (info_match dictionary_info) (dictionaries d) (wf_keys _ Hwf))
    as [E|[r0 E]]; fold p in E; rewrite E; simpl.
  - lia.
  - assert (r0 ∈ dictionaries d) as Hr0.
    { eapply elem_of_sublist; [|apply (filter_sublist p)]. rewrite E. by left. }
    pose proof (proj1 (Forall_forall _ _) (wf_sizes _ Hwf) r0 Hr0) as Hs0. simpl in Hs0.
    rewrite static_cast_int64_id
      by (unfold valid_info, kInt64Min, kInt64Max in *; lia). lia.
Qed.

(** *** The registration transaction *)


Lemma RegisterDictionaryTransaction_Ok env d isolation_key dictionary_info
    max_size max_count result d' :
  RegisterDictionaryTransaction env d isolation_key dictionary_info max_size max_count
  = Ok (result, d') ->
  well_formed (dictionaries d) -> valid_info dictionary_info ->
  let d1 := InsertOrReplace d isolation_key dictionary_info in
  let S := List.filter (has_site (key_top_frame_site isolation_key)) (dictionaries d1) in
  exists sel,
    well_formed (dictionaries d')
    /\ dictionaries d' = List.filter (not_selected (map id sel)) (dictionaries d1)
    /\ NoDup sel /\ (forall r, r ∈ sel -> r ∈ S) /\ tokens_valid sel
    /\ evicted_disk_cache_key_tokens_ result = list_to_set (tokens_of sel)
    /\ total_dictionary_size_ result = static_cast_uint64 (total_dict_size d')
    /\ static_cast_uint64 (total_dict_size d')
       = static_cast_uint64 (total_dict_size d)
         + size_delta env d isolation_key dictionary_info - SUM_size sel
    /\ 0 <= SUM_size sel
    /\ (lookup_succeeds env = true -> consistent d -> consistent d')
    /\ (tokens_valid S -> 0 <= max_count -> COUNT S - COUNT sel <= max_count)
    /\ (tokens_valid S -> 0 < max_size -> SUM_size S <= kInt64Max ->
        SUM_size S - SUM_size sel <= max_size)
    /\ (COUNT S <= max_count -> (max_size = 0 \/ SUM_size S <= max_size) ->
        SUM_size S <= kUint64Max -> sel = []).
Proof.
  intros H Hwf Hinfo d1 S. unfold RegisterDictionaryTransaction, guard in H.
  destruct (IsSQLValid env RegisterDictionaryImpl_kQuery); [|discriminate].
  destruct (Run env _); [|discriminate]. simpl in H. fold d1 in H.
  destruct (UpdateTotalDictionarySizeInMetaTable _ _ _) as [[t d2]| |] eqn:Eupd;
    try discriminate. simpl in H.
  apply UpdateTotalDictionarySizeInMetaTable_Ok in Eupd as (Ht & Hrange & Hd2).
  destruct (MaybeEvictDictionariesForPerSiteLimit _ _ _ _ _ _) as [[[toks t'] d3]| |] eqn:Eev;
    try discriminate. simpl in H.
  unfold GetTotalDictionaryCount, guard in H.
  destruct (IsSQLValid env GetTotalDictionaryCount_kQuery); [|discriminate]. simpl in H.
  injection H as <- <-. simpl.
  pose proof (InsertOrReplace_well_formed d isolation_key dictionary_info Hwf Hinfo) as Hwf1.
  fold d1 in Hwf1.
  assert (dictionaries d2 = dictionaries d1) as Hrows2 by (by subst d2).
  apply MaybeEvictDictionariesForPerSiteLimit_Ok in Eev
    as (sel & -> & Hnd & Hin & Hval & Hrows & Hseq & Htot & Htot' & Hsel0 & Hcons'
        & Hcount & Hsize & Hnone).
  2:{ by rewrite Hrows2. }
  2:{ subst d2. simpl. by rewrite static_cast_uint64_int64. }
  rewrite Hrows2 in *. fold S in Hin, Hcount, Hsize, Hnone.
  exists sel. split_and!; try done.
  - rewrite Hrows. eapply well_formed_sublist; [apply filter_sublist | done].
  - unfold d1 in Ht. simpl in Ht. lia.
  - intros Hsql Hcons. apply Hcons'. subst d2. unfold consistent. simpl.
    rewrite static_cast_uint64_int64 by done.
    pose proof (InsertOrReplace_SUM env d isolation_key dictionary_info Hsql Hwf Hinfo)
      as Hsum.
    unfold consistent in Hcons. unfold d1 in Ht. simpl in Ht, Hsum |- *. lia.
Qed.

(** *** DoCommit only changes last-used times *)

Lemma retimes_id : retimes (fun r => r).
Proof. intros r. by destruct r. Qed.

Lemma retimes_compose f g : retimes f -> retimes g -> retimes (fun r => g (f r)).
Proof.
  intros Hf Hg r. etransitivity; [apply Hg|].
  generalize (last_used_time (g (f r))). intros t.
  unfold set_last_used_time. rewrite (Hf r). reflexivity.
Qed.

Lemma retimes_update pk t :
  retimes (fun r => if id r =? pk then set_last_used_time t r else r).
Proof. intros r. destruct (id r =? pk); by destruct r. Qed.

Section Retimed.
Variable f : Row -> Row.
Hypothesis Hf : retimes f.

Lemma retimes_map_id l : map id (map f l) = map id l.
Proof. rewrite map_map. apply map_ext. intros r. by rewrite (Hf r). Qed.

Lemma retimes_map_key l : map row_key (map f l) = map row_key l.
Proof. rewrite map_map. apply map_ext. intros r. by rewrite (Hf r). Qed.

Lemma retimes_SUM l : SUM_size (map f l) = SUM_size l.
Proof.
  induction l as [|r l IH]; simpl; [reflexivity|]. rewrite IH. by rewrite (Hf r).
Qed.



Lemma retimes_well_formed l : well_formed l -> well_formed (map f l).
Proof.
  intros [H1 H2 H3]. split.
  - by rewrite retimes_map_id.
  - by rewrite retimes_map_key.
  - clear H1 H2. induction H3 as [|r l Hr _ IH]; simpl; constructor; [|done].
    by rewrite (Hf r).
Qed.

End Retimed.

Lemma CommitDictionaryLastUsedTimeUpdates_Ok env d updates d' :
  CommitDictionaryLastUsedTimeUpdates env d updates = Ok d' ->
  exists f, retimes f /\ d' = set_dictionaries (map f (dictionaries d)) d.
Proof.
  revert d. induction updates as [|[pk t] updates IH]; intros d; simpl.
  - intros [= <-]. exists (fun r => r). split; [apply retimes_id|].
    rewrite map_id. symmetry. apply set_dictionaries_same.
  - unfold CommitDictionaryLastUsedTimeUpdate, guard.
    destruct (InitializeDatabase env); [|discriminate].
    destruct (IsSQLValid env _); [|discriminate].
    destruct (Run env _); [|discriminate]. simpl.
    intros H. apply IH in H as (g & Hg & ->). simpl.
    eexists. split; [apply (retimes_compose _ g (retimes_update pk t) Hg)|].
    unfold set_dictionaries. simpl. by rewrite map_map.
Qed.

(** [DoCommit] leaves a database that differs from the old one in
    last-used times only. *)
Lemma DoCommit_db env b :
  exists f, retimes f
    /\ db (DoCommit env b) = set_dictionaries (map f (dictionaries (db b))) (db b).
Proof.
  assert (exists f, retimes f /\ db b = set_dictionaries (map f (dictionaries (db b))) (db b))
    as Hsame.
  { exists (fun r => r). split; [apply retimes_id|].
    rewrite map_id. symmetry. apply set_dictionaries_same. }
  unfold DoCommit. destruct (decide _); [exact Hsame|].
  destruct (negb (Begin env)); [exact Hsame|].
  destruct (CommitDictionaryLastUsedTimeUpdates _ _ _) as [d'| |] eqn:E; try exact Hsame.
  destruct (Commit env); [|exact Hsame].
  apply CommitDictionaryLastUsedTimeUpdates_Ok in E as (f & Hf & ->).
  exists f. split; [exact Hf | reflexivity].
Qed.

Lemma DoCommit_well_formed env b :
  well_formed (dictionaries (db b)) -> well_formed (dictionaries (db (DoCommit env b))).
Proof.
  destruct (DoCommit_db env b) as (f & Hf & ->). simpl. by apply retimes_well_formed.
Qed.

Lemma DoCommit_consistent env b :
  consistent (db b) -> consistent (db (DoCommit env b)).
Proof.
  destruct (DoCommit_db env b) as (f & Hf & ->). unfold consistent. simpl.
  by rewrite retimes_SUM.
Qed.


(** *** The invariant of the store *)

Lemma store_invariant_CreateV1Schema : store_invariant CreateV1Schema.
Proof. split; [apply well_formed_nil | reflexivity]. Qed.

Lemma RegisterDictionaryImpl_invariant env b isolation_key dictionary_info max_size max_count :
  valid_info dictionary_info -> lookup_succeeds env = true -> store_invariant (db b) ->
  store_invariant
    (db (snd (RegisterDictionaryImpl env b isolation_key dictionary_info max_size max_count))).
Proof.
  intros Hinfo Hlookup [Hwf Hcons]. unfold RegisterDictionaryImpl.
  assert (store_invariant (db (DoCommit env b))) as [Hwf1 Hcons1].
  { split; [by apply DoCommit_well_formed | by apply DoCommit_consistent]. }
  destruct (max_count =? 0); simpl; [done|].
  destruct (negb (max_size =? 0) && (max_size <? info_size dictionary_info)); simpl; [done|].
  destruct (negb (InitializeDatabase env)); simpl; [done|].
  destruct (negb (Begin env)); simpl; [done|].
  destruct (RegisterDictionaryTransaction _ _ _ _ _ _) as [[result d']| |] eqn:E;
    simpl; try done.
  apply RegisterDictionaryTransaction_Ok in E as (sel & Hwf' & _ & _ & _ & _ & _ & _ & _ & _
                                                   & Hcons' & _); try done.
  destruct (Commit env); simpl; try done. split; [done | by apply Hcons'].
Qed.

Lemma filter_all_false (l : list Row) : List.filter (fun _ => negb true) l = [].
Proof. by induction l. Qed.

Lemma ClearAllDictionariesImpl_invariant env b :
  store_invariant (db b) -> store_invariant (db (snd (ClearAllDictionariesImpl env b))).
Proof.
  intros Hinv. unfold ClearAllDictionariesImpl.
  repeat match goal with |- context [if ?c then _ else _] => destruct c; simpl; try done end.
  unfold store_invariant, consistent. simpl. rewrite filter_all_false.
  split; [apply well_formed_nil | reflexivity].
Qed.

(** *** Clearing by time range *)

Lemma matched_rows_facts d start_time end_time url_matcher :
  NoDup (dictionaries d) ->
  let sel := matched_rows d start_time end_time url_matcher in
  NoDup sel /\ (forall r, r ∈ sel -> r ∈ dictionaries d).
Proof.
  intros Hnd sel. unfold sel, matched_rows. split.
  - apply NoDup_List_filter. rewrite order_by_Permutation. by apply NoDup_List_filter.
  - intros r Hr. eapply elem_of_sublist in Hr; [|apply filter_sublist].
    rewrite order_by_Permutation in Hr.
    by eapply elem_of_sublist; [|apply filter_sublist].
Qed.

Lemma Forall_sizes_elem rows sel :
  Forall (fun r => 0 <= size r <= kInt64Max) rows -> (forall r, r ∈ sel -> r ∈ rows) ->
  Forall (fun r => 0 <= size r <= kInt64Max) sel.
Proof.
  rewrite !Forall_forall. intros H Hin r Hr. by apply H, Hin.
Qed.

Lemma ClearDictionariesTransaction_invariant env d start_time end_time url_matcher tokens d' :
  ClearDictionariesTransaction env d start_time end_time url_matcher = Ok (tokens, d') ->
  store_invariant d -> store_invariant d'.
Proof.
  intros H [Hwf Hcons].
  unfold ClearDictionariesTransaction, SelectMatchingDictionaries, guard in H.
  destruct (IsSQLValid env _); [|discriminate]. simpl in H.
  destruct (matched_rows_facts d start_time end_time url_matcher (well_formed_NoDup _ Hwf))
    as [Hnd Hin].
  set (sel := matched_rows d start_time end_time url_matcher) in *.
  destruct (checked_sum_int64 sel) as [total|] eqn:Esum; [|discriminate]. simpl in H.
  apply checked_sum_int64_Some in Esum.
  rewrite (SUM_usize_sizes sel) in Esum by (by eapply Forall_sizes_elem; [apply Hwf|]).
  destruct (DeleteDictionariesByPrimaryKeys _ _ _) as [d1| |] eqn:Edel; try discriminate.
  simpl in H. apply DeleteDictionariesByPrimaryKeys_Ok in Edel.
  pose proof (delete_selected_SUM _ _ Hwf Hnd Hin) as Hsum.
  assert (well_formed (dictionaries d1)) as Hwf1.
  { subst d1. simpl. eapply well_formed_sublist; [apply filter_sublist | done]. }
  destruct (total =? 0) eqn:E0.
  - injection H as <- <-. split; [done|]. apply Z.eqb_eq in E0.
    subst d1. unfold consistent in *. simpl. lia.
  - destruct (UpdateTotalDictionarySizeInMetaTable _ _ _) as [[t d2]| |] eqn:Eupd;
      try discriminate.
    simpl in H. injection H as <- <-.
    apply UpdateTotalDictionarySizeInMetaTable_Ok in Eupd as (Ht & Hrange & ->).
    split; [done|]. subst d1. unfold consistent in *. simpl in *.
    rewrite static_cast_uint64_int64 by done. lia.
Qed.

Lemma ClearDictionariesImpl_invariant env b start_time end_time url_matcher :
  store_invariant (db b) ->
  store_invariant (db (snd (ClearDictionariesImpl env b start_time end_time url_matcher))).
Proof.
  intros [Hwf Hcons]. unfold ClearDictionariesImpl.
  assert (store_invariant (db (DoCommit env b))) as Hinv1.
  { split; [by apply DoCommit_well_formed | by apply DoCommit_consistent]. }
  destruct (negb (InitializeDatabase env)); simpl; [done|].
  destruct (negb (Begin env)); simpl; [done|].
  destruct (ClearDictionariesTransaction _ _ _ _ _) as [[tokens d']| |] eqn:E;
    simpl; try done.
  apply ClearDictionariesTransaction_invariant in E; [|done].
  by destruct (Commit env).
Qed.

(** *** Expiry *)

Lemma DeleteExpiredDictionariesTransaction_invariant env d now tokens d' :
  DeleteExpiredDictionariesTransaction env d now = Ok (tokens, d') ->
  store_invariant d -> store_invariant d'.
Proof.
  intros H [Hwf Hcons]. unfold DeleteExpiredDictionariesTransaction, guard in H.
  destruct (IsSQLValid env _); [|discriminate]. simpl in H.
  set (p := fun r => exp_time r <=? now) in *.
  destruct (checked_sum_int64 _) as [total|] eqn:Esum; [|discriminate].
  apply checked_sum_int64_Some in Esum.
  rewrite SUM_usize_sizes in Esum
    by (eapply Forall_sublist; [apply filter_sublist | apply Hwf]).
  pose proof (SUM_size_filter p (dictionaries d)) as Hsum.
  assert (well_formed (dictionaries (delete_where p d))) as Hwf1.
  { simpl. eapply well_formed_sublist; [apply filter_sublist | done]. }
  destruct (total =? 0) eqn:E0.
  - injection H as <- <-. split; [done|]. apply Z.eqb_eq in E0.
    unfold consistent in *. simpl. lia.
  - destruct (UpdateTotalDictionarySizeInMetaTable _ _ _) as [[t d2]| |] eqn:Eupd;
      try discriminate.
    simpl in H. injection H as <- <-.
    apply UpdateTotalDictionarySizeInMetaTable_Ok in Eupd as (Ht & Hrange & ->).
    split; [done|]. unfold consistent in *. simpl in *.
    rewrite static_cast_uint64_int64 by done. lia.
Qed.

Lemma DeleteExpiredDictionariesImpl_invariant env b now :
  store_invariant (db b) ->
  store_invariant (db (snd (DeleteExpiredDictionariesImpl env b now))).
Proof.
  intros Hinv. unfold DeleteExpiredDictionariesImpl.
  destruct (negb (InitializeDatabase env)); simpl; [done|].
  destruct (negb (Begin env)); simpl; [done|].
  destruct (DeleteExpiredDictionariesTransaction _ _ _) as [[tokens d']| |] eqn:E;
    simpl; try done.
  apply DeleteExpiredDictionariesTransaction_invariant in E; [|done].
  by destruct (Commit env).
Qed.

(** *** Global eviction *)

(** Whatever the loop of [SelectEvictionCandidates] returns is a prefix of
    the rows with a valid token, and the size it reports is what is left
    of [checked] once that prefix is gone. *)
Lemma EvictionCandidatesLoop_Ok rows :
  forall cache_max_size size_low_watermark to_be_removed_count keys toks out checked
         keys' toks' out',
  EvictionCandidatesLoop rows cache_max_size size_low_watermark to_be_removed_count
    keys toks out checked = Ok (keys', toks', out') ->
  exists n,
    let sel := take n (List.filter valid_token rows) in
    keys' = keys ++ map id sel /\ toks' = toks ++ tokens_of sel
    /\ (sel = [] -> out' = out)
    /\ (sel <> [] -> out' = checked - SUM_usize sel /\ 0 <= out' <= kInt64Max).
Proof.
  induction rows as [|r rows IH];
    intros cms low tbr keys toks out checked keys' toks' out'; simpl.
  - intros [= <- <- <-]. exists 0%nat. simpl. rewrite !app_nil_r. done.
  - destruct (ToUnguessableToken (token_high r) (token_low r)) as [tok|] eqn:Etok.
    + assert (valid_token r = true) as Ev by (unfold valid_token; by rewrite Etok).
      rewrite Ev.
      destruct (CheckedNumeric_uint64 _) as [t|] eqn:Et; [|discriminate].
      apply CheckedNumeric_uint64_Some in Et as [-> Hrange].
      destruct (negb (IsValueInRange_int64 _)) eqn:Er; [discriminate|].
      assert (0 <= checked - static_cast_uint64 (size r) <= kInt64Max) as Hr64.
      { unfold IsValueInRange_int64 in Er. bool_to_Z. lia. }
      destruct (_ && _) eqn:Estop.
      * intros [= <- <- <-]. exists 1%nat. simpl.
        unfold tokens_of; simpl; rewrite Etok. split_and!; try done.
        intros _. split; lia.
      * intros H. apply IH in H as (n & -> & -> & Hnil & Hcons).
        exists (S n). simpl. rewrite <- !app_assoc.
        unfold tokens_of; simpl; rewrite Etok. split_and!; try done.
        intros _. destruct (take n (List.filter valid_token rows)) as [|x l] eqn:E.
        -- rewrite Hnil by done. simpl. split; lia.
        -- destruct Hcons as [-> ?]; [done|]. split; [|done]. simpl. lia.
    + assert (valid_token r = false) as Ev by (unfold valid_token; by rewrite Etok).
      rewrite Ev.
      intros H. apply IH in H as (n & -> & -> & Hend). by exists n.
Qed.

Lemma scan_all_prefix_facts rows n :
  NoDup rows ->
  let sel := take n (List.filter valid_token (order_by last_used_time rows)) in
  NoDup sel /\ (forall r, r ∈ sel -> r ∈ rows).
Proof.
  intros Hnd sel. split.
  - eapply sublist_NoDup; [|apply sublist_take].
    apply NoDup_List_filter. by rewrite order_by_Permutation.
  - intros r Hr. eapply elem_of_sublist in Hr; [|apply sublist_take].
    eapply elem_of_sublist in Hr; [|apply filter_sublist].
    by rewrite order_by_Permutation in Hr.
Qed.

Lemma ProcessEvictionTransaction_invariant env d cache_max_size size_low_watermark
    cache_max_count count_low_watermark tokens d' :
  ProcessEvictionTransaction env d cache_max_size size_low_watermark cache_max_count
    count_low_watermark = Ok (tokens, Some d') ->
  store_invariant d -> store_invariant d'.
Proof.
  intros H [Hwf Hcons].
  unfold ProcessEvictionTransaction in H.
  destruct (SelectEvictionCandidates _ _ _ _ _ _) as [[[keys toks] out]| |] eqn:Esel;
    try discriminate. simpl in H.
  destruct (negb _); [discriminate|].
  destruct keys as [|k ks] eqn:Ek; [discriminate|]. rewrite <- Ek in *.
  assert (keys <> []) as Hne by (by rewrite Ek). clear Ek.
  assert (H' : (d1 ← DeleteDictionariesByPrimaryKeys env d keys;
                _ ← guard (SetValue env) kFailedToSetTotalDictSize;
                mret (toks, Some (set_total_dict_size out d1))) = Ok (tokens, Some d')).
  { destruct keys; [done | exact H]. }
  clear H. simpl in H'.
  destruct (DeleteDictionariesByPrimaryKeys _ _ _) as [d1| |] eqn:Edel; try discriminate.
  apply DeleteDictionariesByPrimaryKeys_Ok in Edel. simpl in H'.
  unfold guard in H'. destruct (SetValue env); [|discriminate]. simpl in H'.
  injection H' as <- <-.
  unfold SelectEvictionCandidates, GetTotalDictionarySizeImpl, GetTotalDictionaryCount,
    guard in Esel.
  destruct (InitializeDatabase env); [|discriminate].
  destruct (GetValue env); [|discriminate].
  destruct (IsSQLValid env GetTotalDictionaryCount_kQuery); [|discriminate]. simpl in Esel.
  destruct (_ && _); [injection Esel as <- <- <-; done|].
  destruct (IsSQLValid env SelectEvictionCandidates_kQuery); [|discriminate]. simpl in Esel.
  apply EvictionCandidatesLoop_Ok in Esel as (n & Hk & Ht & Hnil & Hcons'). simpl in *.
  destruct (scan_all_prefix_facts (dictionaries d) n (well_formed_NoDup _ Hwf))
    as [Hnd Hin].
  set (sel := take n (List.filter valid_token (order_by last_used_time (dictionaries d)))) in *.
  assert (sel <> []) as Hsel by (intros E; rewrite E in Hk; done).
  destruct (Hcons' Hsel) as [Hout Hrange].
  rewrite SUM_usize_sizes in Hout by (by eapply Forall_sizes_elem; [apply Hwf|]).
  pose proof (delete_selected_SUM _ _ Hwf Hnd Hin) as Hsum.
  subst d1 keys. split.
  - simpl. eapply well_formed_sublist; [apply filter_sublist | done].
  - unfold consistent in *. simpl. rewrite static_cast_uint64_id
      by (unfold kUint64Max, kInt64Max in *; lia). lia.
Qed.

Lemma ProcessEvictionImpl_invariant env b cache_max_size size_low_watermark
    cache_max_count count_low_watermark :
  store_invariant (db b) ->
  store_invariant (db (snd (ProcessEvictionImpl env b cache_max_size size_low_watermark
                              cache_max_count count_low_watermark))).
Proof.
  intros [Hwf Hcons]. unfold ProcessEvictionImpl.
  assert (store_invariant (db (DoCommit env b))) as Hinv1.
  { split; [by apply DoCommit_well_formed | by apply DoCommit_consistent]. }
  destruct (negb (InitializeDatabase env)); simpl; [done|].
  destruct (negb (Begin env)); simpl; [done|].
  destruct (ProcessEvictionTransaction _ _ _ _ _ _) as [[tokens [d'|]]| |] eqn:E;
    simpl; try done.
  apply ProcessEvictionTransaction_invariant in E; [|done].
  by destruct (Commit env).
Qed.

(** *** Deleting by token *)

Lemma checked_sum_uint64_acc rows acc total :
  foldl (fun acc r => v ← acc; CheckedNumeric_uint64 (v + static_cast_uint64 (size r)))
        acc rows = Some total ->
  exists v, acc = Some v /\ total = v + SUM_usize rows.
Proof.
  revert acc. induction rows as [|r rows IH]; intros acc; simpl.
  - intros ->. exists total. split; [done | lia].
  - intros H. apply IH in H as (v & Hv & ->).
    destruct acc as [a|]; [|discriminate]. simpl in Hv.
    apply CheckedNumeric_uint64_Some in Hv as [-> _].
    exists a. split; [done | lia].
Qed.

Lemma DeleteDictionariesByDiskCacheKeyTokensLoop_Ok env tokens :
  forall d acc acc' d',
  DeleteDictionariesByDiskCacheKeyTokensLoop env d tokens acc = Ok (acc', d') ->
  well_formed (dictionaries d) ->
  well_formed (dictionaries d')
  /\ total_dict_size d' = total_dict_size d
  /\ forall v', acc' = Some v' ->
       exists v, acc = Some v
                 /\ v' = v + (SUM_size (dictionaries d) - SUM_size (dictionaries d')).
Proof.
  induction tokens as [|t tokens IH]; intros d acc acc' d'; simpl.
  - intros [= <- <-] Hwf. split_and!; try done. intros v' ->. exists v'. split; [done|lia].
  - unfold DeleteDictionaryByDiskCacheToken, guard.
    destruct (InitializeDatabase env); [|discriminate].
    destruct (IsSQLValid env _); [|discriminate]. simpl.
    destruct (foldl _ _ _) as [res|] eqn:Eres; [|discriminate]. simpl.
    apply checked_sum_uint64_acc in Eres as (v0 & [= <-] & ->).
    intros H Hwf.
    assert (well_formed (dictionaries (delete_where (has_token t) d))) as Hwf1.
    { simpl. eapply well_formed_sublist; [apply filter_sublist | done]. }
    apply IH in H as (Hwf' & Htot & Hacc); [|done].
    split_and!; [done | by rewrite Htot |].
    intros v' Hv'. apply Hacc in Hv' as (v & Hv & ->).
    destruct acc as [a|]; [|discriminate]. simpl in Hv.
    apply CheckedNumeric_int64_Some in Hv as [-> _].
    exists a. split; [done|].
    rewrite SUM_usize_sizes
      by (eapply Forall_sublist; [apply filter_sublist | apply Hwf]).
    pose proof (SUM_size_filter (has_token t) (dictionaries d)). simpl. lia.
Qed.

Lemma DeleteDictionariesByDiskCacheKeyTokensTransaction_invariant env d tokens d' :
  DeleteDictionariesByDiskCacheKeyTokensTransaction env d tokens = Ok d' ->
  store_invariant d -> store_invariant d'.
Proof.
  intros H [Hwf Hcons]. unfold DeleteDictionariesByDiskCacheKeyTokensTransaction in H.
  destruct (DeleteDictionariesByDiskCacheKeyTokensLoop _ _ _ _) as [[checked d1]| |] eqn:E;
    try discriminate. simpl in H.
  apply DeleteDictionariesByDiskCacheKeyTokensLoop_Ok in E as (Hwf1 & Htot & Hacc); [|done].
  destruct checked as [deleted_size|]; [|discriminate].
  destruct (Hacc _ eq_refl) as (v & [= <-] & Hdel).
  destruct (deleted_size =? 0) eqn:E0.
  - injection H as <-. split; [done|]. apply Z.eqb_eq in E0.
    unfold consistent in *. rewrite Htot. lia.
  - destruct (UpdateTotalDictionarySizeInMetaTable _ _ _) as [[t d2]| |] eqn:Eupd;
      try discriminate.
    simpl in H. injection H as <-.
    apply UpdateTotalDictionarySizeInMetaTable_Ok in Eupd as (Ht & Hrange & ->).
    split; [done|]. unfold consistent in *. simpl in *.
    rewrite static_cast_uint64_int64 by done. rewrite Htot in Ht. lia.
Qed.

Lemma DeleteDictionariesByDiskCacheKeyTokensImpl_invariant env b tokens :
  store_invariant (db b) ->
  store_invariant (db (snd (DeleteDictionariesByDiskCacheKeyTokensImpl env b tokens))).
Proof.
  intros Hinv. unfold DeleteDictionariesByDiskCacheKeyTokensImpl.
  destruct (negb (InitializeDatabase env)); simpl; [done|].
  destruct (negb (Begin env)); simpl; [done|].
  destruct (DeleteDictionariesByDiskCacheKeyTokensTransaction _ _ _) as [d'| |] eqn:E;
    simpl; try done.
  apply DeleteDictionariesByDiskCacheKeyTokensTransaction_invariant in E; [|done].
  by destruct (Commit env).
Qed.

(** *** Sequences of calls *)

Lemma step_invariant b call :
  valid_call call -> store_invariant (db b) -> store_invariant (db (step b call)).
Proof.
  destruct call as [env op]. unfold valid_call, step. simpl.
  destruct op; intros Hvalid Hinv.
  - destruct Hvalid. by apply RegisterDictionaryImpl_invariant.
  - by apply ClearAllDictionariesImpl_invariant.
  - by apply ClearDictionariesImpl_invariant.
  - by apply DeleteExpiredDictionariesImpl_invariant.
  - by apply ProcessEvictionImpl_invariant.
  - by apply DeleteDictionariesByDiskCacheKeyTokensImpl_invariant.
  - exact Hinv.
  - destruct Hinv. split; [by apply DoCommit_well_formed | by apply DoCommit_consistent].
Qed.

Lemma run_invariant calls : forall b,
  Forall valid_call calls -> store_invariant (db b) -> store_invariant (db (run b calls)).
Proof.
  induction calls as [|call calls IH]; intros b Hvalid Hinv; simpl; [done|].
  apply Forall_cons in Hvalid as [Hc Hvalid].
  apply IH; [done|]. by apply step_invariant.
Qed.


(** *** Which assertions can fire *)

Lemma PerSiteCandidatesLoop_lengths rows :
  forall to_be_removed_size to_be_removed_count keys toks total,
  length keys = length toks ->
  match PerSiteCandidatesLoop rows to_be_removed_size to_be_removed_count keys toks total with
  | Ok (keys', toks', _) => length keys' = length toks'
  | Unexpected _ => True
  | Crash _ => False
  end.
Proof.
  induction rows as [|r rows IH]; intros ts tc keys toks total Hlen; simpl; [done|].
  destruct (ToUnguessableToken _ _); [|by apply IH].
  destruct (CheckedNumeric_int64 _); [|done].
  destruct (_ && _).
  - simpl. rewrite !length_app. simpl. lia.
  - apply IH. rewrite !length_app. simpl. lia.
Qed.

Lemma SelectCandidatesForPerSiteEviction_lengths env d site max_size max_count :
  match SelectCandidatesForPerSiteEviction env d site max_size max_count with
  | Ok (keys, toks, _) => length keys = length toks
  | Unexpected _ => True
  | Crash _ => False
  end.
Proof.
  unfold SelectCandidatesForPerSiteEviction, GetDictionarySizePerSite,
    GetDictionaryCountPerSite, guard.
  destruct (IsSQLValid env GetDictionarySizePerSite_kQuery); simpl; [|done].
  destruct (IsSQLValid env GetDictionaryCountPerSite_kQuery); simpl; [|done].
  destruct (_ && _); [done|].
  destruct (IsSQLValid env SelectCandidatesForPerSiteEviction_kQuery); simpl; [|done].
  by apply PerSiteCandidatesLoop_lengths.
Qed.

Lemma UpdateTotalDictionarySizeInMetaTable_no_Crash env d size_delta :
  ~ is_Crash (UpdateTotalDictionarySizeInMetaTable env d size_delta).
Proof.
  unfold UpdateTotalDictionarySizeInMetaTable, GetTotalDictionarySizeImpl, guard.
  destruct (InitializeDatabase env); simpl; [|tauto].
  destruct (GetValue env); simpl; [|tauto].
  destruct (CheckedNumeric_uint64 _); [|tauto].
  destruct (SetValue env); simpl; tauto.
Qed.

Lemma DeleteDictionariesByPrimaryKeys_no_Crash env keys : forall d,
  ~ is_Crash (DeleteDictionariesByPrimaryKeys env d keys).
Proof.
  induction keys as [|k keys IH]; intros d; simpl; [tauto|].
  unfold DeleteDictionaryByPrimaryKey, guard.
  destruct (IsSQLValid env _); simpl; [|tauto].
  destruct (Run env _); simpl; [|tauto]. apply IH.
Qed.

Lemma MaybeEvictDictionariesForPerSiteLimit_no_Crash env d site max_size max_count total :
  ~ is_Crash (MaybeEvictDictionariesForPerSiteLimit env d site max_size max_count total).
Proof.
  unfold MaybeEvictDictionariesForPerSiteLimit.
  pose proof (SelectCandidatesForPerSiteEviction_lengths env d site max_size max_count) as H.
  destruct (SelectCandidatesForPerSiteEviction _ _ _ _ _) as [[[keys toks] cand]| |];
    simpl; try tauto.
  rewrite H, Nat.eqb_refl. simpl.
  destruct keys as [|k ks]; [simpl; tauto|].
  pose proof (DeleteDictionariesByPrimaryKeys_no_Crash env (k :: ks) d) as Hdel.
  destruct (DeleteDictionariesByPrimaryKeys env d (k :: ks)) as [d1| |];
    simpl in *; try tauto.
  pose proof (UpdateTotalDictionarySizeInMetaTable_no_Crash env d1 (- cand)) as Hupd.
  destruct (UpdateTotalDictionarySizeInMetaTable _ _ _) as [[t d2]| |]; simpl; tauto.
Qed.

Lemma RegisterDictionaryTransaction_no_Crash env d isolation_key dictionary_info
    max_size max_count :
  ~ is_Crash (RegisterDictionaryTransaction env d isolation_key dictionary_info
                max_size max_count).
Proof.
  unfold RegisterDictionaryTransaction, guard.
  destruct (IsSQLValid env RegisterDictionaryImpl_kQuery); simpl; [|tauto].
  destruct (Run env _); simpl; [|tauto].
  pose proof (UpdateTotalDictionarySizeInMetaTable_no_Crash env
                (InsertOrReplace d isolation_key dictionary_info)
                (size_delta env d isolation_key dictionary_info)) as Hupd.
  destruct (UpdateTotalDictionarySizeInMetaTable _ _ _) as [[t d2]| |]; simpl; try tauto.
  pose proof (MaybeEvictDictionariesForPerSiteLimit_no_Crash env d2
                (key_top_frame_site isolation_key) max_size max_count t) as Hev.
  destruct (MaybeEvictDictionariesForPerSiteLimit _ _ _ _ _ _) as [[[toks t'] d3]| |];
    simpl; try tauto.
  unfold GetTotalDictionaryCount, guard.
  destruct (IsSQLValid env GetTotalDictionaryCount_kQuery); simpl; tauto.
Qed.

(** C10. [RegisterDictionaryImpl] checks [max_count_per_site != 0] before
    anything else: with 0 the call aborts on that CHECK whatever the other
    arguments, the store and the collaborators are, and nothing has been
    touched; with any other value the call returns a result or a typed
    error, so that CHECK (like every other one) does not fire. *)
Theorem C10_max_count_per_site_is_checked_first
    (env : Env) (b : Backend) (isolation_key : SharedDictionaryIsolationKey)
    (dictionary_info : SharedDictionaryInfo) (max_size_per_site max_count_per_site : Z) :
  RegisterDictionaryImpl env b isolation_key dictionary_info max_size_per_site 0
  = (Crash CHECK_NE_0_max_count_per_site, b)
  /\ (max_count_per_site <> 0 ->
      ~ is_Crash (fst (RegisterDictionaryImpl env b isolation_key dictionary_info
                         max_size_per_site max_count_per_site))).
Proof.
  split; [reflexivity|].
  intros Hmc. unfold RegisterDictionaryImpl.
  destruct (max_count_per_site =? 0) eqn:E; [apply Z.eqb_eq in E; done|].
  destruct (_ && _); simpl; [tauto|].
  destruct (negb (InitializeDatabase env)); simpl; [tauto|].
  destruct (negb (Begin env)); simpl; [tauto|].
  pose proof (RegisterDictionaryTransaction_no_Crash env (db (DoCommit env b))
                isolation_key dictionary_info max_size_per_site max_count_per_site) as H.
  destruct (RegisterDictionaryTransaction _ _ _ _ _ _) as [[result d']| |]; simpl; try tauto.
  destruct (Commit env); simpl; tauto.
Qed.

(** C4. A dictionary larger than a non-zero [max_size_per_site] is refused
    with [kTooBigDictionary] before the database is initialized, the
    pending updates are committed or a transaction is begun: the answer
    does not depend on the collaborators, and the backend (rows, RunningTotal
    and pending updates) is the one the call found. [max_count_per_site] is
    not 0, as the function requires. *)
Theorem C4_too_big_dictionary_is_refused_first
    (env : Env) (b : Backend) (isolation_key : SharedDictionaryIsolationKey)
    (dictionary_info : SharedDictionaryInfo) (max_size_per_site max_count_per_site : Z) :
  max_count_per_site <> 0 ->
  max_size_per_site <> 0 ->
  max_size_per_site < info_size dictionary_info ->
  RegisterDictionaryImpl env b isolation_key dictionary_info
    max_size_per_site max_count_per_site
  = (Unexpected kTooBigDictionary, b).
Proof.
  intros Hmc Hms Hbig. unfold RegisterDictionaryImpl.
  rewrite (proj2 (Z.eqb_neq _ _) Hmc), (proj2 (Z.eqb_neq _ _) Hms),
    (proj2 (Z.ltb_lt _ _) Hbig). reflexivity.
Qed.

(** *** What a successful registration went through *)

Lemma RegisterDictionaryImpl_Ok env b isolation_key dictionary_info max_size max_count
    result b' :
  RegisterDictionaryImpl env b isolation_key dictionary_info max_size max_count
  = (Ok result, b') ->
  max_count <> 0
  /\ IsSQLValid env RegisterDictionaryImpl_kQuery = true
  /\ exists d',
       RegisterDictionaryTransaction env (db (DoCommit env b)) isolation_key
         dictionary_info max_size max_count = Ok (result, d')
       /\ db b' = d'.
Proof.
  unfold RegisterDictionaryImpl.
  destruct (max_count =? 0) eqn:Emc; [discriminate|].
  destruct (_ && _); [discriminate|].
  destruct (negb (InitializeDatabase env)); [discriminate|].
  destruct (negb (Begin env)); [discriminate|].
  destruct (RegisterDictionaryTransaction _ _ _ _ _ _) as [[r d']| |] eqn:E;
    try discriminate.
  destruct (Commit env); [|discriminate].
  intros [= <- <-]. split; [by apply Z.eqb_neq|]. split.
  - unfold RegisterDictionaryTransaction, guard in E.
    by destruct (IsSQLValid env RegisterDictionaryImpl_kQuery).
  - by exists d'.
Qed.




(** *** The size delta of a registration *)


Lemma retimes_filter_identity f isolation_key dictionary_info l :
  retimes f ->
  List.filter (same_identity isolation_key dictionary_info) (map f l)
  = map f (List.filter (same_identity isolation_key dictionary_info) l).
Proof.
  intros Hf. induction l as [|r l IH]; simpl; [reflexivity|].
  assert (same_identity isolation_key dictionary_info (f r)
          = same_identity isolation_key dictionary_info r) as ->
    by (by rewrite (Hf r)).
  destruct (same_identity isolation_key dictionary_info r); simpl; by rewrite IH.
Qed.


Lemma same_identity_site isolation_key dictionary_info r :
  same_identity isolation_key dictionary_info r = true ->
  has_site (key_top_frame_site isolation_key) r = true.
Proof.
  unfold same_identity, has_key, has_site. intros H.
  apply andb_true_iff in H as [H _]. apply andb_true_iff in H as [H _].
  apply andb_true_iff in H as [_ H]. exact H.
Qed.



(** *** The sample store *)

Lemma sample_calls_valid :
  Forall valid_call
    [(env_ok, OpRegisterDictionary sample_key (sample_info "/a*" 100 1 7) 0 10);
     (env_ok, OpRegisterDictionary sample_key (sample_info "/b*" 50 2 8) 0 10)].
Proof.
  repeat constructor; unfold valid_call, valid_info, kInt64Max; simpl; lia.
Defined.

Lemma sample_store_invariant : store_invariant (db sample_store).
Proof.
  apply run_invariant; [apply sample_calls_valid | apply store_invariant_CreateV1Schema].
Defined.

Lemma sample_store_tokens_valid : tokens_valid (dictionaries (db sample_store)).
Proof. repeat constructor. Defined.

Lemma sample_store_sizes :
  Forall (fun r => 0 <= size r <= kInt64Max) (dictionaries (db sample_store)).
Proof. apply sample_store_invariant. Defined.

(** C1, counterexample. The store holds 150 bytes in 2 records; with
    cache_max_size 100 the size budget is exceeded, and with
    size_low_watermark 200 and count_low_watermark 10 the empty prefix
    already satisfies both conditions, so the shortest prefix that satisfies
    them is empty. [SelectEvictionCandidates] yields the least recently used
    record: its loop tests the conditions only after taking a record. *)
Lemma C1_counterexample_watermark_above_max :
  within_limits 100 10 (RunningTotal sample_store)
    (COUNT (dictionaries (db sample_store))) = false
  /\ shortest_prefix
       (eviction_done 100 200 10 (RunningTotal sample_store)
          (COUNT (dictionaries (db sample_store))))
       0 (order_by last_used_time (dictionaries (db sample_store))) = Some []
  /\ SelectEvictionCandidates env_ok (db sample_store) 100 200 10 10
     = Ok ([1], [(7, 7)], 50).
Proof. vm_compute. repeat split. Qed.

(** C1, witness: the sample store with cache_max_size 100 and
    size_low_watermark 60. *)
Lemma C1_witness :
  exists victims,
    shortest_prefix
      (eviction_done 100 60 10 (SUM_size (dictionaries (db sample_store)))
         (COUNT (dictionaries (db sample_store))))
      1 (order_by last_used_time (dictionaries (db sample_store))) = Some victims
    /\ SelectEvictionCandidates env_ok (db sample_store) 100 60 10 10
       = Ok (map id victims, tokens_of victims,
             SUM_size (dictionaries (db sample_store)) - SUM_size victims).
Proof.
  apply (C1_eviction_selects_shortest_nonempty_prefix env_ok (db sample_store) 100 60 10 10);
    try reflexivity; try lia.
  - apply sample_store_tokens_valid.
  - apply sample_store_sizes.
  - vm_compute. discriminate.
Defined.

(** The same request on the sample store: its low watermarks are not above
    its maxima. *)
Lemma eviction_selects_shortest_prefix_below_maxima_witness :
  exists victims,
    shortest_prefix
      (eviction_done 100 60 10 (SUM_size (dictionaries (db sample_store)))
         (COUNT (dictionaries (db sample_store))))
      0 (order_by last_used_time (dictionaries (db sample_store))) = Some victims
    /\ SelectEvictionCandidates env_ok (db sample_store) 100 60 10 10
       = Ok (map id victims, tokens_of victims,
             SUM_size (dictionaries (db sample_store)) - SUM_size victims).
Proof.
  apply (eviction_selects_shortest_prefix_below_maxima env_ok (db sample_store)
           100 60 10 10);
    try reflexivity; try lia.
  - apply sample_store_tokens_valid.
  - apply sample_store_sizes.
  - vm_compute. discriminate.
Defined.



(** *** Registrations on the sample store *)




(** C4, witness: a dictionary of 500 bytes with max_size_per_site 400. *)
Lemma C4_witness :
  RegisterDictionaryImpl env_ok sample_store sample_key (sample_info "/c*" 500 3 9) 400 10
  = (Unexpected kTooBigDictionary, sample_store).
Proof.
  apply (C4_too_big_dictionary_is_refused_first env_ok sample_store sample_key
           (sample_info "/c*" 500 3 9) 400 10); simpl; lia.
Defined.




(** *** Reading the dictionaries back *)

Lemma NoDup_map_inj {A B : Type} (f : A -> B) (l : list A) (x y : A) :
  NoDup (map f l) -> x ∈ l -> y ∈ l -> f x = f y -> x = y.
Proof.
  induction l as [|a l IH]; intros Hnd Hx Hy Heq; [by apply elem_of_nil in Hx|].
  cbn in Hnd. apply NoDup_cons in Hnd as [Ha Hnd].
  apply elem_of_cons in Hx as [->|Hx]; apply elem_of_cons in Hy as [->|Hy]; try done.
  - exfalso. apply Ha. rewrite Heq. by apply (list_elem_of_fmap_2 f).
  - exfalso. apply Ha. rewrite <- Heq. by apply (list_elem_of_fmap_2 f).
  - by apply IH.
Qed.

Lemma elem_of_List_filter {A : Type} (p : A -> bool) (l : list A) (x : A) :
  x ∈ List.filter p l <-> p x = true /\ x ∈ l.
Proof. rewrite !list_elem_of_In, filter_In. tauto. Qed.


(** What the result of a registration holds besides the totals. *)
Lemma RegisterDictionaryTransaction_result env d isolation_key dictionary_info
    max_size max_count result d' :
  RegisterDictionaryTransaction env d isolation_key dictionary_info max_size max_count
  = Ok (result, d') ->
  primary_key_in_database_ result = next_rowid d
  /\ replaced_disk_cache_key_token_ result
     = replaced_disk_cache_key_token env d isolation_key dictionary_info
  /\ total_dictionary_count_ result = COUNT (dictionaries d').
Proof.
  unfold RegisterDictionaryTransaction.
  destruct (IsSQLValid env RegisterDictionaryImpl_kQuery); [|discriminate].
  destruct (Run env _); [|discriminate].
  cbn [guard mbind Outcome_bind].
  destruct (UpdateTotalDictionarySizeInMetaTable _ _ _) as [[total d2]| |]; try discriminate.
  cbn [mbind Outcome_bind].
  destruct (MaybeEvictDictionariesForPerSiteLimit _ _ _ _ _ _) as [[[toks total'] d3]| |];
    try discriminate.
  cbn [mbind Outcome_bind].
  unfold GetTotalDictionaryCount.
  destruct (IsSQLValid env GetTotalDictionaryCount_kQuery); [|discriminate].
  cbn [guard mbind Outcome_bind mret Outcome_ret].
  intros [= <- <-]. done.
Qed.




Lemma DoCommit_pending env b :
  pending_last_used_time_updates_ (DoCommit env b) = ∅ /\ num_pending_ (DoCommit env b) = 0.
Proof. unfold DoCommit. repeat case_match; done. Qed.


(** *** Deleting by token, and the tokens that are left *)






(** *** What the global eviction leaves *)







(** *** Committing the last-used times *)

Lemma apply_pending_empty r : apply_pending ∅ r = r.
Proof. unfold apply_pending. by rewrite lookup_empty. Qed.

Lemma CommitDictionaryLastUsedTimeUpdates_applied env updates : forall d,
  InitializeDatabase env = true ->
  IsSQLValid env CommitDictionaryLastUsedTimeUpdate_kQuery = true ->
  Run env CommitDictionaryLastUsedTimeUpdate_kQuery = true ->
  NoDup updates.*1 ->
  CommitDictionaryLastUsedTimeUpdates env d updates
  = Ok (set_dictionaries
          (map (apply_pending (list_to_map updates)) (dictionaries d)) d).
Proof.
  intros d Hinit Hsql Hrun. revert d.
  induction updates as [|[k t] updates IH]; intros d Hnd; cbn.
  - f_equal. rewrite <- (set_dictionaries_same d) at 1. f_equal.
    rewrite <- (map_id (dictionaries d)) at 1. apply map_ext. intros r.
    by rewrite apply_pending_empty.
  - apply NoDup_cons in Hnd as [Hk Hnd].
    unfold CommitDictionaryLastUsedTimeUpdate. rewrite Hinit, Hsql, Hrun.
    cbn [guard mbind Outcome_bind mret Outcome_ret].
    rewrite IH by done. f_equal. cbn [dictionaries set_dictionaries].
    destruct d as [rows sq tot]. unfold set_dictionaries. cbn. f_equal.
    rewrite map_map. apply map_ext. intros r. unfold apply_pending.
    destruct (id r =? k) eqn:Hid.
    + apply Z.eqb_eq in Hid. subst k. cbn [id set_last_used_time].
      rewrite lookup_insert_eq.
      rewrite (not_elem_of_list_to_map_1 (M := gmap Z)) by done. done.
    + apply Z.eqb_neq in Hid. by rewrite lookup_insert_ne.
Qed.

Lemma CommitDictionaryLastUsedTimeUpdates_fails env d updates :
  updates <> [] ->
  InitializeDatabase env && IsSQLValid env CommitDictionaryLastUsedTimeUpdate_kQuery
  && Run env CommitDictionaryLastUsedTimeUpdate_kQuery = false ->
  exists e, CommitDictionaryLastUsedTimeUpdates env d updates = Unexpected e.
Proof.
  intros Hne Hfail. destruct updates as [|[k t] updates]; [done|]. cbn.
  unfold CommitDictionaryLastUsedTimeUpdate.
  destruct (InitializeDatabase env); cbn; [|eauto].
  destruct (IsSQLValid env _); cbn; [|eauto].
  destruct (Run env _); cbn; [discriminate|eauto].
Qed.

(** [DoCommit] is all or nothing. When every step of its transaction
    succeeds, each row whose id has a pending update gets that time as its
    last-used time, and nothing else changes; otherwise the database is as
    before. In both cases the pending updates are gone afterwards: an update
    that a failed commit has dropped is not tried again. *)
Theorem last_used_time_updates_are_committed_together (env : Env) (b : Backend) :
  db (DoCommit env b)
  = (if commit_succeeds env
     then set_dictionaries
            (map (apply_pending (pending_last_used_time_updates_ b)) (dictionaries (db b)))
            (db b)
     else db b)
  /\ pending_last_used_time_updates_ (DoCommit env b) = ∅
  /\ num_pending_ (DoCommit env b) = 0.
Proof.
  split; [|apply DoCommit_pending].
  unfold DoCommit.
  destruct (decide (pending_last_used_time_updates_ b = ∅)) as [Hempty|Hne].
  { cbn. rewrite Hempty. destruct (commit_succeeds env); [|done].
    rewrite <- (set_dictionaries_same (db b)) at 1. f_equal.
    rewrite <- (map_id (dictionaries (db b))) at 1. apply map_ext. intros r.
    by rewrite apply_pending_empty. }
  unfold commit_succeeds.
  destruct (Begin env); cbn; [|by rewrite !andb_false_r].
  rewrite andb_true_r.
  destruct (InitializeDatabase env && IsSQLValid env CommitDictionaryLastUsedTimeUpdate_kQuery
            && Run env CommitDictionaryLastUsedTimeUpdate_kQuery) eqn:Hok.
  - apply andb_true_iff in Hok as [Hok Hrun].
    apply andb_true_iff in Hok as [Hinit Hsql].
    rewrite CommitDictionaryLastUsedTimeUpdates_applied;
      [|done..|apply NoDup_fst_map_to_list].
    rewrite list_to_map_to_list. cbn. by destruct (Commit env).
  - destruct (CommitDictionaryLastUsedTimeUpdates_fails env (db b)
                (map_to_list (pending_last_used_time_updates_ b))) as [e ->]; [|done|done].
    intros Hnil. by apply map_to_list_empty_iff in Hnil.
Qed.

(** *** What a registration reports, and what it leaves alone *)

Lemma retimes_token f r :
  retimes f ->
  ToUnguessableToken (token_high (f r)) (token_low (f r))
  = ToUnguessableToken (token_high r) (token_low r).
Proof. intros Hf. by rewrite (Hf r). Qed.

(** The result of a successful registration describes the table that the
    call leaves: its count is the number of the stored dictionaries and its
    primary key is above every primary key the table held; when the look-up
    of the dictionary to replace has succeeded, its total size is the sum
    of the sizes of the stored dictionaries and its replaced token is the
    token of the dictionary that had the same identity, if there was one;
    when the look-up has failed, it reports no replaced token. *)
Theorem registration_result_describes_the_store
    (env : Env) (b b' : Backend) (isolation_key : SharedDictionaryIsolationKey)
    (dictionary_info : SharedDictionaryInfo) (max_size_per_site max_count_per_site : Z)
    (result : RegisterDictionaryResult) :
  store_invariant (db b) -> valid_info dictionary_info ->
  RegisterDictionaryImpl env b isolation_key dictionary_info
    max_size_per_site max_count_per_site = (Ok result, b') ->
  let existing :=
    List.filter (same_identity isolation_key dictionary_info) (dictionaries (db b)) in
  total_dictionary_count_ result = COUNT (dictionaries (db b'))
  /\ (forall r, r ∈ dictionaries (db b) -> id r < primary_key_in_database_ result)
  /\ (lookup_succeeds env = true ->
      total_dictionary_size_ result = SUM_size (dictionaries (db b'))
      /\ (existing = [] -> replaced_disk_cache_key_token_ result = None)
      /\ (forall r0, existing = [r0] ->
          replaced_disk_cache_key_token_ result
          = ToUnguessableToken (token_high r0) (token_low r0)))
  /\ (lookup_succeeds env = false -> replaced_disk_cache_key_token_ result = None).
Proof.
  intros [Hwf Hcons] Hinfo Hreg existing.
  destruct (RegisterDictionaryImpl_Ok _ _ _ _ _ _ _ _ Hreg) as (_ & _ & d' & Htx & Hdb).
  assert (Hwf1 : well_formed (dictionaries (db (DoCommit env b))))
    by by apply DoCommit_well_formed.
  assert (Hcons1 : consistent (db (DoCommit env b))) by by apply DoCommit_consistent.
  destruct (RegisterDictionaryTransaction_result _ _ _ _ _ _ _ _ Htx) as (Hpk & Hrep & Hcount).
  destruct (RegisterDictionaryTransaction_Ok _ _ _ _ _ _ _ _ Htx Hwf1 Hinfo)
    as (sel & _ & _ & _ & _ & _ & _ & Htotal & _ & _ & Hcons' & _).
  destruct (DoCommit_db env b) as (f & Hf & Hd).
  assert (Hex : List.filter (same_identity isolation_key dictionary_info)
                  (dictionaries (db (DoCommit env b))) = map f existing).
  { rewrite Hd. cbn. by apply retimes_filter_identity. }
  assert (Hget : lookup_succeeds env = true ->
                 GetExistingDictionarySizeAndDiskCacheKeyToken env (db (DoCommit env b))
                   isolation_key (scheme_host_port (info_url dictionary_info))
                   (info_match dictionary_info)
                 = match order_by id (map f existing) with
                   | [] => None
                   | r :: _ => Some (size r, ToUnguessableToken (token_high r) (token_low r))
                   end).
  { intros Hsql. apply andb_true_iff in Hsql as [Hsql Hstep].
    unfold GetExistingDictionarySizeAndDiskCacheKeyToken. rewrite Hsql, Hstep. cbn [negb].
    unfold same_identity in Hex. by rewrite Hex. }
  rewrite Hdb. split_and!.
  - done.
  - intros r Hr. rewrite Hpk.
    assert (Hfr : f r ∈ dictionaries (db (DoCommit env b))).
    { rewrite Hd. cbn. by apply (list_elem_of_fmap_2 f). }
    apply next_rowid_gt in Hfr. by rewrite (Hf r) in Hfr.
  - intros Hsql. specialize (Hget Hsql). split_and!.
    + rewrite Htotal. by apply Hcons'.
    + intros Hnil. rewrite Hrep. unfold replaced_disk_cache_key_token.
      by rewrite Hget, Hnil.
    + intros r0 Hone. rewrite Hrep. unfold replaced_disk_cache_key_token.
      rewrite Hget, Hone. cbn. by apply retimes_token.
  - intros Hsql. rewrite Hrep.
    unfold replaced_disk_cache_key_token, GetExistingDictionarySizeAndDiskCacheKeyToken.
    unfold lookup_succeeds in Hsql.
    destruct (IsSQLValid env _); [|done]. by destruct (Step env _).
Qed.

Lemma filter_filter_implied (p q : Row -> bool) l :
  (forall r, r ∈ l -> p r = true -> q r = true) ->
  List.filter p (List.filter q l) = List.filter p l.
Proof.
  induction l as [|r l IH]; intros H; cbn; [done|].
  assert (IH' : List.filter p (List.filter q l) = List.filter p l).
  { apply IH. intros r' Hr'. apply H. by right. }
  destruct (p r) eqn:Hp.
  - rewrite (H r) by (done || by left). cbn. by rewrite Hp, IH'.
  - destruct (q r); cbn; by rewrite ?Hp, IH'.
Qed.

(** A registration touches the dictionaries of its own top-frame site
    only: the rows of every other site are those that the call found (the
    pending last-used times committed), whatever the per-site eviction of
    the call removed. *)
Theorem registration_leaves_other_sites_alone
    (env : Env) (b b' : Backend) (isolation_key : SharedDictionaryIsolationKey)
    (dictionary_info : SharedDictionaryInfo) (max_size_per_site max_count_per_site : Z)
    (result : RegisterDictionaryResult) :
  well_formed (dictionaries (db b)) -> valid_info dictionary_info ->
  RegisterDictionaryImpl env b isolation_key dictionary_info
    max_size_per_site max_count_per_site = (Ok result, b') ->
  let other := fun r => negb (has_site (key_top_frame_site isolation_key) r) in
  List.filter other (dictionaries (db b'))
  = List.filter other (dictionaries (db (DoCommit env b))).
Proof.
  intros Hwf Hinfo Hreg other.
  destruct (RegisterDictionaryImpl_Ok _ _ _ _ _ _ _ _ Hreg) as (_ & Hsql & d' & Htx & Hdb).
  assert (Hwf1 : well_formed (dictionaries (db (DoCommit env b))))
    by by apply DoCommit_well_formed.
  destruct (RegisterDictionaryTransaction_Ok _ _ _ _ _ _ _ _ Htx Hwf1 Hinfo)
    as (sel & _ & Hrows & _ & Hsel & _).
  set (d := db (DoCommit env b)) in *.
  pose proof (wf_ids _ (InsertOrReplace_well_formed d isolation_key _ Hwf1 Hinfo)) as Hids.
  rewrite Hdb, Hrows.
  rewrite filter_filter_implied.
  - unfold InsertOrReplace. cbn [dictionaries]. rewrite List.filter_app. cbn [List.filter].
    assert (other (new_row (next_rowid d) isolation_key dictionary_info) = false) as ->.
    { unfold other, has_site, new_row. cbn. by rewrite String.eqb_refl. }
    rewrite app_nil_r. apply filter_filter_implied.
    intros r _ Hr. apply negb_true_iff, not_true_iff_false. intros Hk.
    apply same_identity_site in Hk. unfold other in Hr. by rewrite Hk in Hr.
  - intros r Hr Ho. unfold not_selected. apply negb_true_iff, not_true_iff_false.
    intros Hex. apply existsb_exists in Hex as (k & Hk & Heq). apply Z.eqb_eq in Heq.
    apply in_map_iff in Hk as (v & Hv & Hvin). apply list_elem_of_In in Hvin.
    apply Hsel in Hvin. apply elem_of_List_filter in Hvin as [Hsite Hvin].
    assert (r = v) as -> by (eapply (NoDup_map_inj id); [exact Hids|done..|congruence]).
    unfold other in Ho. by rewrite Hsite in Ho.
Qed.

(** *** Clearing and expiring *)







(** *** All dictionaries, grouped by isolation key *)









(** *** The sample store, read back and cleaned *)

(** The sample dictionary is registered in the sample store, with per-site
    limits of 120 bytes and 10 records. *)
Lemma sample_dictionary_registered :
  exists result,
    RegisterDictionaryImpl env_ok sample_store sample_key sample_dictionary 120 10
    = (Ok result,
       snd (RegisterDictionaryImpl env_ok sample_store sample_key sample_dictionary 120 10)).
Proof. vm_compute. eexists. reflexivity. Defined.

Lemma sample_dictionary_valid :
  valid_info sample_dictionary /\ valid_info_token sample_dictionary.
Proof.
  unfold valid_info, valid_info_token, kInt64Max, kUint64Max. cbn.
  repeat split; try lia. discriminate.
Defined.






Lemma registration_result_describes_the_store_witness :
  exists result,
    let b' := snd (RegisterDictionaryImpl env_ok sample_store sample_key
                     sample_dictionary 120 10) in
    total_dictionary_size_ result = SUM_size (dictionaries (db b'))
    /\ total_dictionary_count_ result = COUNT (dictionaries (db b'))
    /\ (forall r, r ∈ dictionaries (db sample_store) ->
        id r < primary_key_in_database_ result).
Proof.
  destruct sample_dictionary_registered as [result E]. exists result.
  destruct (registration_result_describes_the_store env_ok sample_store
              (snd (RegisterDictionaryImpl env_ok sample_store sample_key
                      sample_dictionary 120 10)) sample_key
              sample_dictionary 120 10 result sample_store_invariant
              (proj1 sample_dictionary_valid) E) as (H1 & H2 & H3 & _).
  destruct (H3 eq_refl) as (H4 & _).
  split_and!; [exact H4 | exact H1 | exact H2].
Defined.

Lemma registration_leaves_other_sites_alone_witness :
  let other := fun r => negb (has_site (key_top_frame_site sample_key) r) in
  List.filter other
    (dictionaries (db (snd (RegisterDictionaryImpl env_ok sample_store sample_key
                              sample_dictionary 120 10))))
  = List.filter other (dictionaries (db (DoCommit env_ok sample_store))).
Proof.
  destruct sample_dictionary_registered as [result E].
  apply (registration_leaves_other_sites_alone env_ok sample_store _ sample_key
           sample_dictionary 120 10 result);
    [apply sample_store_invariant | apply sample_dictionary_valid | exact E].
Defined.






(** *** The order of the per-site eviction *)








(** *** How often a commit is scheduled *)

(** A batch of last-used-time updates, from a backend with nothing pending
    and with no commit in between, schedules one delayed commit, with its
    first update, and then one immediate commit with every update from the
    hundredth on. All the updates are pending afterwards. (The batch is
    short enough for the size_t counter.) *)
Theorem commit_is_scheduled_once_per_batch (b : Backend) (updates : list (Z * Z)) :
  num_pending_ b = 0 -> updates <> [] ->
  Z.of_nat (length updates) <= kUint64Max ->
  let r := UpdateDictionaryLastUsedTimes b updates in
  r.2 = PostDelayedTask_Commit kCommitIntervalMs
        :: replicate (length updates - 99) PostBackgroundTask_Commit
  /\ num_pending_ r.1 = Z.of_nat (length updates)
  /\ forall update, update ∈ updates ->
       is_Some (pending_last_used_time_updates_ r.1 !! update.1).
Proof.
  intros Hzero Hne _. unfold UpdateDictionaryLastUsedTimes.
  assert (H : forall l,
            let r := foldl (fun acc update =>
                              let r := UpdateDictionaryLastUsedTimeAndSchedule
                                         acc.1 update.1 update.2 in
                              (r.1, acc.2 ++ r.2)) (b, []) l in
            num_pending_ r.1 = Z.of_nat (length l)
            /\ r.2 = match l with
                     | [] => []
                     | _ => PostDelayedTask_Commit kCommitIntervalMs
                            :: replicate (length l - 99) PostBackgroundTask_Commit
                     end
            /\ forall update, update ∈ l ->
                 is_Some (pending_last_used_time_updates_ r.1 !! update.1)).
  { induction l as [|x l IH] using rev_ind.
    { cbn. split_and!; [done..|]. intros u Hu. by apply elem_of_nil in Hu. }
    rewrite foldl_app. cbn [foldl]. cbv zeta in IH |- *.
    destruct IH as (Hn & Hposted & Hpending).
    set (acc := foldl _ (b, []) l) in *.
    unfold UpdateDictionaryLastUsedTimeAndSchedule. cbn [fst snd].
    unfold UpdateDictionaryLastUsedTime. cbn [num_pending_ pending_last_used_time_updates_].
    rewrite Hn, length_app. cbn [length].
    split_and!.
    - lia.
    - rewrite Hposted. destruct l as [|y l'].
      + cbn. done.
      + set (n := length (y :: l')) in *.
        assert (Hpos : (1 <= n)%nat) by (subst n; cbn [length]; lia).
        cbn [app].
        assert ((Z.of_nat n + 1 =? 1) = false) as -> by (apply Z.eqb_neq; lia).
        cbn [app]. f_equal.
        destruct (kCommitAfterBatchSize <=? Z.of_nat n + 1) eqn:Hb.
        * apply Z.leb_le in Hb. unfold kCommitAfterBatchSize in Hb.
          replace (n + 1 - 99)%nat with (S (n - 99)) by lia.
          by rewrite replicate_S_end.
        * apply Z.leb_gt in Hb. unfold kCommitAfterBatchSize in Hb.
          replace (n + 1 - 99)%nat with 0%nat by lia.
          replace (n - 99)%nat with 0%nat by lia.
          cbn. try rewrite app_nil_r. done.
    - intros u Hu. apply elem_of_app in Hu as [Hu|Hu].
      + destruct (decide (u.1 = x.1)) as [->|Hd].
        * rewrite lookup_insert_eq. by eexists.
        * rewrite lookup_insert_ne by done. by apply Hpending.
      + apply list_elem_of_singleton in Hu as ->. rewrite lookup_insert_eq. by eexists. }
  destruct (H updates) as (Hn & Hposted & Hpending).
  cbv zeta. split_and!; [|done..]. etrans; [exact Hposted|]. by destruct updates.
Qed.

(** A hundred and one updates. *)
Lemma commit_is_scheduled_once_per_batch_witness :
  (UpdateDictionaryLastUsedTimes sample_store (replicate 101 (1, 5))).2
  = PostDelayedTask_Commit kCommitIntervalMs :: replicate 2 PostBackgroundTask_Commit.
Proof.
  apply (commit_is_scheduled_once_per_batch sample_store (replicate 101 (1, 5)));
    [reflexivity | discriminate | by vm_compute].
Defined.

End StoreFacts.

(* ===================================================================== *)
(** ** The writers session: properties *)
(* ===================================================================== *)

Module WritersFacts.
Import Writers WritersSpec.

(** *** Removing a transaction *)

Ltac erase_cases :=
  unfold EraseTransaction_it; repeat (simpl in *; case_match); simpl in *; congruence.

Lemma EraseTransaction_it_all_writers t r w :
  all_writers_ (EraseTransaction_it t r w) = delete t (all_writers_ w).
Proof. erase_cases. Qed.

Lemma EraseTransaction_it_waiting t r w :
  waiting_for_read_ (EraseTransaction_it t r w)
  = if bool_decide (active_transaction_ w = Some t) then waiting_for_read_ w
    else delete t (waiting_for_read_ w).
Proof. erase_cases. Qed.

Lemma EraseTransaction_it_active t r w :
  active_transaction_ (EraseTransaction_it t r w)
  = if bool_decide (active_transaction_ w = Some t) then None else active_transaction_ w.
Proof. erase_cases. Qed.

Lemma EraseTransaction_it_removed t r w :
  removed_writers (EraseTransaction_it t r w) = removed_writers w ++ [(t, r)].
Proof. erase_cases. Qed.

Lemma EraseTransaction_it_posted t r w :
  posted_tasks (EraseTransaction_it t r w) = posted_tasks w.
Proof. erase_cases. Qed.

Lemma EraseTransaction_it_buffers t r w :
  buffers (EraseTransaction_it t r w) = buffers w.
Proof. erase_cases. Qed.

Lemma EraseTransaction_it_frame t r w :
  frame (EraseTransaction_it t r w) = frame w.
Proof. unfold frame. erase_cases. Qed.

(** *** Loops that return *)

(** A loop whose turns return under an invariant returns, and the
    invariant holds at its end. *)
Lemma for_each_invariant {A B : Type} (body : A -> B -> Run A)
    (P : list B -> A -> Prop) (l : list B) (a : A) :
  P l a ->
  (forall b l' a, P (b :: l') a -> exists a', body a b = Returned a' /\ P l' a') ->
  exists a', for_each body a l = Returned a' /\ P [] a'.
Proof.
  intros HP Hstep. revert a HP.
  induction l as [|b l IH]; intros a HP; simpl.
  - by exists a.
  - destruct (Hstep b l a HP) as (a1 & -> & HP1). simpl. by apply IH.
Qed.

(** *** Copies into buffers *)

Lemma take_eq_lookup {A : Type} (n : nat) (l k : list A) :
  take n l = take n k <-> forall i, (i < n)%nat -> l !! i = k !! i.
Proof.
  split.
  - intros H i Hi. rewrite <- (lookup_take_lt l n i), <- (lookup_take_lt k n i) by done.
    by rewrite H.
  - intros H. apply list_eq. intros i. rewrite !lookup_take.
    destruct (decide (i < n)%nat); [by apply H | done].
Qed.

Lemma buffer_data_write_bytes dst src n w b :
  buffer_data (write_bytes dst src n w) b
  = if decide (b = dst) then take n src ++ drop n (buffer_data w dst) else buffer_data w b.
Proof.
  unfold buffer_data, write_bytes. simpl.
  destruct (decide (b = dst)) as [->|Hne].
  - by rewrite lookup_insert_eq.
  - by rewrite lookup_insert_ne.
Qed.

(** Copying the first bytes of [src] into a buffer keeps every prefix that
    the buffer shares with [src]; it leaves [src] as it is when it is the
    buffer itself. *)
Lemma write_bytes_keeps_prefix dst src m w b (n : nat) :
  (m <= length src)%nat ->
  take n (buffer_data w b) = take n src ->
  take n (buffer_data (write_bytes dst src m w) b) = take n src.
Proof.
  intros Hm H. rewrite buffer_data_write_bytes.
  destruct (decide (b = dst)) as [->|]; [|done].
  apply take_eq_lookup. intros i Hi.
  rewrite take_eq_lookup in H. specialize (H i Hi).
  destruct (decide (i < m)%nat).
  - rewrite lookup_app_l by (rewrite length_take; lia). by apply lookup_take_lt.
  - rewrite lookup_app_r by (rewrite length_take; lia).
    rewrite length_take, lookup_drop.
    replace (m + (i - m `min` length src))%nat with i by lia. done.
Qed.

Lemma write_bytes_prefix dst src m w :
  (m <= length src)%nat ->
  take m (buffer_data (write_bytes dst src m w) dst) = take m src.
Proof.
  intros Hm. rewrite buffer_data_write_bytes, decide_True by done.
  rewrite take_app_le by (rewrite length_take; lia).
  rewrite take_take. f_equal. lia.
Qed.

Lemma write_bytes_self buf m w :
  buffer_data (write_bytes buf (buffer_data w buf) m w) buf = buffer_data w buf.
Proof. rewrite buffer_data_write_bytes, decide_True by done. apply take_drop. Qed.

(** *** Answering the waiting transactions *)

(** One turn of the loop. *)
Lemma CompleteWaitingForRead_Returned result w t waiting :
  (0 <= result -> is_Some (read_buf_ w) /\ 0 <= read_buf_len waiting) ->
  (result <= 0 -> is_Some (all_writers_ w !! t)) ->
  exists w',
    CompleteWaitingForRead result w (t, waiting) = Returned w'
    /\ posted_tasks w' = posted_tasks w ++ [(callback waiting, answer result waiting)]
    /\ waiting_for_read_ w' = delete t (waiting_for_read_ w)
    /\ all_writers_ w'
       = (if result <=? 0 then delete t (all_writers_ w) else all_writers_ w)
    /\ removed_writers w'
       = removed_writers w ++ (if result <=? 0 then [(t, result)] else [])
    /\ active_transaction_ w'
       = (if (result <=? 0) && bool_decide (active_transaction_ w = Some t)
          then None else active_transaction_ w)
    /\ frame w' = frame w
    /\ buffers w'
       = match read_buf_ w with
         | Some buf =>
             if 0 <=? result
             then buffers (write_bytes (read_buf waiting) (buffer_data w buf)
                             (Z.to_nat (Z.min (read_buf_len waiting) result)) w)
             else buffers w
         | None => buffers w
         end.
Proof.
  intros Hpos Hneg. unfold CompleteWaitingForRead, answer. simpl.
  destruct (0 <=? result) eqn:E0.
  - apply Z.leb_le in E0. destruct (Hpos E0) as [[buf Hbuf] Hlen].
    rewrite Hbuf. unfold memcpy.
    replace (Z.min (read_buf_len waiting) result <? 0) with false
      by (symmetry; apply Z.ltb_ge; lia).
    simpl. destruct (result <=? 0) eqn:E1.
    + apply Z.leb_le in E1. destruct (Hneg E1) as [info Hinfo].
      unfold EraseTransaction. simpl. rewrite Hinfo.
      eexists. split; [reflexivity|].
      rewrite EraseTransaction_it_posted, EraseTransaction_it_waiting,
        EraseTransaction_it_all_writers, EraseTransaction_it_removed,
        EraseTransaction_it_active, EraseTransaction_it_frame,
        EraseTransaction_it_buffers.
      simpl. split_and!; try done.
      case_bool_decide; [done | by rewrite delete_delete_eq].
    + eexists. split; [reflexivity|]. simpl. rewrite app_nil_r. by split_and!.
  - apply Z.leb_gt in E0. assert ((result <=? 0) = true) as -> by (apply Z.leb_le; lia).
    assert (result <= 0) as Hle by lia. destruct (Hneg Hle) as [info Hinfo].
    unfold EraseTransaction. simpl. rewrite Hinfo.
    eexists. split; [reflexivity|].
    rewrite EraseTransaction_it_posted, EraseTransaction_it_waiting,
      EraseTransaction_it_all_writers, EraseTransaction_it_removed,
      EraseTransaction_it_active, EraseTransaction_it_frame,
      EraseTransaction_it_buffers.
    simpl. split_and!; try done.
    + case_bool_decide; [done | by rewrite delete_delete_eq].
    + by destruct (read_buf_ w).
Qed.

(** What two sessions with the same frame share. *)
Ltac frame_fields H :=
  let H' := fresh in
  pose proof H as H'; unfold frame in H'; injection H' as ? ? ? ? ? ? ? ? ? ? ? ? ? ? ? ? ? ?.

(** Looking up in a map from which the transactions of a list go. *)
Lemma lookup_delete_elem_of {A : Type} (m : gmap Transaction A) (t t' : Transaction)
    (l : list Transaction) :
  (if bool_decide (t' ∈ l) then None else delete t m !! t')
  = (if bool_decide (t' ∈ t :: l) then None else m !! t').
Proof.
  destruct (decide (t' = t)) as [->|Hne].
  - rewrite lookup_delete_eq, (bool_decide_eq_true_2 (t ∈ t :: l)) by (by left).
    by destruct (bool_decide (t ∈ l)).
  - rewrite lookup_delete_ne by done.
    destruct (decide (t' ∈ l)) as [Hin|Hin].
    + rewrite (bool_decide_eq_true_2 (t' ∈ l)) by done.
      by rewrite (bool_decide_eq_true_2 (t' ∈ t :: l)) by (by right).
    + rewrite (bool_decide_eq_false_2 (t' ∈ l)) by done.
      rewrite (bool_decide_eq_false_2 (t' ∈ t :: l)); [done|].
      intros Hin'. apply elem_of_cons in Hin' as [?|?]; done.
Qed.

(** The whole loop, over entries with distinct transactions. *)
Lemma for_each_CompleteWaitingForRead result l :
  forall w,
  NoDup l.*1 ->
  (0 <= result -> is_Some (read_buf_ w) /\ Forall (fun e => 0 <= read_buf_len e.2) l) ->
  (result <= 0 -> Forall (fun e => is_Some (all_writers_ w !! e.1)) l) ->
  Forall (fun e => active_transaction_ w <> Some e.1) l ->
  exists w',
    for_each (CompleteWaitingForRead result) w l = Returned w'
    /\ posted_tasks w'
       = posted_tasks w ++ map (fun e => (callback e.2, answer result e.2)) l
    /\ (forall t, waiting_for_read_ w' !! t
                  = if bool_decide (t ∈ l.*1) then None else waiting_for_read_ w !! t)
    /\ (forall t, all_writers_ w' !! t
                  = if (result <=? 0) && bool_decide (t ∈ l.*1) then None
                    else all_writers_ w !! t)
    /\ removed_writers w'
       = removed_writers w ++ (if result <=? 0 then map (fun e => (e.1, result)) l else [])
    /\ active_transaction_ w' = active_transaction_ w
    /\ frame w' = frame w
    /\ (result < 0 -> buffers w' = buffers w)
    /\ (forall buf, read_buf_ w = Some buf -> 0 <= result ->
        (Z.to_nat result <= length (buffer_data w buf))%nat ->
        buffer_data w' buf = buffer_data w buf
        /\ (forall b n, take n (buffer_data w b) = take n (buffer_data w buf) ->
                        take n (buffer_data w' b) = take n (buffer_data w buf))
        /\ Forall (fun e => take (Z.to_nat (answer result e.2))
                              (buffer_data w' (read_buf e.2))
                            = take (Z.to_nat (answer result e.2)) (buffer_data w buf)) l).
Proof.
  induction l as [|[t waiting] l IH]; intros w Hnd Hpos Hneg Hact.
  - exists w. simpl. rewrite app_nil_r. split_and!; try done.
    + by destruct (result <=? 0).
    + by destruct (result <=? 0); rewrite ?app_nil_r.
  - rewrite fmap_cons in Hnd. apply NoDup_cons in Hnd as [Hnotin Hnd].
    apply Forall_cons in Hact as [Hact_t Hact].
    destruct (CompleteWaitingForRead_Returned result w t waiting)
      as (w1 & Hstep & Hposted & Hwait & Hall & Hrem & Hactive & Hframe & Hbuf).
    { intros Hres. destruct (Hpos Hres) as [? HF]. by apply Forall_cons in HF as [? _]. }
    { intros Hres. specialize (Hneg Hres). by apply Forall_cons in Hneg as [? _]. }
    frame_fields Hframe.
    assert (active_transaction_ w1 = active_transaction_ w) as Hactive1.
    { rewrite Hactive. rewrite bool_decide_eq_false_2 by done. by rewrite andb_false_r. }
    destruct (IH w1) as (w' & Hloop & Hposted' & Hwait' & Hall' & Hrem' & Hactive'
                         & Hframe' & Hbufneg' & Hbuf'); clear IH.
    { done. }
    { intros Hres. destruct (Hpos Hres) as [? HF]. apply Forall_cons in HF as [_ HF].
      split; [congruence | done]. }
    { intros Hres. specialize (Hneg Hres). apply Forall_cons in Hneg as [_ HF].
      rewrite Hall. assert ((result <=? 0) = true) as -> by (by apply Z.leb_le).
      apply Forall_forall. intros e He. rewrite Forall_forall in HF.
      rewrite lookup_delete_ne; [by apply HF|].
      intros ->. apply Hnotin. cbn [fst]. by apply (list_elem_of_fmap_2 fst). }
    { by rewrite Hactive1. }
    exists w'. split; [simpl; rewrite Hstep; exact Hloop|].
    rewrite !fmap_cons. cbn [map fst snd].
    split_and!.
    + rewrite Hposted', Hposted. by rewrite <- app_assoc.
    + intros t'. rewrite Hwait', Hwait. apply lookup_delete_elem_of.
    + intros t'. rewrite Hall', Hall.
      destruct (result <=? 0); simpl; [apply lookup_delete_elem_of | done].
    + rewrite Hrem', Hrem. destruct (result <=? 0); simpl; by rewrite <- app_assoc.
    + congruence.
    + congruence.
    + intros Hlt. rewrite Hbufneg' by done. rewrite Hbuf.
      destruct (read_buf_ w); [|done].
      by assert ((0 <=? result) = false) as -> by (apply Z.leb_gt; lia).
    + intros buf Hrb Hres Hlen.
      rewrite Hrb in Hbuf. assert ((0 <=? result) = true) as E0 by (by apply Z.leb_le).
      rewrite E0 in Hbuf.
      assert (forall b, buffer_data w1 b
                = buffer_data (write_bytes (read_buf waiting) (buffer_data w buf)
                    (Z.to_nat (Z.min (read_buf_len waiting) result)) w) b) as Hdata
        by (intros b; unfold buffer_data; by rewrite Hbuf).
      assert (buffer_data w1 buf = buffer_data w buf) as Hsrc.
      { rewrite Hdata, buffer_data_write_bytes.
        destruct (decide (buf = read_buf waiting)) as [<-|]; [apply take_drop | done]. }
      destruct (Hbuf' buf) as (Hsrc' & Hkeep' & Hall_l); [congruence | done | |].
      { by rewrite Hsrc. }
      rewrite Hsrc in Hsrc', Hkeep', Hall_l.
      assert (forall b n, take n (buffer_data w b) = take n (buffer_data w buf) ->
                take n (buffer_data w1 b) = take n (buffer_data w buf)) as Hkeep1.
      { intros b n Hb. rewrite Hdata. apply write_bytes_keeps_prefix; [lia | done]. }
      split_and!.
      * done.
      * intros b n Hb. by apply Hkeep', Hkeep1.
      * apply Forall_cons. split; [|done]. simpl.
        apply Hkeep'. rewrite Hdata. unfold answer. rewrite E0.
        apply write_bytes_prefix. lia.
Qed.

Lemma elem_of_fst_map_to_list {A : Type} (m : gmap Transaction A) (t : Transaction) :
  t ∈ (map_to_list m).*1 <-> is_Some (m !! t).
Proof.
  rewrite list_elem_of_fmap. split.
  - intros ([t' x] & -> & Hin). apply elem_of_map_to_list in Hin. by exists x.
  - intros [x Hx]. exists (t, x). split; [done|]. by apply elem_of_map_to_list.
Qed.

(** [CompleteWaitingForReadTransactions] returns on a session whose waiting
    transactions are attached when they are to be removed; it answers every
    waiting transaction, in the order of the map. *)
Lemma CompleteWaitingForReadTransactions_Returned result w :
  (0 <= result -> is_Some (read_buf_ w)) ->
  (forall t waiting, waiting_for_read_ w !! t = Some waiting -> 0 <= read_buf_len waiting) ->
  (result <= 0 ->
   forall t, is_Some (waiting_for_read_ w !! t) -> is_Some (all_writers_ w !! t)) ->
  (forall a, active_transaction_ w = Some a -> waiting_for_read_ w !! a = None) ->
  exists w',
    CompleteWaitingForReadTransactions result w = Returned w'
    /\ waiting_for_read_ w' = ∅
    /\ posted_tasks w'
       = posted_tasks w
         ++ map (fun e => (callback e.2, answer result e.2))
              (map_to_list (waiting_for_read_ w))
    /\ (forall t, all_writers_ w' !! t
                  = if (result <=? 0) && bool_decide (is_Some (waiting_for_read_ w !! t))
                    then None else all_writers_ w !! t)
    /\ removed_writers w'
       = removed_writers w
         ++ (if result <=? 0
             then map (fun e => (e.1, result)) (map_to_list (waiting_for_read_ w))
             else [])
    /\ active_transaction_ w' = active_transaction_ w
    /\ frame w' = frame w
    /\ (result < 0 -> buffers w' = buffers w)
    /\ (forall buf, read_buf_ w = Some buf -> 0 <= result ->
        (Z.to_nat result <= length (buffer_data w buf))%nat ->
        buffer_data w' buf = buffer_data w buf
        /\ (forall b n, take n (buffer_data w b) = take n (buffer_data w buf) ->
                        take n (buffer_data w' b) = take n (buffer_data w buf))
        /\ forall t waiting, waiting_for_read_ w !! t = Some waiting ->
             take (Z.to_nat (answer result waiting)) (buffer_data w' (read_buf waiting))
             = take (Z.to_nat (answer result waiting)) (buffer_data w buf)).
Proof.
  intros Hbuf Hlen Hatt Hact. unfold CompleteWaitingForReadTransactions.
  destruct (for_each_CompleteWaitingForRead result (map_to_list (waiting_for_read_ w)) w)
    as (w' & Hloop & Hposted & Hwait & Hall & Hrem & Hactive & Hframe & Hbufneg & Hbufs).
  - apply NoDup_fst_map_to_list.
  - intros Hres. split; [by apply Hbuf|].
    apply Forall_forall. intros [t waiting] Hin. apply elem_of_map_to_list in Hin.
    by apply (Hlen t).
  - intros Hres. apply Forall_forall. intros [t waiting] Hin.
    apply elem_of_map_to_list in Hin. apply Hatt; [done | by exists waiting].
  - apply Forall_forall. intros [t waiting] Hin. apply elem_of_map_to_list in Hin.
    intros Ha. apply Hact in Ha. simpl in Ha. congruence.
  - exists w'. split_and!; try done.
    + apply map_eq. intros t. rewrite Hwait, lookup_empty.
      case_bool_decide as Hin; [done|].
      rewrite elem_of_fst_map_to_list in Hin.
      by apply eq_None_not_Some.
    + intros t. rewrite Hall.
      destruct (result <=? 0); simpl; [|done].
      destruct (decide (is_Some (waiting_for_read_ w !! t))) as [Hs|Hs].
      * rewrite (bool_decide_eq_true_2 (is_Some _)) by done.
        by rewrite bool_decide_eq_true_2 by (by apply elem_of_fst_map_to_list).
      * rewrite (bool_decide_eq_false_2 (is_Some _)) by done.
        by rewrite bool_decide_eq_false_2 by (by rewrite elem_of_fst_map_to_list).
    + intros buf Hrb Hres Hsrc.
      destruct (Hbufs buf Hrb Hres Hsrc) as (H1 & H2 & H3).
      split_and!; try done.
      intros t waiting Hin. rewrite Forall_forall in H3.
      apply (H3 (t, waiting)). by apply elem_of_map_to_list.
Qed.

(** *** Removing the idle transactions *)

Lemma foldl_RemoveIdleWriters result l :
  forall w,
  let w' :=
    foldl (fun w entry =>
             if bool_decide (Some (fst entry) = active_transaction_ w) then w
             else EraseTransaction_it (fst entry) result w) w l in
  (forall t, all_writers_ w' !! t
             = if bool_decide (t ∈ (idle w l).*1) then None else all_writers_ w !! t)
  /\ (forall t, waiting_for_read_ w' !! t
                = if bool_decide (t ∈ (idle w l).*1) then None
                  else waiting_for_read_ w !! t)
  /\ removed_writers w' = removed_writers w ++ map (fun e => (e.1, result)) (idle w l)
  /\ active_transaction_ w' = active_transaction_ w
  /\ posted_tasks w' = posted_tasks w
  /\ buffers w' = buffers w
  /\ frame w' = frame w.
Proof.
  induction l as [|[t info] l IH]; intros w; simpl.
  - rewrite app_nil_r. by split_and!.
  - unfold idle. rewrite filter_cons. cbn [fst].
    case_bool_decide as Ht; cbn [fst] in Ht.
    + rewrite decide_False by congruence.
      apply IH.
    + rewrite decide_True by congruence.
      set (w1 := EraseTransaction_it t result w).
      assert (active_transaction_ w1 = active_transaction_ w) as Hactive1.
      { unfold w1. rewrite EraseTransaction_it_active.
        rewrite bool_decide_eq_false_2; [done | congruence]. }
      destruct (IH w1) as (Hall & Hwait & Hrem & Hactive & Hposted & Hbuf & Hframe).
      unfold idle in *. rewrite Hactive1 in *.
      rewrite fmap_cons. cbn [map fst].
      split_and!.
      * intros t'. rewrite Hall. unfold w1. rewrite EraseTransaction_it_all_writers.
        apply lookup_delete_elem_of.
      * intros t'. rewrite Hwait. unfold w1. rewrite EraseTransaction_it_waiting.
        rewrite (bool_decide_eq_false_2 (active_transaction_ w = Some t)) by congruence.
        apply lookup_delete_elem_of.
      * rewrite Hrem. unfold w1. rewrite EraseTransaction_it_removed.
        by rewrite <- app_assoc.
      * congruence.
      * rewrite Hposted. apply EraseTransaction_it_posted.
      * rewrite Hbuf. apply EraseTransaction_it_buffers.
      * rewrite Hframe. apply EraseTransaction_it_frame.
Qed.

Lemma elem_of_idle w (m : gmap Transaction TransactionInfo) t :
  t ∈ (idle w (map_to_list m)).*1
  <-> is_Some (m !! t) /\ active_transaction_ w <> Some t.
Proof.
  unfold idle. rewrite list_elem_of_fmap. split.
  - intros ([t' x] & -> & Hin). apply list_elem_of_filter in Hin as [Hne Hin].
    apply elem_of_map_to_list in Hin. split; [by exists x | done].
  - intros [[x Hx] Hne]. exists (t, x). split; [done|].
    apply list_elem_of_filter. split; [done | by apply elem_of_map_to_list].
Qed.

(** [RemoveIdleWriters] removes every transaction but the active one. *)
Lemma RemoveIdleWriters_spec result w :
  let w' := RemoveIdleWriters result w in
  (forall t, all_writers_ w' !! t
             = if bool_decide (active_transaction_ w = Some t) then all_writers_ w !! t
               else None)
  /\ (waiting_for_read_ w = ∅ -> waiting_for_read_ w' = ∅)
  /\ removed_writers w'
     = removed_writers w
       ++ map (fun e => (e.1, result)) (idle w (map_to_list (all_writers_ w)))
  /\ active_transaction_ w' = active_transaction_ w
  /\ posted_tasks w' = posted_tasks w
  /\ buffers w' = buffers w
  /\ frame w' = frame w.
Proof.
  unfold RemoveIdleWriters.
  destruct (foldl_RemoveIdleWriters result (map_to_list (all_writers_ w)) w)
    as (Hall & Hwait & Hrem & Hactive & Hposted & Hbuf & Hframe).
  split_and!; try done.
  - intros t. rewrite Hall.
    destruct (decide (active_transaction_ w = Some t)) as [Ha|Ha].
    + rewrite (bool_decide_eq_true_2 _ Ha).
      rewrite bool_decide_eq_false_2; [done|].
      rewrite elem_of_idle. by intros [_ ?].
    + rewrite (bool_decide_eq_false_2 _ Ha).
      destruct (all_writers_ w !! t) as [x|] eqn:Hx.
      * rewrite bool_decide_eq_true_2; [done|]. rewrite elem_of_idle, Hx. by split.
      * by case_bool_decide.
  - intros Hempty. apply map_eq. intros t. rewrite Hwait, Hempty, lookup_empty.
    by case_bool_decide.
Qed.

(** *** Truncation *)

(** [ShouldTruncate] answers [truncation_eligible]; it changes nothing but
    [should_keep_entry_], and nothing at all when it answers yes. *)
Lemma ShouldTruncate_Returned env w :
  (should_keep_entry_ w = true -> is_Some (headers (response_info_truncation_ w))) ->
  exists keep,
    ShouldTruncate env w
    = Returned (truncation_eligible env w, set_should_keep_entry_ keep w)
    /\ (truncation_eligible env w = true -> keep = should_keep_entry_ w)
    /\ (keep = true -> should_keep_entry_ w = true).
Proof.
  intros Hheaders. unfold ShouldTruncate, truncation_eligible.
  destruct (should_keep_entry_ w) eqn:Hkeep; simpl.
  2: { exists false. split_and!; [|done..]. by destruct w; simpl in *; subst. }
  destruct (partial_do_not_truncate_ w) eqn:Hpartial; simpl.
  { exists true. split_and!; [|done..]. by destruct w; simpl in *; subst. }
  destruct (Hheaders eq_refl) as [h ->].
  destruct (GetContentLength h <=? 0) eqn:E1; simpl.
  { exists false. assert ((0 <? GetContentLength h) = false) as -> by lia. done. }
  assert ((0 <? GetContentLength h) = true) as -> by lia. simpl.
  destruct (HasHeaderValue_Accept_Ranges_none h); simpl; [by exists false|].
  destruct (HasStrongValidators h); simpl; [|by exists false].
  destruct (GetDataSize env =? 0) eqn:E2; simpl.
  { exists false. by rewrite andb_false_r. }
  destruct (HasHeader_Content_Encoding h); simpl; [by exists false|].
  assert ((0 <=? GetContentLength h) = true) as -> by lia. simpl.
  destruct (GetContentLength h <=? GetDataSize env) eqn:E3.
  - exists true. assert ((GetDataSize env <? GetContentLength h) = false) as -> by lia.
    split; [|done]. by destruct w; simpl in *; subst.
  - exists true. assert ((GetDataSize env <? GetContentLength h) = true) as -> by lia.
    split; [|done]. by destruct w; simpl in *; subst.
Qed.

Lemma TruncateEntryIfShould_Returned env w :
  (should_keep_entry_ w = true -> is_Some (headers (response_info_truncation_ w))) ->
  exists w',
    TruncateEntryIfShould env w = Returned w'
    /\ info_writes w'
       = info_writes w ++ (if truncation_eligible env w then [true] else [])
    /\ (truncation_eligible env w = true -> should_keep_entry_ w' = should_keep_entry_ w)
    /\ (should_keep_entry_ w = false -> should_keep_entry_ w' = false)
    /\ all_writers_ w' = all_writers_ w
    /\ waiting_for_read_ w' = waiting_for_read_ w
    /\ active_transaction_ w' = active_transaction_ w
    /\ posted_tasks w' = posted_tasks w
    /\ removed_writers w' = removed_writers w
    /\ buffers w' = buffers w
    /\ next_state_ w' = next_state_ w
    /\ cache_notifications w' = cache_notifications w.
Proof.
  intros Hheaders. unfold TruncateEntryIfShould.
  destruct (ShouldTruncate_Returned env w Hheaders) as (keep & -> & Hkeep & Hkept). simpl.
  eexists. split; [reflexivity|].
  destruct (truncation_eligible env w) eqn:E; simpl; rewrite ?app_nil_r.
  - specialize (Hkeep eq_refl). split_and!; try done; congruence.
  - split_and!; try done. intros Hk. destruct keep; [|done]. by rewrite Hkept in Hk.
Qed.

Lemma truncation_eligible_frame env w w' :
  frame w' = frame w -> truncation_eligible env w' = truncation_eligible env w.
Proof.
  intros H. unfold frame in H.
  injection H as _ _ _ _ _ Hkeep _ Hpartial _ _ _ _ Hinfo _ _ _ _ _.
  unfold truncation_eligible. by rewrite Hkeep, Hpartial, Hinfo.
Qed.

(** *** A failed network read *)

Lemma EraseActiveTransaction_Returned result w :
  (forall a, active_transaction_ w = Some a -> is_Some (all_writers_ w !! a)) ->
  exists w',
    EraseActiveTransaction result w = Returned w'
    /\ active_transaction_ w' = None
    /\ all_writers_ w'
       = match active_transaction_ w with
         | Some a => delete a (all_writers_ w)
         | None => all_writers_ w
         end
    /\ waiting_for_read_ w' = waiting_for_read_ w
    /\ removed_writers w'
       = removed_writers w
         ++ match active_transaction_ w with Some a => [(a, result)] | None => [] end
    /\ posted_tasks w' = posted_tasks w
    /\ buffers w' = buffers w
    /\ frame w' = frame w.
Proof.
  intros Hatt. unfold EraseActiveTransaction.
  destruct (active_transaction_ w) as [a|] eqn:Ha.
  - destruct (Hatt a eq_refl) as [info Hinfo]. unfold EraseTransaction. rewrite Hinfo.
    simpl. eexists. split; [reflexivity|]. simpl.
    rewrite EraseTransaction_it_all_writers, EraseTransaction_it_waiting,
      EraseTransaction_it_removed, EraseTransaction_it_posted,
      EraseTransaction_it_buffers.
    rewrite bool_decide_eq_true_2 by done.
    pose proof (EraseTransaction_it_frame a result w) as Hframe.
    split_and!; try done.
  - simpl. eexists. split; [reflexivity|]. simpl. rewrite app_nil_r. by split_and!.
Qed.

(** [OnNetworkReadFailure] on an attached session, for a result that is an
    error or 0: every waiting transaction is answered, every transaction is
    told it is removed and is removed, the entry is marked as truncated when
    it is eligible, and the cache is to be told of the failure. *)
Lemma OnNetworkReadFailure_Returned env result w :
  attached w -> result <= 0 -> (0 <= result -> is_Some (read_buf_ w)) ->
  exists w',
    OnNetworkReadFailure env result w = Returned w'
    /\ all_writers_ w' = ∅ /\ waiting_for_read_ w' = ∅ /\ active_transaction_ w' = None
    /\ posted_tasks w'
       = posted_tasks w
         ++ map (fun e => (callback e.2, answer result e.2))
              (map_to_list (waiting_for_read_ w))
    /\ (forall x, x ∈ removed_writers w'
                  <-> x ∈ removed_writers w
                      \/ (x.2 = result /\ is_Some (all_writers_ w !! x.1)))
    /\ info_writes w'
       = info_writes w ++ (if truncation_eligible env w then [true] else [])
    /\ cache_callback_ w' = Some (false, should_keep_entry_ w', ∅)
    /\ (should_keep_entry_ w = false -> should_keep_entry_ w' = false)
    /\ next_state_ w' = next_state_ w
    /\ cache_notifications w' = cache_notifications w
    /\ (result < 0 -> buffers w' = buffers w)
    /\ (forall buf, read_buf_ w = Some buf -> buffer_data w' buf = buffer_data w buf).
Proof.
  intros [Hwatt0 Haatt0 Hanw0 Hlen Hheaders] Hres Hbuf.
  assert (forall t, is_Some (waiting_for_read_ w !! t) -> is_Some (all_writers_ w !! t))
    as Hwatt by (intros t Ht; by apply elem_of_dom, Hwatt0, elem_of_dom).
  assert (forall a, active_transaction_ w = Some a -> is_Some (all_writers_ w !! a))
    as Haatt by (intros a Ha; by apply elem_of_dom, Haatt0).
  assert (forall a, active_transaction_ w = Some a -> waiting_for_read_ w !! a = None)
    as Hanw by (intros a Ha; by apply not_elem_of_dom, Hanw0).
  unfold OnNetworkReadFailure, ProcessFailure.
  destruct (CompleteWaitingForReadTransactions_Returned result w)
    as (w1 & -> & Hwait1 & Hposted1 & Hall1 & Hrem1 & Hactive1 & Hframe1 & Hbuf1 & Hdata1);
    try done.
  { intros t waiting Ht. apply Hlen in Ht. lia. }
  assert ((result <=? 0) = true) as Eres by lia. rewrite Eres in Hall1, Hrem1.
  simpl in Hall1. cbn [mbind Run_bind mret Run_ret].
  destruct (RemoveIdleWriters_spec result w1)
    as (Hall2 & Hwait2 & Hrem2 & Hactive2 & Hposted2 & Hbuf2 & Hframe2).
  set (w2 := RemoveIdleWriters result w1) in *.
  specialize (Hwait2 Hwait1).
  destruct (EraseActiveTransaction_Returned result w2)
    as (w3 & -> & Hactive3 & Hall3 & Hwait3 & Hrem3 & Hposted3 & Hbuf3 & Hframe3).
  { intros a Ha. rewrite Hall2, Hactive1. rewrite Hactive2, Hactive1 in Ha.
    rewrite bool_decide_eq_true_2 by done. rewrite Hall1.
    rewrite (Hanw a Ha). rewrite bool_decide_eq_false_2 by (by intros [? ?]).
    by apply Haatt. }
  cbn [mbind Run_bind mret Run_ret].
  assert (frame w3 = frame w) as Hframe by congruence.
  frame_fields Hframe.
  destruct (TruncateEntryIfShould_Returned env w3)
    as (w4 & -> & Hinfo4 & _ & Hkeep4 & Hall4 & Hwait4 & Hactive4 & Hposted4 & Hrem4
        & Hbuf4 & Hstate4 & Hnot4).
  { intros Hk. replace (response_info_truncation_ w3) with (response_info_truncation_ w)
      by done. apply Hheaders. congruence. }
  cbn [mbind Run_bind mret Run_ret].
  eexists. split; [reflexivity|]. unfold SetCacheCallback. simpl.
  assert (all_writers_ w3 = ∅) as Hempty.
  { apply map_eq. intros t. rewrite lookup_empty, Hall3.
    rewrite Hactive2, Hactive1.
    destruct (active_transaction_ w) as [a|] eqn:Ha.
    - destruct (decide (t = a)) as [->|Hne]; [by rewrite lookup_delete_eq|].
      rewrite lookup_delete_ne by done. rewrite Hall2, Hactive1.
      rewrite bool_decide_eq_false_2; [done | congruence].
    - rewrite Hall2, Hactive1. by rewrite bool_decide_eq_false_2. }
  split_and!; try congruence.
  - intros [t r]. rewrite Hrem4, Hrem3, Hrem2, Hrem1, Hactive2, Hactive1.
    rewrite !elem_of_app, !list_elem_of_fmap. cbn [fst snd]. split.
    + intros [[[?|Hin]|Hin]|Hin]; [by left | right..].
      * destruct Hin as ([t' waiting] & [= -> ->] & Hin).
        apply elem_of_map_to_list in Hin. split; [done|]. apply Hwatt. by eexists.
      * destruct Hin as ([t' info] & [= -> ->] & Hin).
        assert (t' ∈ (idle w1 (map_to_list (all_writers_ w1))).*1) as Hin'
          by (by apply (list_elem_of_fmap_2 fst _ (t', info))).
        apply elem_of_idle in Hin' as [Hsome _]. split; [done|].
        rewrite Hall1 in Hsome. by case_bool_decide.
      * destruct (active_transaction_ w) as [a|] eqn:Ha; [|by apply elem_of_nil in Hin].
        apply list_elem_of_singleton in Hin as [= -> ->].
        split; [done | by apply Haatt].
    + intros [?|[-> Hsome]]; [by left; left; left|].
      destruct (waiting_for_read_ w !! t) as [waiting|] eqn:Hw.
      { left; left; right. exists (t, waiting). split; [done|].
        by apply elem_of_map_to_list. }
      destruct (decide (active_transaction_ w = Some t)) as [Ha|Ha].
      { right. rewrite Ha. by apply list_elem_of_singleton. }
      left; right.
      assert (t ∈ (idle w1 (map_to_list (all_writers_ w1))).*1) as Hin.
      { apply elem_of_idle. split; [|congruence]. rewrite Hall1, Hw.
        by rewrite bool_decide_eq_false_2 by (by intros [? ?]). }
      apply list_elem_of_fmap in Hin as ([t' info] & -> & Hin).
      by exists (t', info).
  - rewrite Hinfo4. replace (info_writes w3) with (info_writes w) by done.
    by rewrite (truncation_eligible_frame env w w3).
  - intros Hk. apply Hkeep4. congruence.
  - intros Hlt. rewrite Hbuf4, Hbuf3, Hbuf2. by apply Hbuf1.
  - intros buf Hrb. unfold buffer_data. simpl. rewrite Hbuf4, Hbuf3, Hbuf2.
    fold (buffer_data w1 buf) (buffer_data w buf).
    destruct (decide (result < 0)) as [Hlt|Hge].
    + unfold buffer_data. by rewrite Hbuf1.
    + assert (result = 0) as -> by lia. by apply (Hdata1 buf Hrb); [lia | simpl; lia].
Qed.

Lemma attached_set_next_state_ state w : attached w -> attached (set_next_state_ state w).
Proof. by intros []. Qed.

(** C8. When the network read of an attached session completes with an
    error [E < 0], [DoNetworkReadComplete] returns [E]; a task is posted
    for the callback of every waiting transaction with [E], and for no
    other; every transaction of the session (waiting, idle or active) is
    told [WriterAboutToBeRemovedFromEntry(E)] and the session is left
    without transactions; the response info is written with the truncated
    flag exactly when [truncation_eligible] holds, and the cache is to be
    told that writing failed. *)
Theorem C8_network_read_error_fails_and_removes_everyone
    (env : Env) (E : Z) (w : Writers) :
  attached w -> E < 0 ->
  exists w',
    DoNetworkReadComplete env E w = Returned (E, w')
    /\ posted_tasks w'
       = posted_tasks w
         ++ map (fun e => (callback e.2, E)) (map_to_list (waiting_for_read_ w))
    /\ (forall t waiting, waiting_for_read_ w !! t = Some waiting ->
          (callback waiting, E) ∈ posted_tasks w')
    /\ (forall t, t ∈ dom (all_writers_ w) -> (t, E) ∈ removed_writers w')
    /\ all_writers_ w' = ∅ /\ waiting_for_read_ w' = ∅ /\ active_transaction_ w' = None
    /\ info_writes w'
       = info_writes w ++ (if truncation_eligible env w then [true] else [])
    /\ cache_callback_ w' = Some (false, should_keep_entry_ w', ∅)
    /\ next_state_ w' = NONE.
Proof.
  intros Hatt HE. unfold DoNetworkReadComplete.
  assert ((E <? 0) = true) as -> by lia.
  destruct (OnNetworkReadFailure_Returned env E (set_next_state_ NONE w))
    as (w' & -> & Hall & Hwait & Hactive & Hposted & Hrem & Hinfo & Hcb & _ & Hstate & _ & _ & _);
    [by apply attached_set_next_state_ | lia | lia |].
  simpl in Hposted, Hrem, Hinfo, Hstate.
  assert (map (fun e : Transaction * WaitingForRead => (callback e.2, answer E e.2))
            (map_to_list (waiting_for_read_ w))
          = map (fun e => (callback e.2, E)) (map_to_list (waiting_for_read_ w))) as Hanswer.
  { apply map_ext. intros e. unfold answer.
    by assert ((0 <=? E) = false) as -> by lia. }
  rewrite Hanswer in Hposted.
  exists w'. split; [done|]. split_and!; try done.
  - intros t waiting Ht. rewrite Hposted. apply elem_of_app. right.
    apply (list_elem_of_fmap_2 (fun e : Transaction * WaitingForRead => (callback e.2, E))
             _ (t, waiting)).
    by apply elem_of_map_to_list.
  - intros t Ht. apply Hrem. right. split; [done | by apply elem_of_dom].
Qed.

(** *** The sample sessions are attached *)

Lemma second_waits_attached : attached second_waits.
Proof.
  split.
  - compute_done.
  - intros a Ha. vm_compute in Ha. injection Ha as <-. compute_done.
  - intros a Ha. vm_compute in Ha. injection Ha as <-. compute_done.
  - intros t waiting Ht. apply elem_of_map_to_list in Ht. vm_compute in Ht.
    apply list_elem_of_singleton in Ht as [= -> ->]. by vm_compute.
  - intros _. by eexists.
Defined.

(** C8, witness: the network read of the sample session fails with -100
    while transaction 2 waits and transaction 3 is idle. *)
Lemma C8_witness :
  exists w',
    DoNetworkReadComplete (sample_env ReadPending 500 0 true) (-100) second_waits
    = Returned (-100, w')
    /\ posted_tasks w'
       = posted_tasks second_waits
         ++ map (fun e => (callback e.2, -100))
              (map_to_list (waiting_for_read_ second_waits))
    /\ (forall t waiting, waiting_for_read_ second_waits !! t = Some waiting ->
          (callback waiting, -100) ∈ posted_tasks w')
    /\ (forall t, t ∈ dom (all_writers_ second_waits) -> (t, -100) ∈ removed_writers w')
    /\ all_writers_ w' = ∅ /\ waiting_for_read_ w' = ∅ /\ active_transaction_ w' = None
    /\ info_writes w'
       = info_writes second_waits
         ++ (if truncation_eligible (sample_env ReadPending 500 0 true) second_waits
             then [true] else [])
    /\ cache_callback_ w' = Some (false, should_keep_entry_ w', ∅)
    /\ next_state_ w' = NONE.
Proof.
  apply (C8_network_read_error_fails_and_removes_everyone
           (sample_env ReadPending 500 0 true) (-100) second_waits);
    [apply second_waits_attached | lia].
Defined.

(** C9. [StopCaching] on a session that does not have exactly one
    transaction (more than one, or none) returns false and leaves the
    session as it is. With exactly one transaction it returns true and
    sets [network_read_only_]; [should_keep_entry_] is cleared and the
    cache is told to doom the entry exactly when [keep_entry] is false;
    the transactions of the session stay as they are. *)
Theorem C9_stop_caching_needs_a_single_writer (keep_entry : bool) (w : Writers) :
  (size (all_writers_ w) <> 1%nat -> StopCaching keep_entry w = (false, w))
  /\ (size (all_writers_ w) = 1%nat ->
      exists w',
        StopCaching keep_entry w = (true, w')
        /\ network_read_only_ w' = true
        /\ should_keep_entry_ w' = keep_entry && should_keep_entry_ w
        /\ cache_notifications w'
           = cache_notifications w
             ++ (if keep_entry then [] else [WritersDoomEntryRestartTransactions])
        /\ all_writers_ w' = all_writers_ w
        /\ waiting_for_read_ w' = waiting_for_read_ w
        /\ active_transaction_ w' = active_transaction_ w
        /\ next_state_ w' = next_state_ w
        /\ content_writes w' = content_writes w
        /\ info_writes w' = info_writes w).
Proof.
  unfold StopCaching. split.
  - intros Hsize. by rewrite (proj2 (Nat.eqb_neq _ _) Hsize).
  - intros ->. simpl. destruct keep_entry; simpl.
    + eexists. split; [reflexivity|]. simpl. rewrite app_nil_r. by split_and!.
    + eexists. split; [reflexivity|]. simpl. by split_and!.
Qed.

(** *** A failed cache write *)

(** [OnCacheWriteFailure] on an attached session: the waiting transactions
    are answered [ERR_CACHE_WRITE_FAILURE] and every transaction but the
    active one is removed; the session only reads from the network from
    then on and its entry is not to be kept. *)
Lemma OnCacheWriteFailure_Returned w :
  attached w ->
  exists w',
    OnCacheWriteFailure w = Returned w'
    /\ network_read_only_ w' = true /\ should_keep_entry_ w' = false
    /\ active_transaction_ w' = None /\ waiting_for_read_ w' = ∅
    /\ posted_tasks w'
       = posted_tasks w
         ++ map (fun e => (callback e.2, ERR_CACHE_WRITE_FAILURE))
              (map_to_list (waiting_for_read_ w))
    /\ (forall t, all_writers_ w' !! t
                  = if bool_decide (active_transaction_ w = Some t)
                    then all_writers_ w !! t else None)
    /\ write_len_ w' = write_len_ w /\ next_state_ w' = next_state_ w
    /\ content_writes w' = content_writes w /\ info_writes w' = info_writes w
    /\ buffers w' = buffers w /\ callback_ w' = callback_ w
    /\ run_callbacks w' = run_callbacks w /\ read_buf_ w' = read_buf_ w.
Proof.
  intros [Hwatt0 Haatt0 Hanw0 Hlen Hheaders].
  unfold OnCacheWriteFailure, ProcessFailure.
  destruct (CompleteWaitingForReadTransactions_Returned ERR_CACHE_WRITE_FAILURE w)
    as (w1 & -> & Hwait1 & Hposted1 & Hall1 & Hrem1 & Hactive1 & Hframe1 & Hbuf1 & _).
  { unfold ERR_CACHE_WRITE_FAILURE. lia. }
  { intros t waiting Ht. apply Hlen in Ht. lia. }
  { intros _ t Ht. by apply elem_of_dom, Hwatt0, elem_of_dom. }
  { intros a Ha. by apply not_elem_of_dom, Hanw0. }
  cbn [mbind Run_bind mret Run_ret].
  destruct (RemoveIdleWriters_spec ERR_CACHE_WRITE_FAILURE w1)
    as (Hall2 & Hwait2 & Hrem2 & Hactive2 & Hposted2 & Hbuf2 & Hframe2).
  set (w2 := RemoveIdleWriters ERR_CACHE_WRITE_FAILURE w1) in *.
  assert (frame w2 = frame w) as Hframe by congruence.
  frame_fields Hframe.
  eexists. split; [reflexivity|].
  assert (forall t, all_writers_ w2 !! t
                    = if bool_decide (active_transaction_ w = Some t)
                      then all_writers_ w !! t else None) as Hall.
  { intros t. rewrite Hall2, Hactive1. case_bool_decide as Ha; [|done].
    rewrite Hall1. simpl.
    rewrite bool_decide_eq_false_2; [done|].
    intros Hs. apply elem_of_dom in Hs. by apply (Hanw0 t). }
  assert (map (fun e : Transaction * WaitingForRead =>
                 (callback e.2, answer ERR_CACHE_WRITE_FAILURE e.2))
            (map_to_list (waiting_for_read_ w))
          = map (fun e => (callback e.2, ERR_CACHE_WRITE_FAILURE))
              (map_to_list (waiting_for_read_ w))) as Hanswer by done.
  assert (buffers w2 = buffers w) as Hbuf.
  { rewrite Hbuf2. apply Hbuf1. unfold ERR_CACHE_WRITE_FAILURE. lia. }
  specialize (Hwait2 Hwait1).
  case_bool_decide; unfold SetCacheCallback; simpl;
    (split_and!; try done; try congruence).
Qed.

(** *** Network read-only mode lasts *)

Lemma bind_Returned {A B : Type} (m : Run A) (k : A -> Run B) (b : B) :
  m ≫= k = Returned b -> exists a, m = Returned a /\ k a = Returned b.
Proof. destruct m as [a| |]; simpl; [by exists a | done..]. Qed.

Lemma read_only_kept_refl w : read_only_kept w w.
Proof. by intros ?. Qed.

Lemma read_only_kept_trans w1 w2 w3 :
  read_only_kept w1 w2 -> read_only_kept w2 w3 -> read_only_kept w1 w3.
Proof.
  intros H12 H23 H1. destruct (H12 H1) as [H2 Hc2]. destruct (H23 H2) as [H3 Hc3].
  split; [done | congruence].
Qed.

Lemma frame_read_only_kept w w' : frame w' = frame w -> read_only_kept w w'.
Proof. intros H. frame_fields H. intros ?. split; congruence. Qed.

(** What the turns of a loop keep, the loop keeps. *)
Lemma for_each_kept {A B : Type} (R : A -> A -> Prop) (body : A -> B -> Run A) :
  (forall a, R a a) -> (forall a1 a2 a3, R a1 a2 -> R a2 a3 -> R a1 a3) ->
  (forall a b a', body a b = Returned a' -> R a a') ->
  forall l a a', for_each body a l = Returned a' -> R a a'.
Proof.
  intros Hrefl Htrans Hbody. induction l as [|b l IH]; intros a a' H; simpl in H.
  - injection H as <-. apply Hrefl.
  - apply bind_Returned in H as (a1 & H1 & H2).
    eapply Htrans; [by eapply Hbody | by apply IH].
Qed.

Lemma EraseTransaction_frame t r w w' :
  EraseTransaction t r w = Returned w' -> frame w' = frame w.
Proof.
  unfold EraseTransaction. destruct (all_writers_ w !! t); [|done].
  intros [= <-]. apply EraseTransaction_it_frame.
Qed.

Lemma CompleteWaitingForRead_frame result w e w' :
  CompleteWaitingForRead result w e = Returned w' -> frame w' = frame w.
Proof.
  unfold CompleteWaitingForRead. intros H.
  apply bind_Returned in H as ([callback_result w1] & H1 & H2).
  assert (frame w1 = frame w) as Hframe1.
  { destruct (0 <=? result).
    - destruct (read_buf_ w); [|done]. unfold memcpy in H1.
      destruct (_ <? 0); [done|]. simpl in H1. by injection H1 as _ <-.
    - by injection H1 as _ <-. }
  rewrite <- Hframe1. destruct (result <=? 0).
  - by apply EraseTransaction_frame in H2.
  - by injection H2 as <-.
Qed.

Lemma CompleteWaitingForReadTransactions_frame result w w' :
  CompleteWaitingForReadTransactions result w = Returned w' -> frame w' = frame w.
Proof.
  unfold CompleteWaitingForReadTransactions.
  apply (for_each_kept (fun w w' => frame w' = frame w)); [done | congruence |].
  intros a b a'. apply CompleteWaitingForRead_frame.
Qed.

Lemma ProcessFailure_frame error w w' :
  ProcessFailure error w = Returned w' -> frame w' = frame w.
Proof.
  unfold ProcessFailure. intros H. apply bind_Returned in H as (w1 & H1 & [= <-]).
  apply CompleteWaitingForReadTransactions_frame in H1.
  destruct (RemoveIdleWriters_spec error w1) as (_ & _ & _ & _ & _ & _ & Hframe).
  congruence.
Qed.

Lemma EraseActiveTransaction_frame result w w' :
  EraseActiveTransaction result w = Returned w' -> frame w' = frame w.
Proof.
  unfold EraseActiveTransaction. intros H.
  apply bind_Returned in H as (w1 & H1 & [= <-]).
  destruct (active_transaction_ w).
  - by apply EraseTransaction_frame in H1.
  - by injection H1 as <-.
Qed.

Lemma ShouldTruncate_kept env w should w' :
  ShouldTruncate env w = Returned (should, w') -> read_only_kept w w'.
Proof.
  unfold ShouldTruncate. intros H.
  repeat case_match; try done; injection H as <- <-; by intros ?.
Qed.

Lemma TruncateEntryIfShould_kept env w w' :
  TruncateEntryIfShould env w = Returned w' -> read_only_kept w w'.
Proof.
  unfold TruncateEntryIfShould. intros H.
  apply bind_Returned in H as ([should w1] & H1 & [= <-]).
  apply ShouldTruncate_kept in H1.
  eapply read_only_kept_trans; [exact H1|]. by destruct should.
Qed.

Lemma OnNetworkReadFailure_kept env result w w' :
  OnNetworkReadFailure env result w = Returned w' -> read_only_kept w w'.
Proof.
  unfold OnNetworkReadFailure. intros H.
  apply bind_Returned in H as (w1 & H1 & H).
  apply bind_Returned in H as (w2 & H2 & H).
  apply bind_Returned in H as (w3 & H3 & [= <-]).
  apply ProcessFailure_frame, frame_read_only_kept in H1.
  apply EraseActiveTransaction_frame, frame_read_only_kept in H2.
  apply TruncateEntryIfShould_kept in H3.
  eapply read_only_kept_trans; [exact H1|].
  eapply read_only_kept_trans; [exact H2|].
  eapply read_only_kept_trans; [exact H3|]. by intros ?.
Qed.

Lemma OnCacheWriteFailure_kept w w' :
  OnCacheWriteFailure w = Returned w' -> read_only_kept w w'.
Proof.
  unfold OnCacheWriteFailure. intros H.
  apply bind_Returned in H as (w1 & H1 & [= <-]).
  apply ProcessFailure_frame in H1. frame_fields H1.
  intros Hro. case_bool_decide; simpl; split; congruence.
Qed.

Lemma OnDataReceived_kept env result w w' :
  OnDataReceived env result w = Returned w' -> read_only_kept w w'.
Proof.
  unfold OnDataReceived. intros H.
  apply bind_Returned in H as (is_partial & _ & H).
  destruct is_partial; [by injection H as <-|].
  destruct (result =? 0).
  - destruct (negb (network_transaction_ w)); [done|].
    destruct (_ && _); [by apply OnNetworkReadFailure_kept in H|].
    apply bind_Returned in H as (w1 & H1 & H).
    apply bind_Returned in H as (w2 & H2 & [= <-]).
    apply EraseActiveTransaction_frame, frame_read_only_kept in H1.
    apply CompleteWaitingForReadTransactions_frame, frame_read_only_kept in H2.
    eapply read_only_kept_trans; [exact H1|].
    eapply read_only_kept_trans; [exact H2|]. by intros ?.
  - apply bind_Returned in H as (w1 & H1 & [= <-]).
    apply CompleteWaitingForReadTransactions_frame, frame_read_only_kept in H1.
    eapply read_only_kept_trans; [exact H1|]. by intros ?.
Qed.

Lemma write_bytes_kept dst src n w : read_only_kept w (write_bytes dst src n w).
Proof. by intros ?. Qed.

Lemma DoNetworkRead_kept env w : read_only_kept w (DoNetworkRead env w).2.
Proof. unfold DoNetworkRead. by repeat case_match; simpl; intros ?. Qed.

Lemma DoNetworkReadComplete_kept env result w rv w' :
  DoNetworkReadComplete env result w = Returned (rv, w') -> read_only_kept w w'.
Proof.
  unfold DoNetworkReadComplete. destruct (result <? 0); intros H.
  - apply bind_Returned in H as (w1 & H1 & [= _ <-]).
    apply OnNetworkReadFailure_kept in H1.
    eapply read_only_kept_trans; [|exact H1]. by intros ?.
  - injection H as _ <-. by intros ?.
Qed.

(** In network read-only mode [DoCacheWriteData] writes nothing. *)
Lemma DoCacheWriteData_kept env num_bytes w rv w' :
  DoCacheWriteData env num_bytes w = Returned (rv, w') -> read_only_kept w w'.
Proof.
  unfold DoCacheWriteData. intros H Hro. simpl in H. rewrite Hro, orb_true_r in H.
  by injection H as _ <-.
Qed.

Lemma UpdateOrCheckChecksum_kept env w w' :
  UpdateOrCheckChecksum env w = Returned w' -> read_only_kept w w'.
Proof.
  unfold UpdateOrCheckChecksum. intros H.
  repeat case_match; try done; injection H as <-; by intros ?.
Qed.

Lemma DoCacheWriteDataComplete_kept env result w rv w' :
  DoCacheWriteDataComplete env result w = Returned (rv, w') -> read_only_kept w w'.
Proof.
  unfold DoCacheWriteDataComplete. intros H.
  apply bind_Returned in H as (w1 & H1 & H).
  apply UpdateOrCheckChecksum_kept in H1.
  assert (read_only_kept w w1) as Hw1
    by (eapply read_only_kept_trans; [|exact H1]; by intros ?).
  eapply read_only_kept_trans; [exact Hw1|].
  destruct (negb (result =? write_len_ w1)).
  - apply bind_Returned in H as (w2 & H2 & [= _ <-]). by apply OnCacheWriteFailure_kept.
  - apply bind_Returned in H as (w2 & H2 & [= _ <-]). by eapply OnDataReceived_kept.
Qed.

Lemma DoMarkSingleKeyedCacheEntryUnusable_kept env w :
  read_only_kept w (DoMarkSingleKeyedCacheEntryUnusable env w).2.
Proof. by intros ?. Qed.

Lemma DoMarkSingleKeyedCacheEntryUnusableComplete_kept result w rv w' :
  DoMarkSingleKeyedCacheEntryUnusableComplete result w = Returned (rv, w') ->
  read_only_kept w w'.
Proof.
  unfold DoMarkSingleKeyedCacheEntryUnusableComplete. intros H.
  apply bind_Returned in H as (w1 & H1 & [= _ <-]).
  destruct (result <? 0).
  - apply OnCacheWriteFailure_kept in H1.
    eapply read_only_kept_trans; [|exact H1]. by intros ?.
  - injection H1 as <-. by intros ?.
Qed.

Lemma Returned_pair_kept (p : Z * Writers) w rv' w' :
  Returned p = Returned (rv', w') -> read_only_kept w p.2 -> read_only_kept w w'.
Proof. by intros [= ->]. Qed.

Lemma DoLoopStep_kept env rv w rv' w' :
  DoLoopStep env rv w = Returned (rv', w') -> read_only_kept w w'.
Proof.
  unfold DoLoopStep. intros H.
  assert (read_only_kept w (set_next_state_ UNSET w)) as Hunset by (by intros ?).
  eapply read_only_kept_trans; [exact Hunset|].
  destruct (next_state_ w).
  - injection H as _ <-. apply read_only_kept_refl.
  - injection H as _ <-. apply read_only_kept_refl.
  - eapply Returned_pair_kept; [exact H|]. apply DoNetworkRead_kept.
  - by eapply DoNetworkReadComplete_kept.
  - by eapply DoCacheWriteData_kept.
  - by eapply DoCacheWriteDataComplete_kept.
  - eapply Returned_pair_kept; [exact H|].
    apply DoMarkSingleKeyedCacheEntryUnusable_kept.
  - by eapply DoMarkSingleKeyedCacheEntryUnusableComplete_kept.
Qed.

Lemma DoLoopTurns_kept env fuel :
  forall rv w rv' w',
  DoLoopTurns fuel env rv w = Returned (rv', w') -> read_only_kept w w'.
Proof.
  induction fuel as [|fuel IH]; intros rv w rv' w' H; simpl in H; [done|].
  apply bind_Returned in H as ([rv1 w1] & H1 & H).
  apply DoLoopStep_kept in H1.
  eapply read_only_kept_trans; [exact H1|].
  destruct (_ && _).
  - by eapply IH.
  - injection H as _ <-. apply read_only_kept_refl.
Qed.

Lemma RunCallback_kept consumer_callback rv w :
  read_only_kept w (RunCallback consumer_callback rv w).
Proof. unfold RunCallback. by repeat case_match; intros ?. Qed.

Lemma DoLoopEnd_kept rv w : read_only_kept w (DoLoopEnd rv w).2.
Proof.
  unfold DoLoopEnd. repeat case_match; simpl;
    try (eapply read_only_kept_trans; [|apply RunCallback_kept]); by intros ?.
Qed.

Lemma DoLoop_kept env result w rv w' :
  DoLoop env result w = Returned (rv, w') -> read_only_kept w w'.
Proof.
  unfold DoLoop. intros H. apply bind_Returned in H as ([rv1 w1] & H1 & H).
  apply DoLoopTurns_kept in H1.
  eapply read_only_kept_trans; [exact H1|].
  pose proof (DoLoopEnd_kept rv1 w1) as Hend.
  destruct (DoLoopEnd rv1 w1). by injection H as _ <-.
Qed.

Lemma Read_kept env buf buf_len consumer_callback transaction w rv w' :
  Read env buf buf_len consumer_callback transaction w = Returned (rv, w') ->
  read_only_kept w w'.
Proof.
  unfold Read. destruct (negb _); intros H.
  - injection H as _ <-. by destruct (waiting_for_read_ w !! transaction); intros ?.
  - apply bind_Returned in H as ([rv1 w1] & H1 & [= _ <-]).
    apply DoLoop_kept in H1.
    eapply read_only_kept_trans; [|eapply read_only_kept_trans; [exact H1|]].
    + by intros ?.
    + by destruct (rv1 =? ERR_IO_PENDING); intros ?.
Qed.

Lemma StopCaching_kept keep_entry w : read_only_kept w (StopCaching keep_entry w).2.
Proof. unfold StopCaching. by repeat case_match; simpl; intros ?. Qed.

Lemma AddTransaction_kept transaction initial_writing_pattern info w :
  read_only_kept w (AddTransaction transaction initial_writing_pattern info w).
Proof. unfold AddTransaction. by repeat case_match; simpl; intros ?. Qed.

Lemma RemoveTransaction_kept env transaction success w w' :
  RemoveTransaction env transaction success w = Returned w' -> read_only_kept w w'.
Proof.
  unfold RemoveTransaction. intros H.
  apply bind_Returned in H as (w1 & H1 & H).
  apply EraseTransaction_frame, frame_read_only_kept in H1.
  eapply read_only_kept_trans; [exact H1|].
  case_bool_decide; [|injection H as <-; apply read_only_kept_refl].
  apply bind_Returned in H as (w2 & H2 & [= <-]).
  destruct (negb success).
  - apply TruncateEntryIfShould_kept in H2.
    eapply read_only_kept_trans; [exact H2|]. by intros ?.
  - injection H2 as <-. by intros ?.
Qed.

Lemma call_kept w c w' : call w c = Returned w' -> read_only_kept w w'.
Proof.
  destruct c as [env []]; unfold call; cbn [fst snd]; intros H.
  - apply bind_Returned in H as ([rv w1] & H1 & [= <-]). by eapply Read_kept.
  - apply bind_Returned in H as ([rv w1] & H1 & [= <-]). by eapply DoLoop_kept.
  - injection H as <-. by destruct (read_buf_ w); intros ?.
  - injection H as <-. apply StopCaching_kept.
  - injection H as <-. apply AddTransaction_kept.
  - injection H as <-. by intros ?.
  - injection H as <-. by intros ?.
  - by eapply RemoveTransaction_kept.
Qed.

(** Whatever calls follow, a session in network read-only mode stays in
    it and writes no response data to the cache. *)
Lemma calls_kept l w w' : calls l w = Returned w' -> read_only_kept w w'.
Proof.
  unfold calls. apply for_each_kept.
  - apply read_only_kept_refl.
  - apply read_only_kept_trans.
  - apply call_kept.
Qed.

(** C7 (as amended). In an attached session whose buffer holds the
    [write_len_ > 0] bytes of the current read, when the write of these
    bytes to the cache completes with another count,
    [DoCacheWriteDataComplete] returns [write_len_] and ends the cycle
    (the state is [NONE]), so that the read of the active transaction
    completes with all the bytes read from the network: when the write
    completes through [OnIOComplete], the callback of the read is run with
    [write_len_]. The session is left in network read-only mode with
    [should_keep_entry_] false, and whatever calls follow, it stays in
    that mode and writes no more response data to the cache. *)
Theorem C7_cache_write_failure_makes_session_network_read_only
    (env : Env) (result : Z) (w : Writers) :
  attached w -> 0 < write_len_ w -> is_Some (read_buf_ w) -> result <> write_len_ w ->
  (exists w',
     DoCacheWriteDataComplete env result w = Returned (write_len_ w, w')
     /\ next_state_ w' = NONE
     /\ network_read_only_ w' = true
     /\ should_keep_entry_ w' = false
     /\ (forall l w'', calls l w' = Returned w'' ->
           network_read_only_ w'' = true /\ content_writes w'' = content_writes w'))
  /\ (next_state_ w = CACHE_WRITE_DATA_COMPLETE ->
      exists w',
        OnIOComplete env result w = Returned (write_len_ w, w')
        /\ run_callbacks w'
           = run_callbacks w
             ++ match callback_ w with Some c => [(c, write_len_ w)] | None => [] end
        /\ next_state_ w' = NONE
        /\ network_read_only_ w' = true
        /\ should_keep_entry_ w' = false
        /\ (forall l w'', calls l w' = Returned w'' ->
              network_read_only_ w'' = true /\ content_writes w'' = content_writes w')).
Proof.
  intros Hatt Hlen Hbuf Hne.
  assert (forall state,
            exists w',
              DoCacheWriteDataComplete env result (set_next_state_ state w)
              = Returned (write_len_ w, w')
              /\ next_state_ w' = NONE /\ network_read_only_ w' = true
              /\ should_keep_entry_ w' = false
              /\ callback_ w' = callback_ w /\ run_callbacks w' = run_callbacks w)
    as Hhandler.
  { intros state. unfold DoCacheWriteDataComplete.
    change (set_next_state_ NONE (set_next_state_ state w)) with (set_next_state_ NONE w).
    assert (UpdateOrCheckChecksum env (set_next_state_ NONE w)
            = Returned (set_next_state_ NONE w)) as ->.
    { unfold UpdateOrCheckChecksum. simpl.
      assert ((0 <? write_len_ w) = true) as -> by lia.
      destruct Hbuf as [buf ->]. by destruct (checksum_ w). }
    cbn [mbind Run_bind].
    change (write_len_ (set_next_state_ NONE w)) with (write_len_ w).
    assert ((result =? write_len_ w) = false) as -> by lia. cbn [negb].
    destruct (OnCacheWriteFailure_Returned (set_next_state_ NONE w))
      as (w' & -> & Hro & Hkeep & _ & _ & _ & _ & Hwl & Hstate & _ & _ & _ & Hcb
          & Hrun & _); [by apply attached_set_next_state_|].
    cbn [mbind Run_bind]. exists w'. rewrite Hwl. by split_and!. }
  split.
  - destruct (Hhandler (next_state_ w)) as (w' & Hret & Hstate & Hro & Hkeep & _).
    replace (set_next_state_ (next_state_ w) w) with w in Hret by (by destruct w).
    exists w'. split_and!; try done.
    intros l w'' Hcalls. by apply (calls_kept l w' w'' Hcalls).
  - intros Hstate0.
    destruct (Hhandler UNSET) as (w' & Hret & Hstate & Hro & Hkeep & Hcb & Hrun).
    unfold OnIOComplete, DoLoop, DoLoop_fuel. cbn [DoLoopTurns].
    unfold DoLoopStep. rewrite Hstate0, Hret. cbn [mbind Run_bind].
    rewrite Hstate. rewrite bool_decide_eq_true_2 by done. cbn [negb andb].
    cbn [mbind Run_bind]. unfold DoLoopEnd. rewrite Hstate.
    rewrite bool_decide_eq_true_2 by done. cbn [negb].
    eexists. split; [reflexivity|].
    assert (forall c w0, run_callbacks (RunCallback c (write_len_ w) w0)
                         = run_callbacks w0
                           ++ match c with Some c => [(c, write_len_ w)] | None => [] end)
      as Hrc.
    { intros [c|] w0; unfold RunCallback; [|by rewrite app_nil_r].
      assert ((write_len_ w =? ERR_IO_PENDING) = false) as ->
        by (unfold ERR_IO_PENDING; lia). done. }
    assert (forall c w0, read_only_kept w0 (RunCallback c (write_len_ w) w0)
                         /\ next_state_ (RunCallback c (write_len_ w) w0) = next_state_ w0
                         /\ should_keep_entry_ (RunCallback c (write_len_ w) w0)
                            = should_keep_entry_ w0) as Hrk.
    { intros [c|] w0; unfold RunCallback; [|by split_and!].
      by destruct (negb _); split_and!. }
    set (w1 := match cache_callback_ _ with Some _ => _ | None => _ end).
    assert (network_read_only_ w1 = true /\ should_keep_entry_ w1 = false
            /\ next_state_ w1 = NONE /\ run_callbacks w1 = run_callbacks w) as Hw1.
    { unfold w1. simpl. destruct (cache_callback_ w') as [[[? ?] ?]|]; simpl;
        by rewrite Hrun. }
    destruct Hw1 as (Hro1 & Hkeep1 & Hstate1 & Hrun1).
    destruct (Hrk (callback_ w') w1) as (Hk & Hs & Hke).
    cbn [snd]. simpl callback_ at 1.
    split_and!.
    + rewrite Hrc, Hrun1. by rewrite Hcb.
    + congruence.
    + by apply Hk.
    + congruence.
    + intros l w'' Hcalls. apply (calls_kept l _ w'' Hcalls). by apply Hk.
Qed.

Lemma write_pending_attached : attached write_pending.
Proof.
  split.
  - compute_done.
  - intros a Ha. vm_compute in Ha. injection Ha as <-. compute_done.
  - intros a Ha. vm_compute in Ha. injection Ha as <-. compute_done.
  - intros t waiting Ht. apply elem_of_map_to_list in Ht. vm_compute in Ht.
    apply list_elem_of_singleton in Ht as [= -> ->]. by vm_compute.
  - intros _. by eexists.
Defined.

(** C7, witness: the pending write of three bytes completes with two. *)
Lemma C7_witness :
  exists w',
    OnIOComplete (sample_env ReadPending 0 0 true) 2 write_pending
    = Returned (write_len_ write_pending, w')
    /\ run_callbacks w'
       = run_callbacks write_pending
         ++ match callback_ write_pending with
            | Some c => [(c, write_len_ write_pending)]
            | None => []
            end
    /\ next_state_ w' = NONE
    /\ network_read_only_ w' = true
    /\ should_keep_entry_ w' = false
    /\ (forall l w'', calls l w' = Returned w'' ->
          network_read_only_ w'' = true /\ content_writes w'' = content_writes w').
Proof.
  apply (C7_cache_write_failure_makes_session_network_read_only
           (sample_env ReadPending 0 0 true) 2 write_pending).
  - apply write_pending_attached.
  - by vm_compute.
  - by eexists.
  - by vm_compute.
  - by vm_compute.
Defined.

(** C7, counterexample. Transaction 1 has read three bytes from the
    network, of which the cache writes two: the session is in network
    read-only mode, and the response info of the entry has not been
    written. Transaction 1 reads again; the response has ended and its
    checksum does not match: the read returns 0 and on its way
    [DoMarkSingleKeyedCacheEntryUnusable] writes the response info to the
    entry in the cache. *)
Lemma C7_counterexample_response_info_written_in_read_only_mode :
  OnIOComplete (sample_env ReadPending 0 2 true) 3 bytes_arrived
  = Returned (3, write_failed)
  /\ network_read_only_ write_failed = true
  /\ info_writes write_failed = []
  /\ Read (sample_env (ReadBytes []) 0 0 false) 11 300 101 1 write_failed
     = Returned (0, read_after_failure)
  /\ network_read_only_ read_after_failure = true
  /\ info_writes read_after_failure = [false].
Proof. vm_compute. by split_and!. Qed.

(** *** Data received and written *)

Lemma answer_nonneg N waiting : 0 <= N -> answer N waiting = Z.min (read_buf_len waiting) N.
Proof. intros HN. unfold answer. by assert ((0 <=? N) = true) as -> by lia. Qed.

Lemma buffer_data_ext w w' b : buffers w' = buffers w -> buffer_data w' b = buffer_data w b.
Proof. unfold buffer_data. by intros ->. Qed.

(** [OnDataReceived] with the [write_len_ >= 0] bytes of the read, in an
    attached session whose active transaction is not a partial one: every
    waiting transaction is answered the number of bytes copied into its
    buffer, and these are the first bytes of the buffer of the read. *)
Lemma OnDataReceived_Returned env w buf a info :
  attached w -> read_buf_ w = Some buf -> active_transaction_ w = Some a ->
  all_writers_ w !! a = Some info -> partial info = false ->
  0 <= write_len_ w -> (Z.to_nat (write_len_ w) <= length (buffer_data w buf))%nat ->
  network_transaction_ w = true ->
  exists w',
    OnDataReceived env (write_len_ w) w = Returned w'
    /\ posted_tasks w'
       = posted_tasks w
         ++ map (fun e => (callback e.2, Z.min (read_buf_len e.2) (write_len_ w)))
              (map_to_list (waiting_for_read_ w))
    /\ buffer_data w' buf = buffer_data w buf
    /\ (forall t waiting, waiting_for_read_ w !! t = Some waiting ->
          take (Z.to_nat (Z.min (read_buf_len waiting) (write_len_ w)))
            (buffer_data w' (read_buf waiting))
          = take (Z.to_nat (Z.min (read_buf_len waiting) (write_len_ w)))
              (buffer_data w buf))
    /\ waiting_for_read_ w' = ∅ /\ active_transaction_ w' = None
    /\ next_state_ w' = next_state_ w.
Proof.
  intros Hatt Hrb Ha Hinfo Hpartial HN Hsrc Hnet.
  pose proof Hatt as [Hwatt0 Haatt0 Hanw0 Hlen Hheaders].
  assert (map (fun e : Transaction * WaitingForRead =>
                 (callback e.2, answer (write_len_ w) e.2))
            (map_to_list (waiting_for_read_ w))
          = map (fun e => (callback e.2, Z.min (read_buf_len e.2) (write_len_ w)))
              (map_to_list (waiting_for_read_ w))) as Hanswer.
  { apply map_ext. intros e. by rewrite answer_nonneg. }
  unfold OnDataReceived, active_partial. rewrite Ha, Hinfo, Hpartial.
  cbn [mbind Run_bind].
  destruct (write_len_ w =? 0) eqn:E0.
  - apply Z.eqb_eq in E0. rewrite Hnet. cbn [negb].
    destruct (_ && _).
    + destruct (OnNetworkReadFailure_Returned env (write_len_ w) w)
        as (w' & -> & _ & Hwait & Hactive & Hposted & _ & _ & _ & _ & Hstate & _ & _
            & Hdata); [done | lia | by eexists |].
      exists w'. split; [done|]. split_and!; try done.
      * by rewrite Hposted, Hanswer.
      * by apply Hdata.
      * intros t waiting Ht. apply Hlen in Ht.
        replace (Z.min (read_buf_len waiting) (write_len_ w)) with 0 by lia. done.
    + destruct (EraseActiveTransaction_Returned (write_len_ w) w)
        as (w1 & -> & Hactive1 & Hall1 & Hwait1 & _ & Hposted1 & Hbuf1 & Hframe1).
      { intros a' Ha'. by apply elem_of_dom, Haatt0. }
      cbn [mbind Run_bind]. frame_fields Hframe1.
      replace (write_len_ w1) with (write_len_ w) by done.
      destruct (CompleteWaitingForReadTransactions_Returned (write_len_ w) w1)
        as (w2 & -> & Hwait2 & Hposted2 & _ & _ & Hactive2 & Hframe2 & _ & Hdata2).
      { intros _. replace (read_buf_ w1) with (read_buf_ w) by done.
        rewrite Hrb. by eexists. }
      { intros t waiting Ht. rewrite Hwait1 in Ht. apply Hlen in Ht. lia. }
      { intros _ t Ht. rewrite Hwait1 in Ht. rewrite Hall1, Ha.
        assert (t <> a) as Hne.
        { intros ->. apply elem_of_dom in Ht. by apply (Hanw0 a). }
        rewrite lookup_delete_ne by done. by apply elem_of_dom, Hwatt0, elem_of_dom. }
      { intros a'. by rewrite Hactive1. }
      cbn [mbind Run_bind]. frame_fields Hframe2.
      assert (forall b, buffer_data w1 b = buffer_data w b) as Hsame
        by (intros b; unfold buffer_data; by rewrite Hbuf1).
      destruct (Hdata2 buf) as (Hsrc2 & _ & Hcopied); [congruence | done | |].
      { by rewrite Hsame. }
      eexists. split; [reflexivity|]. unfold SetCacheCallback. simpl.
      split_and!; try congruence.
      * rewrite (buffer_data_ext w2) by done. rewrite Hsrc2. apply Hsame.
      * intros t waiting Ht. rewrite <- Hwait1 in Ht.
        specialize (Hcopied t waiting Ht). rewrite answer_nonneg in Hcopied by done.
        rewrite Hsame in Hcopied. by rewrite (buffer_data_ext w2).
  - destruct (CompleteWaitingForReadTransactions_Returned (write_len_ w) w)
      as (w1 & -> & Hwait1 & Hposted1 & _ & _ & Hactive1 & Hframe1 & _ & Hdata1).
    { intros _. by eexists. }
    { intros t waiting Ht. apply Hlen in Ht. lia. }
    { intros Hle. apply Z.eqb_neq in E0. lia. }
    { intros a' Ha'. by apply not_elem_of_dom, Hanw0. }
    cbn [mbind Run_bind]. frame_fields Hframe1.
    destruct (Hdata1 buf Hrb HN Hsrc) as (Hsrc1 & _ & Hcopied).
    eexists. split; [reflexivity|]. simpl.
    split_and!; try congruence.
    + by rewrite (buffer_data_ext w1).
    + intros t waiting Ht. specialize (Hcopied t waiting Ht).
      rewrite answer_nonneg in Hcopied by done. by rewrite (buffer_data_ext w1).
Qed.

(** The checksum step of [DoCacheWriteDataComplete] returns when the
    session has a buffer and an active transaction; it changes nothing but
    [checksum_] and [next_state_]. *)
Lemma UpdateOrCheckChecksum_Returned env w :
  is_Some (read_buf_ w) -> is_Some (active_transaction_ w) ->
  exists checksum state,
    UpdateOrCheckChecksum env w = Returned (set_next_state_ state (set_checksum_ checksum w)).
Proof.
  intros [buf Hbuf] [a Ha]. unfold UpdateOrCheckChecksum. rewrite Hbuf, Ha.
  destruct (checksum_ w) eqn:Hc.
  - destruct (0 <? write_len_ w).
    + exists true, (next_state_ w). f_equal; try by destruct w; simpl in *; subst.
    + destruct (negb (ResponseChecksumMatches env)).
      * by exists false, MARK_SINGLE_KEYED_CACHE_ENTRY_UNUSABLE.
      * exists false, (next_state_ w). f_equal; try by destruct w.
  - exists false, (next_state_ w). f_equal; try by destruct w; simpl in *; subst.
Qed.

(** C6 (as amended). (1) A [Read] on a session with a read cycle in flight
    (its state is not [NONE]) returns [ERR_IO_PENDING]: the request waits in
    [waiting_for_read_] (a transaction that waits already keeps its first
    request) and no read is asked of the network. The cycle is that of an
    attached session with an active transaction, and [N >= 0] are the bytes
    that the network read has put in the buffer of that transaction. (2)
    When the active transaction is not a partial one, the session has its
    network transaction and the cache write has not failed
    ([DoCacheWriteDataComplete] gets [N = write_len_]), the cycle completes
    with [N]: the buffer of every waiting transaction starts with the first
    [min(read_buf_len, N)] bytes of the buffer of the active transaction,
    and a task is posted to run its callback with that count. (3) When the
    cache write has failed ([DoCacheWriteDataComplete] gets another result
    than [write_len_]), the cycle still completes with [N]; for every
    waiting transaction a task is posted to run its callback with
    [ERR_CACHE_WRITE_FAILURE], no buffer has changed, and no transaction
    waits any more. *)
Theorem C6_waiting_transactions_share_the_read
    (env : Env) (buf0 : IOBuffer) (buf_len : Z) (consumer_callback : CompletionOnceCallback)
    (transaction : Transaction) (w0 : Writers)
    (N : Z) (w : Writers) (buf : IOBuffer) (a : Transaction) (info : TransactionInfo) :
  next_state_ w0 <> NONE ->
  attached w -> read_buf_ w = Some buf -> active_transaction_ w = Some a ->
  all_writers_ w !! a = Some info ->
  write_len_ w = N -> 0 <= N ->
  (exists w0',
     Read env buf0 buf_len consumer_callback transaction w0
     = Returned (ERR_IO_PENDING, w0')
     /\ waiting_for_read_ w0'
        = match waiting_for_read_ w0 !! transaction with
          | Some _ => waiting_for_read_ w0
          | None =>
              <[transaction := {| read_buf := buf0; read_buf_len := buf_len;
                                  write_len := 0; callback := consumer_callback |}]>
                (waiting_for_read_ w0)
          end
     /\ network_reads w0' = network_reads w0
     /\ next_state_ w0' = next_state_ w0
     /\ active_transaction_ w0' = active_transaction_ w0
     /\ read_buf_ w0' = read_buf_ w0)
  /\ (partial info = false -> network_transaction_ w = true ->
      (Z.to_nat N <= length (buffer_data w buf))%nat ->
      exists w',
        DoCacheWriteDataComplete env N w = Returned (N, w')
        /\ buffer_data w' buf = buffer_data w buf
        /\ forall t waiting, waiting_for_read_ w !! t = Some waiting ->
             take (Z.to_nat (Z.min (read_buf_len waiting) N))
               (buffer_data w' (read_buf waiting))
             = take (Z.to_nat (Z.min (read_buf_len waiting) N)) (buffer_data w buf)
             /\ (callback waiting, Z.min (read_buf_len waiting) N) ∈ posted_tasks w')
  /\ (forall result, result <> N ->
      exists w',
        DoCacheWriteDataComplete env result w = Returned (N, w')
        /\ buffers w' = buffers w
        /\ waiting_for_read_ w' = ∅
        /\ forall t waiting, waiting_for_read_ w !! t = Some waiting ->
             (callback waiting, ERR_CACHE_WRITE_FAILURE) ∈ posted_tasks w'
             /\ buffer_data w' (read_buf waiting) = buffer_data w (read_buf waiting)).
Proof.
  intros Hstate0 Hatt Hrb Ha Hinfo HN Hpos. split_and!.
  - unfold Read. rewrite bool_decide_eq_false_2 by done. cbn [negb].
    eexists. split; [reflexivity|].
    by destruct (waiting_for_read_ w0 !! transaction).
  - intros Hpartial Hnet Hsrc. unfold DoCacheWriteDataComplete.
    destruct (UpdateOrCheckChecksum_Returned env (set_next_state_ NONE w))
      as (checksum & state & ->);
      [simpl; rewrite Hrb; by eexists | simpl; rewrite Ha; by eexists |].
    cbn [mbind Run_bind].
    set (w1 := set_next_state_ state (set_checksum_ checksum (set_next_state_ NONE w))).
    change (write_len_ w1) with (write_len_ w). rewrite HN, Z.eqb_refl. cbn [negb].
    destruct (OnDataReceived_Returned env w1 buf a info)
      as (w' & Hret & Hposted & Hdata & Hcopied & _); try done.
    { by destruct Hatt. }
    { change (write_len_ w1) with (write_len_ w). lia. }
    { change (write_len_ w1) with (write_len_ w). by rewrite HN. }
    change (write_len_ w1) with (write_len_ w) in Hret, Hposted, Hcopied.
    rewrite HN in Hret, Hposted, Hcopied. rewrite Hret. cbn [mbind Run_bind].
    exists w'. split_and!; try done.
    intros t waiting Ht. split; [by apply (Hcopied t)|].
    rewrite Hposted. apply elem_of_app. right.
    apply (list_elem_of_fmap_2
             (fun e : Transaction * WaitingForRead =>
                (callback e.2, Z.min (read_buf_len e.2) N)) _ (t, waiting)).
    by apply elem_of_map_to_list.
  - intros result Hne. unfold DoCacheWriteDataComplete.
    destruct (UpdateOrCheckChecksum_Returned env (set_next_state_ NONE w))
      as (checksum & state & ->);
      [simpl; rewrite Hrb; by eexists | simpl; rewrite Ha; by eexists |].
    cbn [mbind Run_bind].
    set (w1 := set_next_state_ state (set_checksum_ checksum (set_next_state_ NONE w))).
    change (write_len_ w1) with (write_len_ w). rewrite HN.
    assert ((result =? N) = false) as -> by lia. cbn [negb].
    destruct (OnCacheWriteFailure_Returned w1)
      as (w' & -> & _ & _ & _ & Hwait & Hposted & _ & Hwl & _ & _ & _ & Hbuf & _).
    { by destruct Hatt. }
    cbn [mbind Run_bind]. exists w'.
    change (write_len_ w1) with (write_len_ w) in Hwl. rewrite Hwl, HN.
    change (buffers w1) with (buffers w) in Hbuf.
    split_and!; try done.
    intros t waiting Ht. split.
    + rewrite Hposted. apply elem_of_app. right.
      apply (list_elem_of_fmap_2
               (fun e : Transaction * WaitingForRead =>
                  (callback e.2, ERR_CACHE_WRITE_FAILURE)) _ (t, waiting)).
      by apply elem_of_map_to_list.
    + unfold buffer_data. by rewrite Hbuf.
Qed.

(** C6, witness: transaction 2 asks to read while transaction 1 reads,
    and the pending write of the three bytes completes with three, or
    with two. *)
Lemma C6_witness :
  (exists w0',
     Read (sample_env ReadPending 0 3 true) 12 2 102 2 first_reads
     = Returned (ERR_IO_PENDING, w0')
     /\ waiting_for_read_ w0'
        = match waiting_for_read_ first_reads !! 2%positive with
          | Some _ => waiting_for_read_ first_reads
          | None =>
              <[2%positive := {| read_buf := 12; read_buf_len := 2;
                                 write_len := 0; callback := 102 |}]>
                (waiting_for_read_ first_reads)
          end
     /\ network_reads w0' = network_reads first_reads
     /\ next_state_ w0' = next_state_ first_reads
     /\ active_transaction_ w0' = active_transaction_ first_reads
     /\ read_buf_ w0' = read_buf_ first_reads)
  /\ (exists w',
        DoCacheWriteDataComplete (sample_env ReadPending 0 3 true) 3 write_pending
        = Returned (3, w')
        /\ buffer_data w' 11 = buffer_data write_pending 11
        /\ forall t waiting, waiting_for_read_ write_pending !! t = Some waiting ->
             take (Z.to_nat (Z.min (read_buf_len waiting) 3))
               (buffer_data w' (read_buf waiting))
             = take (Z.to_nat (Z.min (read_buf_len waiting) 3))
                 (buffer_data write_pending 11)
             /\ (callback waiting, Z.min (read_buf_len waiting) 3) ∈ posted_tasks w')
  /\ (exists w',
        DoCacheWriteDataComplete (sample_env ReadPending 0 3 true) 2 write_pending
        = Returned (3, w')
        /\ buffers w' = buffers write_pending
        /\ waiting_for_read_ w' = ∅
        /\ forall t waiting, waiting_for_read_ write_pending !! t = Some waiting ->
             (callback waiting, ERR_CACHE_WRITE_FAILURE) ∈ posted_tasks w'
             /\ buffer_data w' (read_buf waiting)
                = buffer_data write_pending (read_buf waiting)).
Proof.
  destruct (C6_waiting_transactions_share_the_read
              (sample_env ReadPending 0 3 true) 12 2 102 2 first_reads
              3 write_pending 11 1 sample_writer) as (H1 & H2 & H3).
  - by vm_compute.
  - apply write_pending_attached.
  - by vm_compute.
  - by vm_compute.
  - by vm_compute.
  - by vm_compute.
  - lia.
  - split_and!.
    + exact H1.
    + apply H2; [done | by vm_compute | vm_compute; lia].
    + apply H3. lia.
Defined.

(** C6, counterexample. Transaction 1 reads and the network read is
    pending; transaction 2 asks to read and waits. The network read
    completes with the three bytes 7, 8, 9, of which the cache writes two.
    The cycle completes with 3 bytes for transaction 1: its callback is run
    with 3 and its buffer holds the bytes. Transaction 2 gets none of them:
    a task is posted to run its callback with [ERR_CACHE_WRITE_FAILURE],
    and its buffer is as it was. *)
Lemma C6_counterexample_cache_write_failure_fails_waiting_readers :
  Read (sample_env ReadPending 0 0 true) 12 2 102 2 first_reads
  = Returned (ERR_IO_PENDING, second_waits)
  /\ OnIOComplete (sample_env ReadPending 0 2 true) 3 bytes_arrived
     = Returned (3, write_failed)
  /\ run_callbacks write_failed = [(101%positive, 3)]
  /\ buffer_data write_failed 11 = [7; 8; 9]
  /\ posted_tasks write_failed = [(102%positive, ERR_CACHE_WRITE_FAILURE)]
  /\ buffer_data write_failed 12 = buffer_data bytes_arrived 12
  /\ buffer_data write_failed 12 = [].
Proof. vm_compute. by split_and!. Qed.

(** *** The loop of [DoLoop] ends *)

(** Only the loop diverges: what the states call returns or stops on a
    fault. *)
Lemma bind_ends {A B : Type} (m : Run A) (k : A -> Run B) :
  ends m -> (forall a, m = Returned a -> ends (k a)) -> ends (m ≫= k).
Proof. destruct m as [a| |]; simpl; intros Hm Hk; [by apply Hk | done..]. Qed.

Lemma for_each_ends {A B : Type} (body : A -> B -> Run A) (l : list B) :
  (forall a b, ends (body a b)) -> forall a, ends (for_each body a l).
Proof.
  intros Hbody. induction l as [|b l IH]; intros a; simpl; [done|].
  apply bind_ends; [apply Hbody | intros a' _; apply IH].
Qed.

Lemma EraseTransaction_ends t r w : ends (EraseTransaction t r w).
Proof. unfold EraseTransaction. by case_match. Qed.

Lemma CompleteWaitingForReadTransactions_ends result w :
  ends (CompleteWaitingForReadTransactions result w).
Proof.
  apply for_each_ends. intros a [t waiting]. unfold CompleteWaitingForRead, memcpy.
  apply bind_ends.
  - repeat case_match; try done; by apply bind_ends.
  - intros [? ?] _. case_match; [apply EraseTransaction_ends | done].
Qed.

Lemma ProcessFailure_ends error w : ends (ProcessFailure error w).
Proof.
  unfold ProcessFailure. apply bind_ends; [apply CompleteWaitingForReadTransactions_ends|].
  done.
Qed.

Lemma EraseActiveTransaction_ends result w : ends (EraseActiveTransaction result w).
Proof.
  unfold EraseActiveTransaction. apply bind_ends; [|done].
  case_match; [apply EraseTransaction_ends | done].
Qed.

Lemma TruncateEntryIfShould_ends env w : ends (TruncateEntryIfShould env w).
Proof.
  unfold TruncateEntryIfShould, ShouldTruncate.
  apply bind_ends; [by repeat case_match | by intros [? ?] _].
Qed.

Lemma OnNetworkReadFailure_ends env result w : ends (OnNetworkReadFailure env result w).
Proof.
  unfold OnNetworkReadFailure.
  apply bind_ends; [apply ProcessFailure_ends | intros ? _].
  apply bind_ends; [apply EraseActiveTransaction_ends | intros ? _].
  apply bind_ends; [apply TruncateEntryIfShould_ends | done].
Qed.

Lemma OnCacheWriteFailure_ends w : ends (OnCacheWriteFailure w).
Proof.
  unfold OnCacheWriteFailure. apply bind_ends; [apply ProcessFailure_ends | done].
Qed.

Lemma OnDataReceived_ends env result w : ends (OnDataReceived env result w).
Proof.
  unfold OnDataReceived, active_partial.
  apply bind_ends; [by repeat case_match | intros is_partial _].
  destruct is_partial; [done|]. repeat case_match; try done.
  - apply OnNetworkReadFailure_ends.
  - apply bind_ends; [apply EraseActiveTransaction_ends | intros ? _].
    apply bind_ends; [apply CompleteWaitingForReadTransactions_ends | done].
  - apply bind_ends; [apply CompleteWaitingForReadTransactions_ends | done].
Qed.

Lemma DoLoopStep_ends env rv w : ends (DoLoopStep env rv w).
Proof.
  unfold DoLoopStep. destruct (next_state_ w); try done.
  - unfold DoNetworkReadComplete. case_match; [|done].
    apply bind_ends; [apply OnNetworkReadFailure_ends | done].
  - unfold DoCacheWriteData, active_partial. case_match; [done|].
    apply bind_ends; [by repeat case_match | intros ? _; by case_match].
  - unfold DoCacheWriteDataComplete, UpdateOrCheckChecksum.
    apply bind_ends; [by repeat case_match | intros ? _].
    case_match.
    + apply bind_ends; [apply OnCacheWriteFailure_ends | done].
    + apply bind_ends; [apply OnDataReceived_ends | done].
  - unfold DoMarkSingleKeyedCacheEntryUnusableComplete.
    apply bind_ends; [|done]. case_match; [apply OnCacheWriteFailure_ends | done].
Qed.

(** What the failure handlers and [OnDataReceived] do leaves [next_state_]
    as it is. *)
Lemma frame_next_state w w' : frame w' = frame w -> next_state_ w' = next_state_ w.
Proof. intros H. by frame_fields H. Qed.

Lemma TruncateEntryIfShould_next_state env w w' :
  TruncateEntryIfShould env w = Returned w' -> next_state_ w' = next_state_ w.
Proof.
  unfold TruncateEntryIfShould, ShouldTruncate. intros H.
  apply bind_Returned in H as ([should w1] & H1 & [= <-]).
  assert (next_state_ w1 = next_state_ w) as <-
    by (repeat case_match; try done; by injection H1 as _ <-).
  by destruct should.
Qed.

Lemma OnNetworkReadFailure_next_state env result w w' :
  OnNetworkReadFailure env result w = Returned w' -> next_state_ w' = next_state_ w.
Proof.
  unfold OnNetworkReadFailure. intros H.
  apply bind_Returned in H as (w1 & H1 & H).
  apply bind_Returned in H as (w2 & H2 & H).
  apply bind_Returned in H as (w3 & H3 & [= <-]).
  apply ProcessFailure_frame, frame_next_state in H1.
  apply EraseActiveTransaction_frame, frame_next_state in H2.
  apply TruncateEntryIfShould_next_state in H3. simpl. congruence.
Qed.

Lemma OnCacheWriteFailure_next_state w w' :
  OnCacheWriteFailure w = Returned w' -> next_state_ w' = next_state_ w.
Proof.
  unfold OnCacheWriteFailure. intros H.
  apply bind_Returned in H as (w1 & H1 & [= <-]).
  apply ProcessFailure_frame, frame_next_state in H1.
  by case_bool_decide.
Qed.

Lemma OnDataReceived_next_state env result w w' :
  OnDataReceived env result w = Returned w' -> next_state_ w' = next_state_ w.
Proof.
  unfold OnDataReceived. intros H.
  apply bind_Returned in H as (is_partial & _ & H).
  destruct is_partial; [by injection H as <-|].
  destruct (result =? 0).
  - destruct (negb (network_transaction_ w)); [done|].
    destruct (_ && _); [by apply OnNetworkReadFailure_next_state in H|].
    apply bind_Returned in H as (w1 & H1 & H).
    apply bind_Returned in H as (w2 & H2 & [= <-]).
    apply EraseActiveTransaction_frame, frame_next_state in H1.
    apply CompleteWaitingForReadTransactions_frame, frame_next_state in H2.
    simpl. congruence.
  - apply bind_Returned in H as (w1 & H1 & [= <-]).
    by apply CompleteWaitingForReadTransactions_frame, frame_next_state in H1.
Qed.

Lemma Returned_pair_inv (p : Z * Writers) rv' w' :
  Returned p = Returned (rv', w') -> w' = p.2.
Proof. by intros [= ->]. Qed.

(** A turn of the loop from a state other than [UNSET] and [NONE] leads to
    a state that is nearer to [NONE], and not to [UNSET]. *)
Lemma DoLoopStep_turns_left env rv w rv' w' :
  DoLoopStep env rv w = Returned (rv', w') ->
  next_state_ w <> UNSET -> next_state_ w <> NONE ->
  next_state_ w' <> UNSET
  /\ (turns_left (next_state_ w') < turns_left (next_state_ w))%nat.
Proof.
  unfold DoLoopStep. intros H Hunset Hnone.
  destruct (next_state_ w) eqn:Hstate; try done.
  - assert (next_state_ w' = NETWORK_READ_COMPLETE) as ->; [|simpl; split; [done | lia]].
    unfold DoNetworkRead in H. by repeat case_match; injection H as _ <-.
  - unfold DoNetworkReadComplete in H. destruct (rv <? 0).
    + apply bind_Returned in H as (w1 & H1 & [= _ <-]).
      apply OnNetworkReadFailure_next_state in H1. rewrite H1. simpl. split; [done | lia].
    + injection H as _ <-. simpl. split; [done | lia].
  - assert (next_state_ w' = CACHE_WRITE_DATA_COMPLETE) as ->; [|simpl; split; [done | lia]].
    unfold DoCacheWriteData in H. destruct (_ || _); [by injection H as _ <-|].
    apply bind_Returned in H as (is_partial & _ & H).
    by destruct (negb is_partial); injection H as _ <-.
  - unfold DoCacheWriteDataComplete in H.
    apply bind_Returned in H as (w1 & H1 & H).
    assert (next_state_ w1 = NONE
            \/ next_state_ w1 = MARK_SINGLE_KEYED_CACHE_ENTRY_UNUSABLE) as Hw1.
    { unfold UpdateOrCheckChecksum in H1.
      repeat case_match; try done; injection H1 as <-; auto. }
    assert (next_state_ w' = next_state_ w1) as ->.
    { destruct (negb _).
      - apply bind_Returned in H as (w2 & H2 & [= _ <-]).
        by apply OnCacheWriteFailure_next_state in H2.
      - apply bind_Returned in H as (w2 & H2 & [= _ <-]).
        by apply OnDataReceived_next_state in H2. }
    destruct Hw1 as [-> | ->]; simpl; split; (done || lia).
  - apply Returned_pair_inv in H as ->. simpl. split; [done | lia].
  - unfold DoMarkSingleKeyedCacheEntryUnusableComplete in H.
    apply bind_Returned in H as (w1 & H1 & [= _ <-]).
    assert (next_state_ w1 = NONE) as ->; [|simpl; split; [done | lia]].
    destruct (rv <? 0).
    + by apply OnCacheWriteFailure_next_state in H1.
    + by injection H1 as <-.
Qed.

(** With more turns than the state needs, the loop ends. *)
Lemma DoLoopTurns_ends env fuel :
  forall rv w,
  next_state_ w <> UNSET -> next_state_ w <> NONE ->
  (turns_left (next_state_ w) <= fuel)%nat ->
  ends (DoLoopTurns fuel env rv w).
Proof.
  induction fuel as [|fuel IH]; intros rv w Hunset Hnone Hfuel.
  - destruct (next_state_ w); simpl in Hfuel; try done; lia.
  - simpl. apply bind_ends; [apply DoLoopStep_ends|].
    intros [rv1 w1] Hstep.
    apply DoLoopStep_turns_left in Hstep as [Hunset1 Hless]; [|done..].
    case_bool_decide as Hnone1; simpl; [done|].
    destruct (rv1 =? ERR_IO_PENDING); simpl; [done|].
    apply IH; [done | done | lia].
Qed.

(** [DoLoop] ends from every state that it accepts. *)
Lemma DoLoop_ends env result w :
  next_state_ w <> UNSET -> next_state_ w <> NONE -> ends (DoLoop env result w).
Proof.
  intros Hunset Hnone. unfold DoLoop.
  apply bind_ends; [|by intros [? ?] _].
  apply DoLoopTurns_ends; [done | done |].
  unfold DoLoop_fuel. destruct (next_state_ w); simpl; lia.
Qed.

(** More turns than the loop takes change nothing. *)
Lemma DoLoopTurns_more env fuel :
  forall fuel' rv w,
  ends (DoLoopTurns fuel env rv w) -> (fuel <= fuel')%nat ->
  DoLoopTurns fuel' env rv w = DoLoopTurns fuel env rv w.
Proof.
  induction fuel as [|fuel IH]; intros fuel' rv w Hends Hle; [done|].
  destruct fuel' as [|fuel']; [lia|]. simpl in *.
  destruct (DoLoopStep env rv w) as [[rv1 w1]| |]; simpl in *; try done.
  destruct (_ && _); [|done]. apply IH; [done | lia].
Qed.

(** From [UNSET] the loop never ends: no number of turns is enough. *)
Lemma DoLoopTurns_UNSET env fuel :
  forall rv w, next_state_ w = UNSET -> DoLoopTurns fuel env rv w = Diverged.
Proof.
  induction fuel as [|fuel IH]; intros rv w Hstate; [done|].
  simpl. unfold DoLoopStep. rewrite Hstate. simpl. by apply IH.
Qed.

(** The loop ends when the completion of the write arrives in the sample
    session that waits for it. *)
Lemma DoLoop_ends_witness :
  ends (DoLoop (sample_env ReadPending 0 3 true) 3 write_pending).
Proof. apply DoLoop_ends; by vm_compute. Defined.

(** *** Two transactions share a read *)

(** Transaction 1 reads into buffer 11 and the network read is pending;
    transaction 2 asks to read into buffer 12, of 2 bytes: it is told to
    wait, and no second read is asked of the network. The network read
    completes with the bytes 7, 8, 9, which the cache writes: the callback
    of transaction 1 is run with 3, a task is posted to run the callback of
    transaction 2 with 2, and buffer 12 holds the first two of the bytes of
    buffer 11. *)
Lemma two_transactions_share_a_read :
  Read (sample_env ReadPending 0 0 true) 11 300 101 1 three_writers
  = Returned (ERR_IO_PENDING, first_reads)
  /\ Read (sample_env ReadPending 0 0 true) 12 2 102 2 first_reads
     = Returned (ERR_IO_PENDING, second_waits)
  /\ network_reads second_waits = [(11%positive, 300)]
  /\ OnIOComplete (sample_env ReadPending 0 3 true) 3 bytes_arrived
     = Returned (3, write_done)
  /\ content_writes write_done = [WriteData 0 3]
  /\ run_callbacks write_done = [(101%positive, 3)]
  /\ posted_tasks write_done = [(102%positive, 2)]
  /\ buffer_data write_done 11 = [7; 8; 9]
  /\ buffer_data write_done 12 = [7; 8].
Proof. vm_compute. by split_and!. Qed.

(** *** A transaction leaves the session *)

Lemma EraseTransaction_it_network_transaction t r w :
  network_transaction_ (EraseTransaction_it t r w)
  = if bool_decide (delete t (all_writers_ w) = ∅) && bool_decide (next_state_ w = NONE)
    then false else network_transaction_ w.
Proof. erase_cases. Qed.

Lemma TruncateEntryIfShould_network_transaction env w w' :
  TruncateEntryIfShould env w = Returned w' ->
  network_transaction_ w' = network_transaction_ w.
Proof.
  unfold TruncateEntryIfShould, ShouldTruncate, TruncateEntry.
  repeat (case_match; cbn); try discriminate; by intros [= <-].
Qed.

(** [RemoveTransaction], as the cache sees it. Removing a transaction that
    is not a writer of the session dereferences [end()]. Otherwise the
    transaction is told that it leaves, with [OK]; as long as a writer is
    left nothing else happens; when the last writer leaves, the cache is
    told once that the writers are done, with [success], with the final
    [should_keep_entry_] and without readers, and before that the response
    info is written as truncated exactly when the removal is not a success
    and the entry can be resumed. *)
Theorem removing_the_last_writer_ends_the_session
    (env : Env) (t : Transaction) (success : bool) (w : Writers) :
  (all_writers_ w !! t = None ->
   RemoveTransaction env t success w = Faulted end_iterator)
  /\ (is_Some (all_writers_ w !! t) ->
      (should_keep_entry_ w = true -> is_Some (headers (response_info_truncation_ w))) ->
      exists w',
        RemoveTransaction env t success w = Returned w'
        /\ all_writers_ w' = delete t (all_writers_ w)
        /\ removed_writers w' = removed_writers w ++ [(t, OK)]
        /\ active_transaction_ w'
           = (if bool_decide (active_transaction_ w = Some t) then None
              else active_transaction_ w)
        /\ waiting_for_read_ w'
           = (if bool_decide (active_transaction_ w = Some t) then waiting_for_read_ w
              else delete t (waiting_for_read_ w))
        /\ (delete t (all_writers_ w) <> ∅ ->
            cache_notifications w' = cache_notifications w
            /\ info_writes w' = info_writes w
            /\ should_keep_entry_ w' = should_keep_entry_ w)
        /\ (delete t (all_writers_ w) = ∅ ->
            cache_notifications w'
            = cache_notifications w
              ++ [WritersDoneWritingToEntry success (should_keep_entry_ w') ∅]
            /\ info_writes w'
               = info_writes w
                 ++ (if negb success && truncation_eligible env w then [true] else [])
            /\ (success = true -> should_keep_entry_ w' = should_keep_entry_ w)
            /\ (should_keep_entry_ w = false -> should_keep_entry_ w' = false)
            /\ (next_state_ w = NONE -> network_transaction_ w' = false))).
Proof.
  split.
  { intros Hnone. unfold RemoveTransaction, EraseTransaction. by rewrite Hnone. }
  intros [info Hin] Hheaders.
  unfold RemoveTransaction, EraseTransaction. rewrite Hin.
  cbn [mbind Run_bind].
  set (w1 := EraseTransaction_it t OK w).
  pose proof (EraseTransaction_it_all_writers t OK w) as Hall.
  pose proof (EraseTransaction_it_removed t OK w) as Hrem.
  pose proof (EraseTransaction_it_waiting t OK w) as Hwait.
  pose proof (EraseTransaction_it_active t OK w) as Hact.
  pose proof (EraseTransaction_it_frame t OK w) as Hframe.
  pose proof (EraseTransaction_it_network_transaction t OK w) as Hnet.
  fold w1 in Hall, Hrem, Hwait, Hact, Hframe, Hnet.
  frame_fields Hframe.
  destruct (bool_decide (all_writers_ w1 = ∅)) eqn:Hempty.
  - apply bool_decide_eq_true in Hempty.
    assert (Hdel : delete t (all_writers_ w) = ∅) by (by rewrite <- Hall).
    destruct success; cbn [negb andb].
    + eexists. split; [reflexivity|]. cbn.
      split_and!; [done..| |].
      * intros Hne. by rewrite Hdel in Hne.
      * intros _. split_and!.
        -- congruence.
        -- by rewrite app_nil_r.
        -- congruence.
        -- congruence.
        -- intros Hs. rewrite Hnet, Hdel, Hs. by rewrite !bool_decide_eq_true_2.
    + destruct (TruncateEntryIfShould_Returned env w1) as
        (w2 & Hrun & Hinfo & Hkeep & Hkeepf & Hall2 & Hwait2 & Hact2 & _ & Hrem2 & _ & _ & Hcn2);
        [intros Hk; replace (response_info_truncation_ w1)
                      with (response_info_truncation_ w) by congruence;
         apply Hheaders; congruence|].
      rewrite Hrun. cbn [mbind Run_bind].
      eexists. split; [reflexivity|]. cbn.
      rewrite (truncation_eligible_frame env w1 w) in * by done.
      split_and!; [congruence..| |].
      * intros Hne. by rewrite Hdel in Hne.
      * intros _. split_and!.
        -- congruence.
        -- congruence.
        -- done.
        -- intros Hs. apply Hkeepf. congruence.
        -- intros Hs. rewrite (TruncateEntryIfShould_network_transaction _ _ _ Hrun).
           rewrite Hnet, Hdel, Hs. by rewrite !bool_decide_eq_true_2.
  - apply bool_decide_eq_false in Hempty.
    eexists. split; [reflexivity|].
    split_and!; [done..| |].
    + intros _. split_and!; congruence.
    + intros Hdel. by rewrite <- Hall in Hdel.
Qed.

(** *** The end of the response *)

Lemma attached_set_checksum_ checksum w : attached w -> attached (set_checksum_ checksum w).
Proof. by intros []. Qed.

(** The network read that ends the response (0 bytes) has been handed to
    [DoCacheWriteDataComplete]. Every waiting transaction is answered 0 and
    leaves the session, as the active one does (all with result 0). When
    the entry holds the whole body (the content length is unknown or not
    above the size of the entry), the transactions that were idle become
    the readers that the cache is given, with success; when the body is
    short, every transaction leaves, the entry is marked as truncated if it
    can be resumed, and the cache is told of a failure. *)
Theorem end_of_response_makes_the_idle_writers_readers
    (env : Env) (w : Writers) (buf : IOBuffer) (a : Transaction) (info : TransactionInfo) :
  attached w -> read_buf_ w = Some buf -> active_transaction_ w = Some a ->
  all_writers_ w !! a = Some info -> partial info = false ->
  write_len_ w = 0 -> network_transaction_ w = true ->
  exists w',
    DoCacheWriteDataComplete env 0 w = Returned (0, w')
    /\ all_writers_ w' = ∅ /\ waiting_for_read_ w' = ∅ /\ active_transaction_ w' = None
    /\ posted_tasks w'
       = posted_tasks w
         ++ map (fun e => (callback e.2, 0)) (map_to_list (waiting_for_read_ w))
    /\ (a, 0) ∈ removed_writers w'
    /\ (forall t, t ∈ dom (waiting_for_read_ w) -> (t, 0) ∈ removed_writers w')
    /\ if (0 <=? network_GetContentLength env)
          && (GetDataSize env <? network_GetContentLength env)
       then
         cache_callback_ w' = Some (false, should_keep_entry_ w', ∅)
         /\ info_writes w'
            = info_writes w ++ (if truncation_eligible env w then [true] else [])
         /\ forall t, t ∈ dom (all_writers_ w) -> (t, 0) ∈ removed_writers w'
       else
         cache_callback_ w'
         = Some (true, should_keep_entry_ w,
                 dom (all_writers_ w) ∖ ({[a]} ∪ dom (waiting_for_read_ w)))
         /\ info_writes w' = info_writes w
         /\ removed_writers w'
            = removed_writers w
              ++ (a, 0) :: map (fun e => (e.1, 0)) (map_to_list (waiting_for_read_ w)).
Proof.
  intros Hatt Hrb Ha Hinfo Hpartial Hlen0 Hnet.
  pose proof Hatt as [Hwatt0 Haatt0 Hanw0 Hlen Hheaders].
  assert (Hanswer :
            map (fun e : Transaction * WaitingForRead => (callback e.2, answer 0 e.2))
              (map_to_list (waiting_for_read_ w))
            = map (fun e => (callback e.2, 0)) (map_to_list (waiting_for_read_ w))).
  { apply map_ext_in. intros [t waiting] Hin. cbn.
    apply list_elem_of_In, elem_of_map_to_list in Hin. apply Hlen in Hin. cbn in Hin.
    unfold answer. cbn. f_equal. lia. }
  unfold DoCacheWriteDataComplete.
  destruct (UpdateOrCheckChecksum_Returned env (set_next_state_ NONE w))
    as (checksum & state & Hck);
    [cbn; rewrite Hrb; by eexists | cbn; rewrite Ha; by eexists |].
  rewrite Hck. cbn [mbind Run_bind].
  set (w1 := set_next_state_ state (set_checksum_ checksum (set_next_state_ NONE w))).
  assert (Hatt1 : attached w1).
  { by apply attached_set_next_state_, attached_set_checksum_, attached_set_next_state_. }
  change (write_len_ w1) with (write_len_ w). rewrite Hlen0. cbn [Z.eqb negb].
  unfold OnDataReceived, active_partial.
  change (active_transaction_ w1) with (active_transaction_ w).
  change (all_writers_ w1) with (all_writers_ w).
  rewrite Ha, Hinfo, Hpartial. cbn [mbind Run_bind Z.eqb].
  change (network_transaction_ w1) with (network_transaction_ w). rewrite Hnet. cbn [negb].
  destruct ((0 <=? network_GetContentLength env)
            && (GetDataSize env <? network_GetContentLength env)).
  - destruct (OnNetworkReadFailure_Returned env 0 w1)
      as (w' & -> & Hall & Hwait & Hactive & Hposted & Hrem & Hinfow & Hcb & _ & _ & _ & _ & _);
      [done | lia | intros _; cbn; rewrite Hrb; by eexists |].
    cbn [mbind Run_bind]. exists w'. split; [done|].
    assert (Hremall : forall t, t ∈ dom (all_writers_ w) -> (t, 0) ∈ removed_writers w').
    { intros t Ht. apply Hrem. right. split; [done | by apply elem_of_dom]. }
    split_and!.
    + done.
    + done.
    + done.
    + by rewrite Hposted, <- Hanswer.
    + apply Hremall. apply elem_of_dom. by eexists.
    + intros t Ht. by apply Hremall, Hwatt0.
    + done.
    + done.
    + done.
  - destruct (EraseActiveTransaction_Returned 0 w1)
      as (w2 & -> & Hactive2 & Hall2 & Hwait2 & Hrem2 & Hposted2 & Hbuf2 & Hframe2).
    { intros a' Ha'. by apply elem_of_dom, (active_attached _ Hatt1). }
    cbn [mbind Run_bind]. frame_fields Hframe2.
    replace (write_len_ w2) with 0 by (change (write_len_ w1) with (write_len_ w) in *; congruence).
    change (active_transaction_ w1) with (active_transaction_ w) in *.
    change (all_writers_ w1) with (all_writers_ w) in *.
    change (waiting_for_read_ w1) with (waiting_for_read_ w) in *.
    change (removed_writers w1) with (removed_writers w) in *.
    change (posted_tasks w1) with (posted_tasks w) in *.
    rewrite Ha in Hall2, Hrem2.
    destruct (CompleteWaitingForReadTransactions_Returned 0 w2)
      as (w3 & -> & Hwait3 & Hposted3 & Hall3 & Hrem3 & Hactive3 & Hframe3 & _ & _).
    { intros _. replace (read_buf_ w2) with (read_buf_ w1) by done. cbn. rewrite Hrb.
      by eexists. }
    { intros t waiting Ht. rewrite Hwait2 in Ht. apply Hlen in Ht. cbn in Ht. lia. }
    { intros _ t Ht. rewrite Hwait2 in Ht. rewrite Hall2.
      assert (t <> a) as Hne.
      { intros ->. apply elem_of_dom in Ht. by apply (Hanw0 a). }
      rewrite lookup_delete_ne by done. by apply elem_of_dom, Hwatt0, elem_of_dom. }
    { intros a'. by rewrite Hactive2. }
    cbn [mbind Run_bind]. frame_fields Hframe3.
    eexists. split; [reflexivity|]. unfold SetCacheCallback. cbn.
    rewrite Hwait2 in *. cbn [Z.leb Z.compare] in Hrem3.
    split_and!.
    + done.
    + done.
    + congruence.
    + by rewrite Hposted3, Hposted2, <- Hanswer.
    + rewrite Hrem3, Hrem2. set_solver.
    + intros t Ht. rewrite Hrem3. apply elem_of_app. right.
      apply elem_of_dom in Ht as [waiting Ht].
      apply (list_elem_of_fmap_2 (fun e : Transaction * WaitingForRead => (e.1, 0))
               _ (t, waiting)).
      by apply elem_of_map_to_list.
    + f_equal. f_equal; [f_equal; congruence|].
      apply set_eq. intros t.
      rewrite elem_of_dom, Hall3, Hall2. cbn [Z.leb Z.compare andb].
      rewrite elem_of_difference, elem_of_union, elem_of_singleton, !elem_of_dom.
      case_bool_decide as Hw.
      * split; [by intros [? ?]|]. intros [_ Hn]. exfalso. apply Hn. by right.
      * destruct (decide (t = a)) as [->|Hne].
        -- rewrite lookup_delete_eq. split; [by intros [? ?]|].
           intros [_ Hn]. exfalso. apply Hn. by left.
        -- rewrite lookup_delete_ne by done. split; [|tauto].
           intros Hs. split; [done|]. intros [?|?]; done.
    + congruence.
    + rewrite Hrem3, Hrem2. by rewrite <- app_assoc.
Qed.

Lemma response_ended_attached data_size : attached (response_ended data_size).
Proof.
  split.
  - compute_done.
  - intros a Ha. vm_compute in Ha. injection Ha as <-. compute_done.
  - intros a Ha. vm_compute in Ha. injection Ha as <-. compute_done.
  - intros t waiting Ht. apply elem_of_map_to_list in Ht. vm_compute in Ht.
    apply list_elem_of_singleton in Ht as [= -> ->]. by vm_compute.
  - intros _. by eexists.
Defined.

(** The entry holds the 1000 bytes that the response declares: transaction
    3, which was idle, becomes a reader. *)
Lemma end_of_response_makes_the_idle_writers_readers_witness :
  exists w',
    DoCacheWriteDataComplete (sample_env ReadPending 1000 0 true) 0 (response_ended 1000)
    = Returned (0, w')
    /\ all_writers_ w' = ∅
    /\ cache_callback_ w'
       = Some (true, should_keep_entry_ (response_ended 1000),
               dom (all_writers_ (response_ended 1000))
               ∖ ({[1%positive]} ∪ dom (waiting_for_read_ (response_ended 1000)))).
Proof.
  destruct (end_of_response_makes_the_idle_writers_readers
              (sample_env ReadPending 1000 0 true) (response_ended 1000) 11 1 sample_writer)
    as (w' & Hrun & Hall & _ & _ & _ & _ & _ & Hcb & _).
  - apply response_ended_attached.
  - by vm_compute.
  - by vm_compute.
  - by vm_compute.
  - done.
  - by vm_compute.
  - by vm_compute.
  - exists w'. split_and!; [exact Hrun | exact Hall | exact Hcb].
Defined.

(** *** Exclusive sessions, and sessions that must not truncate *)

Lemma modes_kept_refl w : modes_kept w w.
Proof.
  split; [done|]. intros ?. split; [done|]. exists []. by rewrite app_nil_r.
Qed.

Lemma modes_kept_trans w1 w2 w3 :
  modes_kept w1 w2 -> modes_kept w2 w3 -> modes_kept w1 w3.
Proof.
  intros [He12 Hp12] [He23 Hp23]. split; [auto|].
  intros H1. destruct (Hp12 H1) as (H2 & l2 & Hi2 & Hf2).
  destruct (Hp23 H2) as (H3 & l3 & Hi3 & Hf3).
  split; [done|]. exists (l2 ++ l3). split.
  - by rewrite Hi3, Hi2, app_assoc.
  - by apply Forall_app.
Qed.

(** Sessions that agree on the three members concerned. *)
Lemma modes_kept_same w w' :
  is_exclusive_ w' = is_exclusive_ w ->
  partial_do_not_truncate_ w' = partial_do_not_truncate_ w ->
  info_writes w' = info_writes w ->
  modes_kept w w'.
Proof.
  intros He Hp Hi. split; [congruence|]. intros ?. split; [congruence|].
  exists []. by rewrite app_nil_r.
Qed.

Lemma frame_modes_kept w w' : frame w' = frame w -> modes_kept w w'.
Proof. intros H. frame_fields H. by apply modes_kept_same. Qed.

Ltac same_modes := by apply modes_kept_same.

Lemma ShouldTruncate_modes env w should w' :
  ShouldTruncate env w = Returned (should, w') ->
  modes_kept w w' /\ (partial_do_not_truncate_ w = true -> should = false).
Proof.
  unfold ShouldTruncate. intros H.
  destruct (partial_do_not_truncate_ w) eqn:Hp.
  - rewrite orb_true_r in H. injection H as <- <-. split; [apply modes_kept_refl|done].
  - split; [|done]. repeat case_match; try done; injection H as <- <-; same_modes.
Qed.

Lemma TruncateEntryIfShould_modes env w w' :
  TruncateEntryIfShould env w = Returned w' -> modes_kept w w'.
Proof.
  unfold TruncateEntryIfShould. intros H.
  apply bind_Returned in H as ([should w1] & H1 & [= <-]).
  apply ShouldTruncate_modes in H1 as [[He Hp] Hno].
  destruct should; [|by split].
  split; [exact He|]. intros Hpt. by specialize (Hno Hpt).
Qed.

Lemma OnNetworkReadFailure_modes env result w w' :
  OnNetworkReadFailure env result w = Returned w' -> modes_kept w w'.
Proof.
  unfold OnNetworkReadFailure. intros H.
  apply bind_Returned in H as (w1 & H1 & H).
  apply bind_Returned in H as (w2 & H2 & H).
  apply bind_Returned in H as (w3 & H3 & [= <-]).
  apply ProcessFailure_frame, frame_modes_kept in H1.
  apply EraseActiveTransaction_frame, frame_modes_kept in H2.
  apply TruncateEntryIfShould_modes in H3.
  eapply modes_kept_trans; [exact H1|].
  eapply modes_kept_trans; [exact H2|].
  eapply modes_kept_trans; [exact H3|]. same_modes.
Qed.

Lemma OnCacheWriteFailure_modes w w' :
  OnCacheWriteFailure w = Returned w' -> modes_kept w w'.
Proof.
  unfold OnCacheWriteFailure. intros H.
  apply bind_Returned in H as (w1 & H1 & [= <-]).
  apply ProcessFailure_frame in H1. frame_fields H1.
  case_bool_decide; same_modes.
Qed.

Lemma OnDataReceived_modes env result w w' :
  OnDataReceived env result w = Returned w' -> modes_kept w w'.
Proof.
  unfold OnDataReceived. intros H.
  apply bind_Returned in H as (is_partial & _ & H).
  destruct is_partial; [injection H as <-; same_modes|].
  destruct (result =? 0).
  - destruct (negb (network_transaction_ w)); [done|].
    destruct (_ && _); [by apply OnNetworkReadFailure_modes in H|].
    apply bind_Returned in H as (w1 & H1 & H).
    apply bind_Returned in H as (w2 & H2 & [= <-]).
    apply EraseActiveTransaction_frame, frame_modes_kept in H1.
    apply CompleteWaitingForReadTransactions_frame, frame_modes_kept in H2.
    eapply modes_kept_trans; [exact H1|].
    eapply modes_kept_trans; [exact H2|]. same_modes.
  - apply bind_Returned in H as (w1 & H1 & [= <-]).
    apply CompleteWaitingForReadTransactions_frame, frame_modes_kept in H1.
    eapply modes_kept_trans; [exact H1|]. same_modes.
Qed.

Lemma DoNetworkRead_modes env w : modes_kept w (DoNetworkRead env w).2.
Proof. unfold DoNetworkRead. repeat case_match; same_modes. Qed.

Lemma DoNetworkReadComplete_modes env result w rv w' :
  DoNetworkReadComplete env result w = Returned (rv, w') -> modes_kept w w'.
Proof.
  unfold DoNetworkReadComplete. destruct (result <? 0); intros H.
  - apply bind_Returned in H as (w1 & H1 & [= _ <-]).
    apply OnNetworkReadFailure_modes in H1.
    eapply modes_kept_trans; [|exact H1]. same_modes.
  - injection H as _ <-. same_modes.
Qed.

Lemma DoCacheWriteData_modes env num_bytes w rv w' :
  DoCacheWriteData env num_bytes w = Returned (rv, w') -> modes_kept w w'.
Proof.
  unfold DoCacheWriteData. intros H.
  destruct (_ || _); [injection H as _ <-; same_modes|].
  apply bind_Returned in H as (is_partial & _ & H).
  destruct is_partial; injection H as _ <-; same_modes.
Qed.

Lemma UpdateOrCheckChecksum_modes env w w' :
  UpdateOrCheckChecksum env w = Returned w' -> modes_kept w w'.
Proof.
  unfold UpdateOrCheckChecksum. intros H.
  repeat case_match; try done; injection H as <-; same_modes.
Qed.

Lemma DoCacheWriteDataComplete_modes env result w rv w' :
  DoCacheWriteDataComplete env result w = Returned (rv, w') -> modes_kept w w'.
Proof.
  unfold DoCacheWriteDataComplete. intros H.
  apply bind_Returned in H as (w1 & H1 & H).
  apply UpdateOrCheckChecksum_modes in H1.
  assert (modes_kept w w1) as Hw1
    by (eapply modes_kept_trans; [|exact H1]; same_modes).
  eapply modes_kept_trans; [exact Hw1|].
  destruct (negb (result =? write_len_ w1)).
  - apply bind_Returned in H as (w2 & H2 & [= _ <-]). by apply OnCacheWriteFailure_modes.
  - apply bind_Returned in H as (w2 & H2 & [= _ <-]). by eapply OnDataReceived_modes.
Qed.

(** [DoMarkSingleKeyedCacheEntryUnusable] writes the response info as not
    truncated. *)
Lemma DoMarkSingleKeyedCacheEntryUnusable_modes env w :
  modes_kept w (DoMarkSingleKeyedCacheEntryUnusable env w).2.
Proof.
  split; [done|]. intros Hp. split; [done|]. exists [false]. split; [done|].
  by repeat constructor.
Qed.

Lemma DoMarkSingleKeyedCacheEntryUnusableComplete_modes result w rv w' :
  DoMarkSingleKeyedCacheEntryUnusableComplete result w = Returned (rv, w') ->
  modes_kept w w'.
Proof.
  unfold DoMarkSingleKeyedCacheEntryUnusableComplete. intros H.
  apply bind_Returned in H as (w1 & H1 & [= _ <-]).
  destruct (result <? 0).
  - apply OnCacheWriteFailure_modes in H1.
    eapply modes_kept_trans; [|exact H1]. same_modes.
  - injection H1 as <-. same_modes.
Qed.

Lemma Returned_pair_modes (p : Z * Writers) w rv' w' :
  Returned p = Returned (rv', w') -> modes_kept w p.2 -> modes_kept w w'.
Proof. by intros [= ->]. Qed.

Lemma DoLoopStep_modes env rv w rv' w' :
  DoLoopStep env rv w = Returned (rv', w') -> modes_kept w w'.
Proof.
  unfold DoLoopStep. intros H.
  assert (modes_kept w (set_next_state_ UNSET w)) as Hunset by same_modes.
  eapply modes_kept_trans; [exact Hunset|].
  destruct (next_state_ w).
  - injection H as _ <-. apply modes_kept_refl.
  - injection H as _ <-. apply modes_kept_refl.
  - eapply Returned_pair_modes; [exact H|]. apply DoNetworkRead_modes.
  - by eapply DoNetworkReadComplete_modes.
  - by eapply DoCacheWriteData_modes.
  - by eapply DoCacheWriteDataComplete_modes.
  - eapply Returned_pair_modes; [exact H|].
    apply DoMarkSingleKeyedCacheEntryUnusable_modes.
  - by eapply DoMarkSingleKeyedCacheEntryUnusableComplete_modes.
Qed.

Lemma DoLoopTurns_modes env fuel :
  forall rv w rv' w',
  DoLoopTurns fuel env rv w = Returned (rv', w') -> modes_kept w w'.
Proof.
  induction fuel as [|fuel IH]; intros rv w rv' w' H; simpl in H; [done|].
  apply bind_Returned in H as ([rv1 w1] & H1 & H).
  apply DoLoopStep_modes in H1.
  eapply modes_kept_trans; [exact H1|].
  destruct (_ && _).
  - by eapply IH.
  - injection H as _ <-. apply modes_kept_refl.
Qed.

Lemma RunCallback_modes consumer_callback rv w :
  modes_kept w (RunCallback consumer_callback rv w).
Proof. unfold RunCallback. repeat case_match; same_modes. Qed.

Lemma DoLoopEnd_modes rv w : modes_kept w (DoLoopEnd rv w).2.
Proof.
  unfold DoLoopEnd. repeat case_match; simpl;
    try (eapply modes_kept_trans; [|apply RunCallback_modes]); same_modes.
Qed.

Lemma DoLoop_modes env result w rv w' :
  DoLoop env result w = Returned (rv, w') -> modes_kept w w'.
Proof.
  unfold DoLoop. intros H. apply bind_Returned in H as ([rv1 w1] & H1 & H).
  apply DoLoopTurns_modes in H1.
  eapply modes_kept_trans; [exact H1|].
  pose proof (DoLoopEnd_modes rv1 w1) as Hend.
  destruct (DoLoopEnd rv1 w1). by injection H as _ <-.
Qed.

Lemma Read_modes env buf buf_len consumer_callback transaction w rv w' :
  Read env buf buf_len consumer_callback transaction w = Returned (rv, w') ->
  modes_kept w w'.
Proof.
  unfold Read. destruct (negb _); intros H.
  - injection H as _ <-. destruct (waiting_for_read_ w !! transaction); same_modes.
  - apply bind_Returned in H as ([rv1 w1] & H1 & [= _ <-]).
    apply DoLoop_modes in H1.
    eapply modes_kept_trans; [|eapply modes_kept_trans; [exact H1|]].
    + same_modes.
    + destruct (rv1 =? ERR_IO_PENDING); same_modes.
Qed.

Lemma StopCaching_modes keep_entry w : modes_kept w (StopCaching keep_entry w).2.
Proof. unfold StopCaching. repeat case_match; same_modes. Qed.

(** [AddTransaction] sets the two flags, and clears neither. *)
Lemma AddTransaction_modes transaction initial_writing_pattern info w :
  modes_kept w (AddTransaction transaction initial_writing_pattern info w).
Proof.
  unfold AddTransaction. split.
  - intros He. repeat case_match; cbn; done.
  - intros Hp. split.
    + repeat case_match; cbn; done.
    + exists []. rewrite app_nil_r. split; [|done]. by repeat case_match.
Qed.

Lemma RemoveTransaction_modes env transaction success w w' :
  RemoveTransaction env transaction success w = Returned w' -> modes_kept w w'.
Proof.
  unfold RemoveTransaction. intros H.
  apply bind_Returned in H as (w1 & H1 & H).
  apply EraseTransaction_frame, frame_modes_kept in H1.
  eapply modes_kept_trans; [exact H1|].
  case_bool_decide; [|injection H as <-; apply modes_kept_refl].
  apply bind_Returned in H as (w2 & H2 & [= <-]).
  destruct (negb success).
  - apply TruncateEntryIfShould_modes in H2.
    eapply modes_kept_trans; [exact H2|]. same_modes.
  - injection H2 as <-. same_modes.
Qed.

Lemma call_modes w c w' : call w c = Returned w' -> modes_kept w w'.
Proof.
  destruct c as [env []]; unfold call; cbn [fst snd]; intros H.
  - apply bind_Returned in H as ([rv w1] & H1 & [= <-]). by eapply Read_modes.
  - apply bind_Returned in H as ([rv w1] & H1 & [= <-]). by eapply DoLoop_modes.
  - injection H as <-. destruct (read_buf_ w); same_modes.
  - injection H as <-. apply StopCaching_modes.
  - injection H as <-. apply AddTransaction_modes.
  - injection H as <-. same_modes.
  - injection H as <-. same_modes.
  - by eapply RemoveTransaction_modes.
Qed.

Lemma calls_modes l w w' : calls l w = Returned w' -> modes_kept w w'.
Proof.
  unfold calls. apply for_each_kept.
  - apply modes_kept_refl.
  - apply modes_kept_trans.
  - apply call_modes.
Qed.

(** A session that its first transaction has made exclusive (it joined
    with a pattern other than [PARALLEL_WRITING_JOIN]) stays exclusive:
    whatever calls follow, [CanAddWriters] answers true only once no
    transaction is left. *)
Theorem exclusive_session_admits_no_other_writer
    (transaction : Transaction) (initial_writing_pattern : ParallelWritingPattern)
    (info : TransactionInfo) (w w' : Writers) (l : list (Env * Call)) :
  all_writers_ w = ∅ -> initial_writing_pattern <> PARALLEL_WRITING_JOIN ->
  calls l (AddTransaction transaction initial_writing_pattern info w) = Returned w' ->
  is_exclusive_ w' = true /\ (CanAddWriters w' = true -> all_writers_ w' = ∅).
Proof.
  intros Hempty Hpattern Hcalls.
  apply calls_modes in Hcalls as [He _].
  assert (Hex : is_exclusive_ w' = true).
  { apply He. unfold AddTransaction. cbn. rewrite Hempty.
    rewrite bool_decide_eq_true_2 by done. cbn.
    rewrite (bool_decide_eq_false_2 (initial_writing_pattern = PARALLEL_WRITING_JOIN))
      by done.
    repeat case_match; cbn; done. }
  split; [done|].
  unfold CanAddWriters. rewrite Hex. case_bool_decide; [done|discriminate].
Qed.

(** The entry of a session that a range request has joined whose entry was
    not truncated ([info.partial && !info.truncated]) is never marked as
    truncated: whatever calls follow, every response info that the session
    writes is written with [response_truncated] false. *)
Theorem partial_session_never_truncates_the_entry
    (transaction : Transaction) (initial_writing_pattern : ParallelWritingPattern)
    (info : TransactionInfo) (w w' : Writers) (l : list (Env * Call)) :
  partial info = true -> truncated info = false ->
  calls l (AddTransaction transaction initial_writing_pattern info w) = Returned w' ->
  partial_do_not_truncate_ w' = true
  /\ exists written,
       info_writes w' = info_writes w ++ written
       /\ Forall (fun response_truncated => response_truncated = false) written.
Proof.
  intros Hpartial Htruncated Hcalls.
  apply calls_modes in Hcalls as [_ Hp].
  destruct Hp as (Hp' & written & Hw & Hall).
  { unfold AddTransaction. rewrite Hpartial, Htruncated. cbn.
    repeat case_match; cbn; done. }
  split; [done|]. exists written. split; [|done].
  rewrite Hw. f_equal. unfold AddTransaction. by repeat case_match.
Qed.

Lemma sample_calls_return w :
  w = AddTransaction 1 (PARALLEL_WRITING_NOT_JOIN 0) sample_writer no_writers
  \/ w = AddTransaction 1 PARALLEL_WRITING_JOIN sample_partial_writer no_writers ->
  exists w', calls sample_calls w = Returned w'.
Proof. intros [-> | ->]; vm_compute; eexists; reflexivity. Defined.

(** Transaction 1 joins an empty session with a pattern that is not
    [PARALLEL_WRITING_JOIN]. *)
Lemma exclusive_session_admits_no_other_writer_witness :
  exists w',
    calls sample_calls
      (AddTransaction 1 (PARALLEL_WRITING_NOT_JOIN 0) sample_writer no_writers)
    = Returned w'
    /\ is_exclusive_ w' = true /\ (CanAddWriters w' = true -> all_writers_ w' = ∅).
Proof.
  destruct (sample_calls_return _ (or_introl eq_refl)) as [w' E].
  exists w'. split; [exact E|].
  apply (exclusive_session_admits_no_other_writer 1 (PARALLEL_WRITING_NOT_JOIN 0)
           sample_writer no_writers w' sample_calls); [reflexivity | discriminate | exact E].
Defined.

(** Transaction 1 is a range request whose entry was not truncated; the
    entry could be resumed (500 of its 1000 bytes are there), and it is not
    marked as truncated when the read fails. *)
Lemma partial_session_never_truncates_the_entry_witness :
  exists w',
    calls sample_calls (AddTransaction 1 PARALLEL_WRITING_JOIN sample_partial_writer no_writers)
    = Returned w'
    /\ partial_do_not_truncate_ w' = true
    /\ exists written,
         info_writes w' = info_writes no_writers ++ written
         /\ Forall (fun response_truncated => response_truncated = false) written.
Proof.
  destruct (sample_calls_return _ (or_intror eq_refl)) as [w' E].
  exists w'. split; [exact E|].
  apply (partial_session_never_truncates_the_entry 1 PARALLEL_WRITING_JOIN
           sample_partial_writer no_writers w' sample_calls); [reflexivity.. | exact E].
Defined.

End WritersFacts.

(* ===================================================================== *)
(** ** The registry of HTTP authentication schemes: properties *)
(* ===================================================================== *)

Module AuthFacts.
Import Auth AuthSpec.

#[local] Arguments NetLogParamsForCreateAuth : simpl never.

Section Registry.

Variable ToLowerASCII : string -> string.

#[local] Abbreviation GetRegisteredSchemeFactory := (GetRegisteredSchemeFactory ToLowerASCII).
#[local] Abbreviation GetSchemeFactory := (GetSchemeFactory ToLowerASCII).
#[local] Abbreviation RegisterSchemeFactory := (RegisterSchemeFactory ToLowerASCII).
#[local] Abbreviation CreateAuthHandler := (CreateAuthHandler ToLowerASCII).

Lemma GetAllowedAuthSchemes_RegisterSchemeFactory registry scheme factory :
  GetAllowedAuthSchemes (RegisterSchemeFactory registry scheme factory)
  = GetAllowedAuthSchemes registry.
Proof. by destruct factory. Qed.

(** Registration round trip. A scheme factory registered under a scheme
    name is the registered factory of every name that differs from it in
    the case of its ASCII letters only, with the preferences that the
    registry had when it was registered; registering the null factory
    unregisters the scheme for all these names; and the names that lower
    to something else are not concerned. *)
Theorem registered_scheme_factory_is_found_whatever_the_case
    (registry : HttpAuthHandlerRegistryFactory) (scheme scheme' : string)
    (factory : HttpAuthHandlerFactory) :
  GetRegisteredSchemeFactory (RegisterSchemeFactory registry scheme (Some factory)) scheme'
  = (if decide (ToLowerASCII scheme' = ToLowerASCII scheme)
     then Some (set_http_auth_preferences (registry_http_auth_preferences registry) factory)
     else GetRegisteredSchemeFactory registry scheme')
  /\ GetRegisteredSchemeFactory (RegisterSchemeFactory registry scheme None) scheme'
     = (if decide (ToLowerASCII scheme' = ToLowerASCII scheme)
        then None
        else GetRegisteredSchemeFactory registry scheme').
Proof.
  unfold Auth.GetRegisteredSchemeFactory, Auth.RegisterSchemeFactory. cbn.
  destruct (decide (ToLowerASCII scheme' = ToLowerASCII scheme)) as [->|Hne].
  - by rewrite lookup_insert_eq, lookup_delete_eq.
  - by rewrite lookup_insert_ne, lookup_delete_ne.
Qed.

(** What [CreateAuthHandler] refuses. A challenge without a scheme is an
    invalid response; a scheme that is not allowed, or that was
    unregistered, is unsupported. In these cases no scheme factory is
    asked, [*handler] is reset, and the event in the net log holds the net
    error and no [allows_default_credentials]. A scheme that the
    preferences of the registry do not allow is refused although a factory
    is registered for it. *)
Theorem create_auth_handler_refuses_unknown_schemes
    (registry : HttpAuthHandlerRegistryFactory) (scheme : string)
    (factory : option HttpAuthHandlerFactory)
    (args : CreateArguments) (handler : option HttpAuthHandler) :
  let refused (net_error : Z) r :=
    r.1 = (net_error, None)
    /\ forall capture_includes_sensitive,
         r.2 capture_includes_sensitive !! "net_error" = Some (IntValue net_error)
         /\ r.2 capture_includes_sensitive !! "allows_default_credentials" = None in
  (auth_scheme (challenge args) = EmptyString ->
   refused ERR_INVALID_RESPONSE (CreateAuthHandler registry args handler))
  /\ (auth_scheme (challenge args) <> EmptyString ->
      ToLowerASCII (auth_scheme (challenge args)) ∉ GetAllowedAuthSchemes registry ->
      refused ERR_UNSUPPORTED_AUTH_SCHEME
        (CreateAuthHandler (RegisterSchemeFactory registry scheme factory) args handler))
  /\ (auth_scheme (challenge args) <> EmptyString ->
      ToLowerASCII (auth_scheme (challenge args)) = ToLowerASCII scheme ->
      refused ERR_UNSUPPORTED_AUTH_SCHEME
        (CreateAuthHandler (RegisterSchemeFactory registry scheme None) args handler)).
Proof.
  intros refused. unfold refused.
  assert (Hlog : forall net_error s c o b,
            net_error < 0 ->
            NetLogParamsForCreateAuth s c net_error o None b !! "net_error"
            = Some (IntValue net_error)
            /\ NetLogParamsForCreateAuth s c net_error o None b
               !! "allows_default_credentials" = None).
  { intros net_error s c o b Hneg. unfold NetLogParamsForCreateAuth.
    rewrite (proj2 (Z.ltb_lt _ _) Hneg).
    rewrite lookup_insert_eq. split; [done|].
    rewrite lookup_insert_ne by done. rewrite lookup_insert_ne by done.
    destruct b.
    - rewrite lookup_insert_ne by done. by rewrite lookup_insert_ne.
    - by rewrite lookup_insert_ne. }
  split_and!.
  - intros Hempty. unfold Auth.CreateAuthHandler. rewrite Hempty, String.eqb_refl. cbn.
    split; [done|]. intros b. by apply Hlog.
  - intros Hne Hnot. unfold Auth.CreateAuthHandler.
    apply String.eqb_neq in Hne. rewrite Hne.
    unfold Auth.GetSchemeFactory. rewrite GetAllowedAuthSchemes_RegisterSchemeFactory.
    rewrite bool_decide_eq_false_2 by done. cbn.
    split; [done|]. intros b. by apply Hlog.
  - intros Hne Hsame. unfold Auth.CreateAuthHandler.
    apply String.eqb_neq in Hne. rewrite Hne.
    unfold Auth.GetSchemeFactory, Auth.GetRegisteredSchemeFactory, Auth.RegisterSchemeFactory.
    cbn [factory_map_ set_factory_map_]. rewrite Hsame, lookup_delete_eq.
    assert (Hnone : (if bool_decide
                          (ToLowerASCII scheme
                           ∈ GetAllowedAuthSchemes
                               (set_factory_map_
                                  (delete (ToLowerASCII scheme) (factory_map_ registry))
                                  registry))
                     then None else None) = (None : option HttpAuthHandlerFactory))
      by by case_bool_decide.
    rewrite Hnone. cbn.
    split; [done|]. intros b. by apply Hlog.
Qed.

(** A challenge for an allowed scheme goes to the factory registered for
    it, whatever the case of the scheme name in the challenge, and the
    factory is asked with the preferences that the registry had when the
    factory was registered, not with those the factory came with. *)
Theorem registered_scheme_factory_creates_the_handler
    (registry : HttpAuthHandlerRegistryFactory) (scheme : string)
    (factory : HttpAuthHandlerFactory)
    (args : CreateArguments) (handler : option HttpAuthHandler) :
  auth_scheme (challenge args) <> EmptyString ->
  ToLowerASCII (auth_scheme (challenge args)) = ToLowerASCII scheme ->
  ToLowerASCII scheme ∈ GetAllowedAuthSchemes registry ->
  (CreateAuthHandler (RegisterSchemeFactory registry scheme (Some factory)) args handler).1
  = create_auth_handler factory (registry_http_auth_preferences registry) args handler.
Proof.
  intros Hne Hsame Hallowed. unfold Auth.CreateAuthHandler.
  apply String.eqb_neq in Hne. rewrite Hne.
  unfold Auth.GetSchemeFactory. rewrite GetAllowedAuthSchemes_RegisterSchemeFactory.
  rewrite Hsame, bool_decide_eq_true_2 by done.
  unfold Auth.GetRegisteredSchemeFactory, Auth.RegisterSchemeFactory.
  cbn [factory_map_ set_factory_map_]. rewrite Hsame, lookup_insert_eq.
  cbn [create_auth_handler http_auth_preferences set_http_auth_preferences].
  by destruct (create_auth_handler factory _ args handler).
Qed.

Section NTLM.

Variable InitFromChallenge :
  HttpAuthHandlerNTLM -> CreateArguments -> option HttpAuthHandlerNTLM.

(** NTLM through the registry. With the NTLM factory registered for an
    allowed scheme, a preemptive creation is unsupported, and a challenge
    gives an NTLM handler exactly when [InitFromChallenge] accepts it, an
    invalid response otherwise; the handler that is initialised has the
    preferences of the registry. On both errors [*handler] keeps the handler
    it held: only the refusals of the registry itself reset it. *)
Theorem ntlm_handler_is_created_for_challenges_only
    (registry : HttpAuthHandlerRegistryFactory) (scheme : string)
    (args : CreateArguments) (handler : option HttpAuthHandler) :
  auth_scheme (challenge args) <> EmptyString ->
  ToLowerASCII (auth_scheme (challenge args)) = ToLowerASCII scheme ->
  ToLowerASCII scheme ∈ GetAllowedAuthSchemes registry ->
  let registry' :=
    RegisterSchemeFactory registry scheme
      (Some (HttpAuthHandlerNTLM.Factory InitFromChallenge)) in
  let new_handler :=
    {| target_ := AUTH_NONE; origin_ := EmptyString;
       http_auth_preferences_ := registry_http_auth_preferences registry |} in
  (CreateAuthHandler registry' args handler).1
  = match reason args with
    | CREATE_PREEMPTIVE => (ERR_UNSUPPORTED_AUTH_SCHEME, handler)
    | CREATE_CHALLENGE =>
        match InitFromChallenge new_handler args with
        | Some h => (OK, Some (NTLM h))
        | None => (ERR_INVALID_RESPONSE, handler)
        end
    end.
Proof.
  intros Hne Hsame Hallowed registry' new_handler. unfold registry'.
  unfold Auth.CreateAuthHandler.
  apply String.eqb_neq in Hne. rewrite Hne.
  unfold Auth.GetSchemeFactory. rewrite GetAllowedAuthSchemes_RegisterSchemeFactory.
  rewrite Hsame, bool_decide_eq_true_2 by done.
  unfold Auth.GetRegisteredSchemeFactory, Auth.RegisterSchemeFactory.
  cbn [factory_map_ set_factory_map_]. rewrite Hsame, lookup_insert_eq.
  cbn [create_auth_handler http_auth_preferences set_http_auth_preferences
       HttpAuthHandlerNTLM.Factory].
  unfold HttpAuthHandlerNTLM.CreateAuthHandler.
  destruct (reason args); [|done]. fold new_handler.
  by destruct (InitFromChallenge new_handler args).
Qed.

End NTLM.

End Registry.

(** *** The sample registry *)

Lemma sample_scheme_allowed :
  sample_ToLowerASCII "Ntlm" ∈ GetAllowedAuthSchemes sample_registry.
Proof. cbn. set_solver. Defined.

(** The NTLM factory is registered as Ntlm, and the challenge says NTLM. *)
Lemma registered_scheme_factory_creates_the_handler_witness :
  (CreateAuthHandler sample_ToLowerASCII
     (RegisterSchemeFactory sample_ToLowerASCII sample_registry "Ntlm"
        (Some (HttpAuthHandlerNTLM.Factory sample_InitFromChallenge)))
     sample_arguments None).1
  = create_auth_handler (HttpAuthHandlerNTLM.Factory sample_InitFromChallenge)
      (Some sample_prefs) sample_arguments None.
Proof.
  apply (registered_scheme_factory_creates_the_handler sample_ToLowerASCII sample_registry
           "Ntlm" (HttpAuthHandlerNTLM.Factory sample_InitFromChallenge) sample_arguments
           None); [discriminate | reflexivity | apply sample_scheme_allowed].
Defined.

Lemma ntlm_handler_is_created_for_challenges_only_witness :
  (CreateAuthHandler sample_ToLowerASCII
     (RegisterSchemeFactory sample_ToLowerASCII sample_registry "Ntlm"
        (Some (HttpAuthHandlerNTLM.Factory sample_InitFromChallenge)))
     sample_arguments None).1
  = (OK, Some (NTLM {| target_ := AUTH_SERVER; origin_ := "https://host.test";
                       http_auth_preferences_ := Some sample_prefs |})).
Proof.
  apply (ntlm_handler_is_created_for_challenges_only sample_ToLowerASCII
           sample_InitFromChallenge sample_registry "Ntlm" sample_arguments None);
    [discriminate | reflexivity | apply sample_scheme_allowed].
Defined.

End AuthFacts.
